(** * Item-to-item movie similarities: a shallow embedding of
      [movie-recommendation.py]

    The script is a PySpark job.  A DataFrame is modelled as the list of its
    rows, a row as a record with the column names of the source, and each
    DataFrame operator by the list function with the same relational
    meaning:

      - [filter]            [List.filter]
      - [withColumn/select] [List.map]
      - [join(other, cond)] a nested loop keeping the pairs that satisfy
                            [cond] ([join_on])
      - [groupBy(k).agg(f)] one row per distinct key, the aggregates taken
                            over the rows carrying that key ([groupBy])
      - [sort(c.desc())]    a stable descending sort ([sort_desc])
      - [take(n)]           [List.firstn]

    Spark leaves the order of the rows of an unsorted table open; the lists
    fix one, and the statements about such tables speak of membership and
    multiplicity only.

    Every cell is present (no SQL NULL).  A cell of an [IntegerType]
    column is a 32-bit integer: the rating file is read through [int32], and
    the products of two [IntegerType] columns wrap around at 32 bits, as
    Spark computes them when [spark.sql.ansi.enabled] is off (the default
    before Spark 4; with it on, an overflow aborts the job).  The sums and
    counts are [LongType] columns; they are taken in [Z], which is what
    Spark computes as long as a sum stays within 64 bits (a sum of 32-bit
    cells over fewer than 2^32 rows always does).  Columns of type double
    are computed through the interface [DoubleOps], which has two
    instances: [Binary64], the IEEE 754 binary64 arithmetic the JVM performs
    (Rocq's primitive floats, so the pipeline can be evaluated bit for bit),
    and [Exact], the same operations on real numbers, i.e. the value the
    floating-point result approximates.

    The line read from the terminal is a Python [str], modelled as the list
    of its code points; [int] is modelled as CPython 3.11 implements it
    (Unicode 14.0 decimal digits and white space, at most 4300 digits). *)

From Stdlib Require Import String Ascii.
From Stdlib Require Import List ZArith Lia Bool.
From Stdlib Require Import Permutation Sorted.
From Stdlib Require Import Reals Lra.
From Stdlib Require PrimFloat Uint63 Floats.
Import ListNotations.

Local Open Scope Z_scope.

(** * Arithmetic on double columns *)

(** The operations the script applies to double-valued columns.  [d_of_long]
    is Spark's implicit cast of a bigint to double, [d_lit0] the literal [0]
    of [otherwise(0)] once coerced to double. *)
Class DoubleOps : Type := {
  double : Type;
  d_of_long : Z -> double;
  d_lit0 : double;
  d_add : double -> double -> double;
  d_mul : double -> double -> double;
  d_div : double -> double -> double;
  d_sqrt : double -> double;
  d_neqb : double -> double -> bool;   (* [!=] *)
  d_gtb : double -> double -> bool;    (* [>]  *)
  d_geb : double -> double -> bool     (* [>=] *)
}.

(** ** IEEE 754 binary64 *)

(** A bigint within the range of [LongType] converted to the nearest
    double. *)
Definition float_of_long (z : Z) : PrimFloat.float :=
  if z <? 0 then PrimFloat.opp (PrimFloat.of_uint63 (Uint63.of_Z (- z)))
  else PrimFloat.of_uint63 (Uint63.of_Z z).

Definition float_is_nan (x : PrimFloat.float) : bool :=
  negb (PrimFloat.eqb x x).

(** Spark SQL compares doubles in a total order: NaN equals itself and is
    greater than every other value, [-0.0] equals [0.0], and the other values
    compare as IEEE 754 has them.  [spark_geb x y] is [x >= y] in that
    order. *)
Definition spark_geb (x y : PrimFloat.float) : bool :=
  float_is_nan x || (negb (float_is_nan y) && PrimFloat.leb y x).

(** [spark_geb] on the specification of binary64 values. *)
Definition sf_geb (x y : SpecFloat.spec_float) : bool :=
  negb (SpecFloat.SFeqb x x)
  || (SpecFloat.SFeqb y y && SpecFloat.SFleb y x).

#[export] Instance Binary64 : DoubleOps := {|
  double := PrimFloat.float;
  d_of_long := float_of_long;
  d_lit0 := PrimFloat.zero;
  d_add := PrimFloat.add;
  d_mul := PrimFloat.mul;
  d_div := PrimFloat.div;
  d_sqrt := PrimFloat.sqrt;
  d_neqb := fun x y => negb (spark_geb x y && spark_geb y x);
  d_gtb := fun x y => negb (spark_geb y x);
  d_geb := spark_geb
|}.

(** ** Exact real arithmetic *)

Definition Rneqb (x y : R) : bool := if Req_EM_T x y then false else true.
Definition Rgtb (x y : R) : bool := if Rlt_dec y x then true else false.
Definition Rgeb (x y : R) : bool := if Rle_dec y x then true else false.

#[export] Instance Exact : DoubleOps := {|
  double := R;
  d_of_long := IZR;
  d_lit0 := 0%R;
  d_add := Rplus;
  d_mul := Rmult;
  d_div := Rdiv;
  d_sqrt := sqrt;
  d_neqb := Rneqb;
  d_gtb := Rgtb;
  d_geb := Rgeb
|}.

(** The comparisons of an arithmetic form a total order when [>=] is total
    and transitive and [>] is its strict part. *)
Class DoubleOrder (D : DoubleOps) : Prop := {
  d_geb_total : forall x y : double, d_geb x y = false -> d_geb y x = true;
  d_geb_trans : forall x y z : double,
      d_geb x y = true -> d_geb y z = true -> d_geb x z = true;
  d_gtb_geb : forall x y : double, d_gtb x y = negb (d_geb y x)
}.

(** * Relational operators *)

Section Relational.
Context {A B K : Type}.

(** [l.join(r, cond)]: every pair of a row of [l] with a row of [r] that
    satisfies the join condition. *)
Definition join_on (cond : A -> B -> bool) (l : list A) (r : list B)
  : list (A * B) :=
  flat_map (fun a => map (pair a) (filter (cond a) r)) l.

Variable K_eq_dec : forall x y : K, {x = y} + {x <> y}.

Definition key_eqb (x y : K) : bool :=
  if K_eq_dec x y then true else false.

(** The rows of [l] whose grouping key is [k]. *)
Definition group_of (key : A -> K) (k : K) (l : list A) : list A :=
  filter (fun a => key_eqb (key a) k) l.

(** [l.groupBy(key).agg(...)]: the distinct keys of [l], each with its
    group of rows. *)
Definition groupBy (key : A -> K) (l : list A) : list (K * list A) :=
  map (fun k => (k, group_of key k l)) (nodup K_eq_dec (map key l)).
End Relational.

(** [func.sum] on an integer column. *)
Definition sum_long (l : list Z) : Z := fold_right Z.add 0 l.

(** [func.count] on a column: the number of its cells. *)
Definition count_long {A : Type} (l : list A) : Z := Z.of_nat (length l).

(** [func.avg] on an integer column: Spark adds the cells, each cast to
    double, and divides by their count. *)
Definition avg_double {D : DoubleOps} (l : list Z) : double :=
  d_div (fold_left d_add (map d_of_long l) d_lit0) (d_of_long (count_long l)).

Definition Z2_eq_dec (x y : Z * Z) : {x = y} + {x <> y}.
Proof. decide equality; apply Z.eq_dec. Defined.

(** * Tables *)

(** The value of an integer read as a 32-bit two's complement number. *)
Definition int32 (z : Z) : Z := (z + 2147483648) mod 4294967296 - 2147483648.

(** [moviesSchema]: the rows of [u.data].  [userID], [movieID] and [rating]
    are [IntegerType] columns: whatever integer a record stores, the column
    holds its 32-bit value.  [timestamp] is a [LongType] column, which the
    script never reads. *)
Module Movies.
Record row := mk {
  userID_cell : Z; movieID_cell : Z; rating_cell : Z; timestamp : Z }.
Definition userID (r : row) : Z := int32 (userID_cell r).
Definition movieID (r : row) : Z := int32 (movieID_cell r).
Definition rating (r : row) : Z := int32 (rating_cell r).
End Movies.

(** [movieNamesSchema]: the rows of [u.item]. *)
Module Names.
Record row := mk { movieID : Z; movieTitle : string }.
End Names.

(** The result of [filterGoodMovies]. *)
Module Good.
Record row {D : DoubleOps} := mk { movieID : Z; avgRating : double }.
Arguments row : clear implicits.
End Good.

(** [ratings]: the ratings of the good movies. *)
Module Ratings.
Record row := mk { userID : Z; movieID : Z; rating : Z }.
End Ratings.

(** [moviePairs]: one row per co-rating observation. *)
Module Pairs.
Record row := mk { movie1 : Z; movie2 : Z; rating1 : Z; rating2 : Z }.
Definition key (r : row) : Z * Z := (movie1 r, movie2 r).
End Pairs.

(** [pairScores]: [moviePairs] with the columns [xx], [yy] and [xy], which
    are [IntegerType] like the ratings they are the products of. *)
Module Scored.
Record row := mk {
  movie1 : Z; movie2 : Z; rating1 : Z; rating2 : Z;
  xx : Z; yy : Z; xy : Z }.
Definition key (r : row) : Z * Z := (movie1 r, movie2 r).
End Scored.

(** [calculateSimilarity]: the aggregates of one movie pair. *)
Module Agg.
Record row {D : DoubleOps} := mk {
  movie1 : Z; movie2 : Z;
  numerator : Z; denominator : double; numPairs : Z }.
Arguments row : clear implicits.
End Agg.

(** [result_]: the similarity of one movie pair. *)
Module Sims.
Record row {D : DoubleOps} := mk {
  movie1 : Z; movie2 : Z; score : double; numPairs : Z }.
Arguments row : clear implicits.
Definition key {D : DoubleOps} (r : row D) : Z * Z := (movie1 r, movie2 r).
End Sims.

(** * [computeCosineSimilarity] *)

Section ComputeCosineSimilarity.
Context {D : DoubleOps}.

(** The product of two [IntegerType] columns is an [IntegerType] column:
    it wraps around at 32 bits. *)
Definition pairScores (data : list Pairs.row) : list Scored.row :=
  map (fun r =>
         Scored.mk (Pairs.movie1 r) (Pairs.movie2 r)
                   (Pairs.rating1 r) (Pairs.rating2 r)
                   (int32 (Pairs.rating1 r * Pairs.rating1 r))
                   (int32 (Pairs.rating2 r * Pairs.rating2 r))
                   (int32 (Pairs.rating1 r * Pairs.rating2 r)))
      data.

Definition calculateSimilarity (data : list Pairs.row) : list (Agg.row D) :=
  map (fun g : Z * Z * list Scored.row =>
         let '(k, rows) := g in
         Agg.mk D (fst k) (snd k)
                (sum_long (map Scored.xy rows))
                (d_mul (d_sqrt (d_of_long (sum_long (map Scored.xx rows))))
                       (d_sqrt (d_of_long (sum_long (map Scored.yy rows)))))
                (count_long (map Scored.xy rows)))
      (groupBy Z2_eq_dec Scored.key (pairScores data)).

Definition computeCosineSimilarity (data : list Pairs.row)
  : list (Sims.row D) :=
  map (fun c : Agg.row D =>
         Sims.mk D (Agg.movie1 c) (Agg.movie2 c)
                 (if d_neqb (Agg.denominator c) d_lit0
                  then d_div (d_of_long (Agg.numerator c))
                             (Agg.denominator c)
                  else d_lit0)
                 (Agg.numPairs c))
      (calculateSimilarity data).
End ComputeCosineSimilarity.

(** * [filterGoodMovies] *)

Section FilterGoodMovies.
Context {D : DoubleOps}.

Definition movieAverages (movies : list Movies.row) : list (Good.row D) :=
  map (fun g : Z * list Movies.row =>
         Good.mk D (fst g) (avg_double (map Movies.rating (snd g))))
      (groupBy Z.eq_dec Movies.movieID movies).

Definition filterGoodMovies (movies : list Movies.row) (threshold : double)
  : list (Good.row D) :=
  filter (fun r => d_geb (Good.avgRating r) threshold) (movieAverages movies).
End FilterGoodMovies.

(** A decimal literal [n/d] of the script, read as a double. *)
Definition d_literal {D : DoubleOps} (n d : Z) : double :=
  d_div (d_of_long n) (d_of_long d).

(** The default of [filterGoodMovies]'s [threshold], [3.0]. *)
Definition threshold_default {D : DoubleOps} : double := d_of_long 3.

(** * The pipeline of the script, up to the similarity table *)

Section Pipeline.
Context {D : DoubleOps}.

(** [movies.join(goodMovies, "movieID").select("userID", "movieID",
    "rating")] *)
Definition ratings_of (movies : list Movies.row)
                      (goodMovies : list (Good.row D)) : list Ratings.row :=
  map (fun mg : Movies.row * Good.row D =>
         Ratings.mk (Movies.userID (fst mg)) (Movies.movieID (fst mg))
                    (Movies.rating (fst mg)))
      (join_on (fun m g => Movies.movieID m =? Good.movieID g)
               movies goodMovies).

(** The self-join of [ratings], before the [select]: [fst] is the row of
    the alias [ratings1], [snd] the row of [ratings2]. *)
Definition pairJoin (ratings : list Ratings.row)
  : list (Ratings.row * Ratings.row) :=
  join_on (fun r1 r2 =>
             (Ratings.userID r2 =? Ratings.userID r1)
             && (Ratings.movieID r2 >? Ratings.movieID r1))
          ratings ratings.

Definition moviePairs (ratings : list Ratings.row) : list Pairs.row :=
  map (fun p : Ratings.row * Ratings.row =>
         Pairs.mk (Ratings.movieID (fst p)) (Ratings.movieID (snd p))
                  (Ratings.rating (fst p)) (Ratings.rating (snd p)))
      (pairJoin ratings).

Definition moviePairSimilarities (movies : list Movies.row)
  : list (Sims.row D) :=
  let goodMovies := filterGoodMovies movies threshold_default in
  let ratings := ratings_of movies goodMovies in
  computeCosineSimilarity (moviePairs ratings).
End Pipeline.

(** * The query *)

Section Query.
Context {D : DoubleOps}.

Definition filteredResults (sims : list (Sims.row D)) (movieID : Z)
    (scoreThreshold coOccurrenceThreshold : double) : list (Sims.row D) :=
  filter (fun r =>
            ((Sims.movie1 r =? movieID) || (Sims.movie2 r =? movieID))
            && d_gtb (Sims.score r) scoreThreshold
            && d_gtb (d_of_long (Sims.numPairs r)) coOccurrenceThreshold)
         sims.

(** [sort(func.col("score").desc())], as a stable insertion sort. *)
Fixpoint insert_desc (x : Sims.row D) (l : list (Sims.row D))
  : list (Sims.row D) :=
  match l with
  | [] => [x]
  | y :: l' =>
      if d_geb (Sims.score x) (Sims.score y) then x :: y :: l'
      else y :: insert_desc x l'
  end.

Definition sort_desc (l : list (Sims.row D)) : list (Sims.row D) :=
  fold_right insert_desc [] l.

(** [filteredResults.sort(func.col("score").desc()).take(topK)] *)
Definition results (sims : list (Sims.row D)) (movieID : Z)
    (scoreThreshold coOccurrenceThreshold : double) (topK : nat)
  : list (Sims.row D) :=
  firstn topK
    (sort_desc
       (filteredResults sims movieID scoreThreshold coOccurrenceThreshold)).
End Query.

(** [scoreThreshold = 0.97] and [coOccurrenceThreshold = 50.0] *)
Definition scoreThreshold {D : DoubleOps} : double := d_literal 97 100.
Definition coOccurrenceThreshold {D : DoubleOps} : double := d_of_long 50.

(** * Exceptions and [getMovieName] *)

Inductive exn : Set := ValueError | NameError | IndexError | Py4JError.

Inductive result (A : Type) : Type :=
| Ok (a : A)
| Raise (e : exn).
Arguments Ok {A} a.
Arguments Raise {A} e.

(** [movieNames.filter(...).select("movieTitle").collect()[0]], then the
    first field of that row; indexing an empty list raises [IndexError]. *)
Definition getMovieName (movieNames : list Names.row) (movieId : Z)
  : result string :=
  match map Names.movieTitle
            (filter (fun r => Names.movieID r =? movieId) movieNames) with
  | [] => Raise IndexError
  | title :: _ => Ok title
  end.

(** * Reading the movie ID: Python's [int] on a [str] *)

(** A Python [str]: the list of its code points. *)
Definition str : Type := list Z.

(** The [str] of a literal of ASCII characters. *)
Definition text (s : string) : str :=
  map (fun a => Z.of_nat (nat_of_ascii a)) (list_ascii_of_string s).

(** The code point of the digit zero of each set of decimal digits
    (Unicode 14.0); the nine code points after a zero are its digits one to
    nine. *)
Definition decimal_zeros : list Z :=
  [48; 1632; 1776; 1984; 2406; 2534; 2662; 2790; 2918; 3046; 3174; 3302;
    3430; 3558; 3664; 3792; 3872; 4160; 4240; 6112; 6160; 6470; 6608; 6784;
    6800; 6992; 7088; 7232; 7248; 42528; 43216; 43264; 43472; 43504; 43600;
    44016; 65296; 66720; 68912; 69734; 69872; 69942; 70096; 70384; 70736;
    70864; 71248; 71360; 71472; 71904; 72016; 72784; 73040; 73120; 92768;
    92864; 93008; 120782; 120792; 120802; 120812; 120822; 123200; 123632;
    125264; 130032].

(** The decimal value of a character, if it is a decimal digit. *)
Definition digit_of (c : Z) : option Z :=
  match find (fun z => (z <=? c) && (c <=? z + 9)) decimal_zeros with
  | Some z => Some (c - z)
  | None => None
  end.

(** The white space from code point 127 on ([str.isspace]). *)
Definition unicode_spaces : list Z :=
  [133; 160; 5760; 8192; 8193; 8194; 8195; 8196; 8197; 8198; 8199; 8200;
    8201; 8202; 8232; 8233; 8239; 8287; 12288].

(** The characters [int] skips around the number.  Below 127 these are
    tab, line feed, vertical tab, form feed, carriage return and space;
    [int] reads every other white space as a space. *)
Definition is_space (c : Z) : bool :=
  if c <? 127 then ((9 <=? c) && (c <=? 13)) || (c =? 32)
  else existsb (Z.eqb c) unicode_spaces.

Fixpoint lstrip (s : str) : str :=
  match s with
  | c :: r => if is_space c then lstrip r else s
  | [] => s
  end.

(** The digits after the first one: a single underscore (code point 95)
    may separate two digits.  Returns the number read, the number of its
    digits and what follows it. *)
Fixpoint digits_tail (acc count : Z) (s : str) : result (Z * Z * str) :=
  match s with
  | [] => Ok (acc, count, s)
  | c :: r =>
      match digit_of c with
      | Some d => digits_tail (10 * acc + d) (count + 1) r
      | None =>
          if c =? 95 then
            match r with
            | c' :: r' =>
                match digit_of c' with
                | Some d => digits_tail (10 * acc + d) (count + 1) r'
                | None => Raise ValueError
                end
            | [] => Raise ValueError
            end
          else Ok (acc, count, s)
      end
  end.

(** The most digits [int] converts ([sys.int_info.default_max_str_digits]
    of CPython 3.11); the script does not change the limit. *)
Definition max_str_digits : Z := 4300.

(** [int(s)], in base ten: surrounding white space, an optional sign (code
    points 43 and 45), then digits; anything else, or more than
    [max_str_digits] digits, raises [ValueError]. *)
Definition py_int (s : str) : result Z :=
  let s1 := lstrip s in
  let signed :=
    match s1 with
    | c :: r =>
        if c =? 43 then (false, r)
        else if c =? 45 then (true, r)
        else (false, s1)
    | [] => (false, s1)
    end in
  match snd signed with
  | c :: r =>
      match digit_of c with
      | Some d =>
          match digits_tail d 1 r with
          | Ok (n, count, rest) =>
              match lstrip rest with
              | [] =>
                  if max_str_digits <? count then Raise ValueError
                  else Ok (if fst signed then - n else n)
              | _ :: _ => Raise ValueError
              end
          | Raise e => Raise e
          end
      | None => Raise ValueError
      end
  | [] => Raise ValueError
  end.

(** A Python [int] used as the literal of a comparison with a column goes
    to the JVM as a Java [long]; Py4J fails on a number that does not fit
    in 64 bits. *)
Definition java_long (n : Z) : bool :=
  (- 9223372036854775808 <=? n) && (n <? 9223372036854775808).

(** * The script *)

Section Script.
Context {D : DoubleOps}.

(** What the script prints.  [SimilarMovie] stands for the line
    [title, score, strength] of one result. *)
Inductive line : Type :=
| InvalidInput      (* "Invalid input. Please enter a numeric movie ID." *)
| NoSimilarMovies   (* "No similar movies found for the specified movie ID." *)
| Top10Header (title : string)
| SimilarMovie (title : string) (score : double) (strength : Z).

(** What a run does that can be observed: a Spark action ([take],
    [collect]) executes the query plan built so far (the DataFrame
    transformations before it are lazy), [print] writes a line. *)
Inductive event : Type :=
| Job
| Out (l : line).

(** A run: the events so far, and a value or the exception that ended
    it. *)
Definition M (A : Type) : Type := list event * result A.

Definition ret {A} (a : A) : M A := ([], Ok a).

Definition bind {A B} (m : M A) (k : A -> M B) : M B :=
  match m with
  | (tr, Ok a) => let '(tr', b) := k a in (tr ++ tr', b)
  | (tr, Raise e) => (tr, Raise e)
  end.

Definition raise {A} (e : exn) : M A := ([], Raise e).
Definition print (l : line) : M unit := ([Out l], Ok tt).

(** A Spark action: the job runs and its rows come back to the driver. *)
Definition action {A} (rows : A) : M A := ([Job], Ok rows).

(** [sys.exit(code)].  The script never imports [sys], so looking the
    name up raises [NameError] before [exit] is reached. *)
Definition sys_exit {A} (code : Z) : M A := raise NameError.

Local Notation "x <- c ;; k" := (bind c (fun x => k))
  (at level 61, c at next level, right associativity).
Local Notation "c ;;; k" := (bind c (fun _ => k))
  (at level 61, right associativity).

(** [getMovieName] as called by the script: its [collect()] is a Spark
    action. *)
Definition getMovieNameM (movieNames : list Names.row) (movieId : Z)
  : M string :=
  ([Job], getMovieName movieNames movieId).

Fixpoint for_each {A} (l : list A) (body : A -> M unit) : M unit :=
  match l with
  | [] => ret tt
  | a :: l' => body a ;;; for_each l' body
  end.

(** The module body from the definition of [moviePairSimilarities] on;
    [stdin] is the line [input] returns.  Building the filter compares the
    columns [movie1] and [movie2] with [movieID], which sends the number to
    the JVM: the run ends there with [Py4JError], before any job, when it is
    not a Java [long]. *)
Definition main (movies : list Movies.row) (movieNames : list Names.row)
    (stdin : str) : M unit :=
  let sims := moviePairSimilarities movies in
  movieID <- match py_int stdin with
             | Ok n => ret n
             | Raise ValueError => print InvalidInput ;;; sys_exit 1
             | Raise e => raise e
             end ;;
  (if java_long movieID then ret tt else raise Py4JError) ;;;
  rs <- action (results sims movieID scoreThreshold coOccurrenceThreshold 10) ;;
  match rs with
  | _ :: _ =>
      name <- getMovieNameM movieNames movieID ;;
      print (Top10Header name) ;;;
      for_each rs (fun r =>
        let similarMovieID :=
          if negb (Sims.movie1 r =? movieID) then Sims.movie1 r
          else Sims.movie2 r in
        name' <- getMovieNameM movieNames similarMovieID ;;
        print (SimilarMovie name' (Sims.score r) (Sims.numPairs r)))
  | [] => print NoSimilarMovies
  end.
End Script.

Arguments line : clear implicits.
Arguments event : clear implicits.

(** * The cosine similarity, as the specification words it *)

Section CosineSpec.
Context {D : DoubleOps}.

(** The observations of the pair [(m1, m2)]. *)
Definition observations (data : list Pairs.row) (m1 m2 : Z)
  : list Pairs.row :=
  filter (fun o => (Pairs.movie1 o =? m1) && (Pairs.movie2 o =? m2)) data.

(** The sum of [f] over the observations [l]. *)
Fixpoint total (f : Pairs.row -> Z) (l : list Pairs.row) : Z :=
  match l with
  | [] => 0
  | o :: l' => f o + total f l'
  end.

Definition sum_products (l : list Pairs.row) : Z :=
  total (fun o => Pairs.rating1 o * Pairs.rating2 o) l.

Definition sum_squares1 (l : list Pairs.row) : Z :=
  total (fun o => Pairs.rating1 o * Pairs.rating1 o) l.

Definition sum_squares2 (l : list Pairs.row) : Z :=
  total (fun o => Pairs.rating2 o * Pairs.rating2 o) l.

(** [sqrt(sum of rating1^2) * sqrt(sum of rating2^2)] *)
Definition norms_product (l : list Pairs.row) : double :=
  d_mul (d_sqrt (d_of_long (sum_squares1 l)))
        (d_sqrt (d_of_long (sum_squares2 l))).

(** [numerator / denominator] when the denominator is not zero, [0]
    otherwise. *)
Definition cosine (l : list Pairs.row) : double :=
  if d_neqb (norms_product l) d_lit0
  then d_div (d_of_long (sum_products l)) (norms_product l)
  else d_lit0.

(** The row the specification describes for the pair [k]. *)
Definition similarity_row (data : list Pairs.row) (k : Z * Z)
  : Sims.row D :=
  let l := observations data (fst k) (snd k) in
  Sims.mk D (fst k) (snd k) (cosine l) (Z.of_nat (length l)).
End CosineSpec.

(** * The rows [computeCosineSimilarity] computes *)

Section Emitted.
Context {D : DoubleOps}.

(** The sums of the columns [xy], [xx] and [yy] over the observations
    [l]. *)
Definition sum_xy (l : list Pairs.row) : Z :=
  sum_long (map (fun o => int32 (Pairs.rating1 o * Pairs.rating2 o)) l).

Definition sum_xx (l : list Pairs.row) : Z :=
  sum_long (map (fun o => int32 (Pairs.rating1 o * Pairs.rating1 o)) l).

Definition sum_yy (l : list Pairs.row) : Z :=
  sum_long (map (fun o => int32 (Pairs.rating2 o * Pairs.rating2 o)) l).

Definition emitted_denominator (l : list Pairs.row) : double :=
  d_mul (d_sqrt (d_of_long (sum_xx l))) (d_sqrt (d_of_long (sum_yy l))).

Definition emitted_score (l : list Pairs.row) : double :=
  if d_neqb (emitted_denominator l) d_lit0
  then d_div (d_of_long (sum_xy l)) (emitted_denominator l)
  else d_lit0.

(** The row of [calculateSimilarity] and the row of the result for the
    pair [k]. *)
Definition emitted_aggregate (data : list Pairs.row) (k : Z * Z)
  : Agg.row D :=
  let l := observations data (fst k) (snd k) in
  Agg.mk D (fst k) (snd k) (sum_xy l) (emitted_denominator l)
         (Z.of_nat (length l)).

Definition emitted_row (data : list Pairs.row) (k : Z * Z) : Sims.row D :=
  let l := observations data (fst k) (snd k) in
  Sims.mk D (fst k) (snd k) (emitted_score l) (Z.of_nat (length l)).
End Emitted.

(** The two ratings of an observation are small enough for their products
    to fit in 32 bits (46340 is the integer part of the square root of
    2^31); the ratings 1 to 5 of the specification are. *)
Definition products_fit (o : Pairs.row) : Prop :=
  Z.abs (Pairs.rating1 o) <= 46340 /\ Z.abs (Pairs.rating2 o) <= 46340.

(** * The mean rating of a movie, as the specification words it *)

Section MeanSpec.
Context {D : DoubleOps}.

(** All the ratings of the movie [id]. *)
Definition item_ratings (movies : list Movies.row) (id : Z) : list Z :=
  map Movies.rating (filter (fun m => Movies.movieID m =? id) movies).

(** The unweighted arithmetic mean: the sum of the ratings over their
    number. *)
Definition arithmetic_mean (l : list Z) : double :=
  d_div (fold_left d_add (map d_of_long l) d_lit0)
        (d_of_long (Z.of_nat (length l))).
End MeanSpec.

(** * Co-rating, as the specification words it *)

(** The (user, item) interaction a rating row records. *)
Definition user_item (m : Movies.row) : Z * Z :=
  (Movies.userID m, Movies.movieID m).

(** No user has two rating rows for one item. *)
Definition one_row_per_interaction (movies : list Movies.row) : Prop :=
  NoDup (map user_item movies).

(** The number of rating rows of user [u] for the item [x]. *)
Definition rating_rows (movies : list Movies.row) (u x : Z) : nat :=
  length (filter (fun m => (Movies.userID m =? u) && (Movies.movieID m =? x))
                 movies).

(** A row of the self-join is an observation by user [u] of the unordered
    pair of the items [a] and [b]. *)
Definition observes (u a b : Z) (p : Ratings.row * Ratings.row) : bool :=
  (Ratings.userID (fst p) =? u)
  && (((Ratings.movieID (fst p) =? a) && (Ratings.movieID (snd p) =? b))
      || ((Ratings.movieID (fst p) =? b) && (Ratings.movieID (snd p) =? a))).

(** The rating row the join with [goodMovies] keeps of a row of
    [movies]. *)
Definition to_rating (m : Movies.row) : Ratings.row :=
  Ratings.mk (Movies.userID m) (Movies.movieID m) (Movies.rating m).

Definition rating_key (r : Ratings.row) : Z * Z :=
  (Ratings.userID r, Ratings.movieID r).

(** The number of rows of [ratings] of user [u] for the item [x]. *)
Definition count_key (u x : Z) (ratings : list Ratings.row) : nat :=
  length (filter (fun r => (Ratings.userID r =? u) && (Ratings.movieID r =? x))
                 ratings).

(** * The real number a double stands for *)

Definition bpow (e : Z) : R := powerRZ 2 e.

Definition SF2R (f : SpecFloat.spec_float) : R :=
  match f with
  | SpecFloat.S754_finite s m e =>
      ((if s then -1 else 1) * IZR (Zpos m) * bpow e)%R
  | _ => 0%R
  end.

(** The value of a finite double; 0 for an infinity or NaN. *)
Definition double_value (x : PrimFloat.float) : R :=
  SF2R (FloatOps.Prim2SF x).

(** [2^-52], the distance from 1.0 to the next double. *)
Definition eps52 : R := (/ 4503599627370496)%R.

(** * Descending order of score *)

(** [a] may stand before [b] in a table sorted by descending score. *)
Definition score_geq {D : DoubleOps} (a b : Sims.row D) : Prop :=
  d_geb (Sims.score a) (Sims.score b) = true.

(** * Sample tables *)

Definition obs (a b x y : Z) : Pairs.row := Pairs.mk a b x y.
Definition rated (u m r : Z) : Movies.row := Movies.mk u m r 0.

(** The scenario of the specification: two users rate the movies 1 and 2
    alike, one of them also rates movie 3. *)
Definition scenario_movies : list Movies.row :=
  [rated 1 1 5; rated 1 2 5; rated 2 1 4; rated 2 2 4; rated 1 3 1].

Definition scenario_names : list Names.row :=
  [Names.mk 1 "Toy Story"; Names.mk 2 "GoldenEye"; Names.mk 3 "Four Rooms"].

(** Its co-rating observations, every movie passing the quality filter
    (threshold 0). *)
Definition scenario_pairs : list Pairs.row :=
  moviePairs
    (ratings_of scenario_movies
       (filterGoodMovies (D := Binary64) scenario_movies d_lit0)).

(** Two users who both gave the rating 3 to the movies 10 and 20. *)
Definition threes_movies : list Movies.row :=
  [rated 1 10 3; rated 1 20 3; rated 2 10 3; rated 2 20 3].

Definition threes_pairs : list Pairs.row := [obs 10 20 3 3; obs 10 20 3 3].

(** User 1 rated movie 10 twice, at two moments, and movie 20 once. *)
Definition rerated_movies : list Movies.row :=
  [Movies.mk 1 10 5 100; Movies.mk 1 10 4 200; Movies.mk 1 20 3 300].

(** One observation of the movies 1 and 2, both rated 0. *)
Definition zeros_pairs : list Pairs.row := [obs 1 2 0 0].

(** A similarity table to query. *)
Definition sample_sims : list (Sims.row Binary64) :=
  [Sims.mk Binary64 1 3 (d_literal 99 100) 60;
   Sims.mk Binary64 2 3 (d_literal 98 100) 70;
   Sims.mk Binary64 3 4 (d_of_long 1) 51;
   Sims.mk Binary64 3 5 (d_literal 99 100) 50;
   Sims.mk Binary64 3 6 (d_literal 97 100) 90;
   Sims.mk Binary64 1 2 (d_of_long 1) 80].

(** * Further definitions for the properties of the script *)

(** [similarMovieID] of the loop over the results: the movie of the row
    that is not the queried one. *)
Definition similarMovieID {D : DoubleOps} (movieID : Z) (r : Sims.row D) : Z :=
  if negb (Sims.movie1 r =? movieID) then Sims.movie1 r else Sims.movie2 r.

(** The events of the loop over the results [rs] when the name lookups
    return [titles]: for each result one [collect] and one printed line. *)
Definition result_events {D : DoubleOps} (rs : list (Sims.row D))
    (titles : list string) : list (event D) :=
  flat_map (fun rt : Sims.row D * string =>
              [Job; Out (SimilarMovie (snd rt) (Sims.score (fst rt))
                                      (Sims.numPairs (fst rt)))])
           (combine rs titles).

(** The body of the loop over the results: look the similar movie's name
    up, print the line. *)
Definition print_similar {D : DoubleOps} (movieNames : list Names.row)
    (movieID : Z) (r : Sims.row D) : M unit :=
  bind (getMovieNameM movieNames (similarMovieID movieID r))
       (fun name' =>
          print (SimilarMovie name' (Sims.score r) (Sims.numPairs r))).

(** The users of the rating rows for [a] whose user also has a row for
    [b]. *)
Definition co_raters (ratings : list Ratings.row) (a b : Z) : list Z :=
  map Ratings.userID
      (filter (fun r1 =>
                 (Ratings.movieID r1 =? a)
                 && existsb (fun r2 =>
                               (Ratings.userID r2 =? Ratings.userID r1)
                               && (Ratings.movieID r2 =? b)) ratings)
              ratings).

(** The characters a line accepted by [int] is made of. *)
Definition is_digit (c : Z) : bool :=
  match digit_of c with Some _ => true | None => false end.

Definition int_char (c : Z) : bool :=
  is_space c || is_digit c || (c =? 95) || (c =? 43) || (c =? 45).

(** The number a [str] of decimal digits denotes, after [acc]. *)
Fixpoint decimal_value (acc : Z) (s : str) : Z :=
  match s with
  | [] => acc
  | c :: r =>
      match digit_of c with
      | Some d => decimal_value (10 * acc + d) r
      | None => acc
      end
  end.

(** Two observations of the movies 1 and 2 in the proportion 1 : 2, and a
    pair with a single observation. *)
Definition doubled_pairs : list Pairs.row := [obs 1 2 2 4; obs 1 2 1 2].
Definition lone_pairs : list Pairs.row := [obs 1 2 5 1].

(** Fifty-one users who all gave the rating 4 to the movies 1 and 2. *)
Definition crowd_movies : list Movies.row :=
  flat_map (fun u => [rated u 1 4; rated u 2 4]) (map Z.of_nat (seq 1 51)).

Definition crowd_names : list Names.row :=
  [Names.mk 1 "Toy Story"; Names.mk 2 "GoldenEye"].

(** The number of rows of [ratings] of the user [u]. *)
Definition user_rows (ratings : list Ratings.row) (u : Z) : nat :=
  length (filter (fun r => Ratings.userID r =? u) ratings).

(** The Spark jobs of a run, and the lines it printed. *)
Definition jobs {D : DoubleOps} (tr : list (event D)) : nat :=
  length (filter (fun e => match e with Job => true | Out _ => false end) tr).

Definition printed {D : DoubleOps} (tr : list (event D)) : list (line D) :=
  flat_map (fun e => match e with Job => [] | Out l => [l] end) tr.

(** The events of the loop over the results: a name lookup, or the line of
    a similar movie. *)
Definition loop_event {D : DoubleOps} (e : event D) : Prop :=
  match e with
  | Job => True
  | Out (SimilarMovie _ _ _) => True
  | Out _ => False
  end.

(** A catalog that holds the queried movie only. *)
Definition short_names : list Names.row := [Names.mk 1 "Toy Story"].

(** * Facts about the relational operators *)

Section RelationalFacts.
Context {A B K : Type}.
Variable K_eq_dec : forall x y : K, {x = y} + {x <> y}.

Lemma key_eqb_eq (x y : K) : key_eqb K_eq_dec x y = true <-> x = y.
Proof.
  unfold key_eqb. destruct (K_eq_dec x y); split; congruence.
Qed.

Lemma key_eqb_refl (x : K) : key_eqb K_eq_dec x x = true.
Proof. now apply key_eqb_eq. Qed.

Lemma key_eqb_neq (x y : K) : x <> y -> key_eqb K_eq_dec x y = false.
Proof.
  intros Hne. destruct (key_eqb K_eq_dec x y) eqn:E; [|reflexivity].
  apply key_eqb_eq in E. contradiction.
Qed.

Lemma filter_key_absent (k : K) (l : list K) :
  ~ In k l -> filter (fun x => key_eqb K_eq_dec x k) l = [].
Proof.
  induction l as [|x l IH]; simpl; intros Hn; [reflexivity|].
  rewrite key_eqb_neq by (intros ->; apply Hn; now left).
  apply IH. intros Hin. apply Hn. now right.
Qed.

Lemma filter_key_NoDup (k : K) (l : list K) :
  NoDup l -> In k l -> filter (fun x => key_eqb K_eq_dec x k) l = [k].
Proof.
  induction 1 as [|x l Hx Hl IH]; simpl; intros Hin; [contradiction|].
  destruct Hin as [->|Hin].
  - rewrite key_eqb_refl. f_equal. now apply filter_key_absent.
  - rewrite key_eqb_neq by (intros ->; contradiction). now apply IH.
Qed.

(** The distinct keys hold each key of the table once. *)
Lemma filter_key_nodup (k : K) (l : list K) :
  In k l ->
  filter (fun x => key_eqb K_eq_dec x k) (nodup K_eq_dec l) = [k].
Proof.
  intros Hin. apply filter_key_NoDup.
  - apply NoDup_nodup.
  - now apply nodup_In.
Qed.

Lemma group_of_nonempty (key : A -> K) (a : A) (l : list A) :
  In a l -> group_of K_eq_dec key (key a) l <> [].
Proof.
  intros Hin Hnil.
  assert (Ha : In a (group_of K_eq_dec key (key a) l)).
  { apply filter_In. split; [assumption|apply key_eqb_refl]. }
  rewrite Hnil in Ha. contradiction.
Qed.

Lemma in_join_on (cond : A -> B -> bool) (l : list A) (r : list B) a b :
  In (a, b) (join_on cond l r) <-> In a l /\ In b r /\ cond a b = true.
Proof.
  unfold join_on. rewrite in_flat_map. split.
  - intros [a' [Ha Hab]]. apply in_map_iff in Hab.
    destruct Hab as [b' [Heq Hb]]. inversion Heq; subst.
    apply filter_In in Hb. tauto.
  - intros [Ha [Hb Hc]]. exists a. split; [assumption|].
    apply in_map. apply filter_In. tauto.
Qed.
End RelationalFacts.

Lemma filter_nil {A : Type} (p : A -> bool) (l : list A) :
  (forall x, In x l -> p x = false) -> filter p l = [].
Proof.
  induction l as [|a l IH]; simpl; intros H; [reflexivity|].
  rewrite (H a) by now left. apply IH. intros x Hx. apply H. now right.
Qed.

Lemma Z2_key_eqb (k : Z * Z) (m1 m2 : Z) :
  key_eqb Z2_eq_dec k (m1, m2) = (fst k =? m1) && (snd k =? m2).
Proof.
  destruct k as [a b]; simpl.
  destruct (key_eqb Z2_eq_dec (a, b) (m1, m2)) eqn:E.
  - apply key_eqb_eq in E. inversion E; subst. now rewrite !Z.eqb_refl.
  - symmetry. apply andb_false_iff.
    destruct (Z.eqb_spec a m1), (Z.eqb_spec b m2); subst; auto.
    now rewrite key_eqb_refl in E.
Qed.

(** * 32-bit products *)

Lemma int32_small (z : Z) :
  - 2147483648 <= z < 2147483648 -> int32 z = z.
Proof. intros H. unfold int32. rewrite Z.mod_small by lia. lia. Qed.

Lemma int32_range (z : Z) : - 2147483648 <= int32 z < 2147483648.
Proof.
  unfold int32.
  pose proof (Z.mod_pos_bound (z + 2147483648) 4294967296). lia.
Qed.

Lemma int32_product (a b : Z) :
  Z.abs a <= 46340 -> Z.abs b <= 46340 -> int32 (a * b) = a * b.
Proof. intros Ha Hb. apply int32_small. nia. Qed.

Lemma sum_long_total (f : Pairs.row -> Z) (l : list Pairs.row) :
  sum_long (map f l) = total f l.
Proof.
  unfold sum_long. induction l as [|o l IH]; simpl; [reflexivity|].
  now rewrite IH.
Qed.

(** Where the products fit, the sums of the three columns are the sums of
    the products of the ratings. *)
Lemma sums_fit (l : list Pairs.row) :
  Forall products_fit l ->
  sum_xy l = sum_products l
  /\ sum_xx l = sum_squares1 l
  /\ sum_yy l = sum_squares2 l.
Proof.
  unfold sum_xy, sum_xx, sum_yy, sum_products, sum_squares1, sum_squares2.
  rewrite !sum_long_total.
  induction 1 as [|o l [H1 H2] _ [IH1 [IH2 IH3]]]; simpl; [auto|].
  rewrite IH1, IH2, IH3, !int32_product by assumption. auto.
Qed.

(** * The similarity table, pair by pair *)

Section CosineFacts.
Context {D : DoubleOps}.

(** Where the products fit, the row computed for a pair is the row the
    specification describes. *)
Lemma emitted_row_fits (data : list Pairs.row) (k : Z * Z) :
  Forall products_fit (observations data (fst k) (snd k)) ->
  emitted_row (D := D) data k = similarity_row data k.
Proof.
  intros Hfit. destruct (sums_fit _ Hfit) as [H1 [H2 H3]].
  unfold emitted_row, similarity_row, emitted_score, emitted_denominator,
    cosine, norms_product.
  now rewrite H1, H2, H3.
Qed.

Lemma observations_fit (data : list Pairs.row) (m1 m2 : Z) :
  Forall products_fit data -> Forall products_fit (observations data m1 m2).
Proof.
  intros Hfit. apply Forall_forall. intros o Ho.
  apply filter_In in Ho. rewrite Forall_forall in Hfit.
  apply Hfit. tauto.
Qed.

Lemma group_of_pairScores (data : list Pairs.row) (k : Z * Z) :
  group_of Z2_eq_dec Scored.key k (pairScores data)
  = pairScores (observations data (fst k) (snd k)).
Proof.
  unfold group_of, pairScores, observations.
  rewrite filter_map_swap. f_equal. apply filter_ext.
  intros o. destruct k as [m1 m2]. now rewrite Z2_key_eqb.
Qed.

Lemma keys_pairScores (data : list Pairs.row) :
  map Scored.key (pairScores data) = map Pairs.key data.
Proof. unfold pairScores. now rewrite map_map. Qed.

(** [calculateSimilarity] yields, for each distinct pair of the
    observations, the aggregates over the observations of the pair. *)
Lemma calculateSimilarity_rows (data : list Pairs.row) :
  calculateSimilarity data
  = map (emitted_aggregate data) (nodup Z2_eq_dec (map Pairs.key data)).
Proof.
  unfold calculateSimilarity, groupBy.
  rewrite keys_pairScores, !map_map. apply map_ext. intros k.
  rewrite group_of_pairScores.
  unfold emitted_aggregate, emitted_denominator, sum_xy, sum_xx, sum_yy,
    count_long, pairScores.
  now rewrite !map_map, !length_map.
Qed.

(** [computeCosineSimilarity] yields, for each of these pairs, its row. *)
Lemma computeCosineSimilarity_rows (data : list Pairs.row) :
  computeCosineSimilarity data
  = map (emitted_row data) (nodup Z2_eq_dec (map Pairs.key data)).
Proof.
  unfold computeCosineSimilarity.
  rewrite calculateSimilarity_rows, map_map. reflexivity.
Qed.

Lemma key_emitted_row (data : list Pairs.row) (k : Z * Z) :
  Sims.key (emitted_row data k) = k.
Proof. now destruct k. Qed.

Lemma in_computeCosineSimilarity (data : list Pairs.row) (r : Sims.row D) :
  In r (computeCosineSimilarity data) <->
  In (Sims.key r) (map Pairs.key data)
  /\ r = emitted_row data (Sims.key r).
Proof.
  rewrite computeCosineSimilarity_rows, in_map_iff. split.
  - intros [k [<- Hk]]. rewrite key_emitted_row.
    split; [now apply nodup_In in Hk|reflexivity].
  - intros [Hk Hr]. exists (Sims.key r). split; [now symmetry|].
    now apply nodup_In.
Qed.

Lemma observations_nonempty (data : list Pairs.row) (o : Pairs.row) :
  In o data -> In o (observations data (Pairs.movie1 o) (Pairs.movie2 o)).
Proof.
  intros Hin. apply filter_In. split; [assumption|].
  now rewrite !Z.eqb_refl.
Qed.

Lemma in_observations (data : list Pairs.row) (m1 m2 : Z) (o : Pairs.row) :
  In o (observations data m1 m2) <->
  In o data /\ Pairs.movie1 o = m1 /\ Pairs.movie2 o = m2.
Proof.
  unfold observations. rewrite filter_In, andb_true_iff, !Z.eqb_eq.
  tauto.
Qed.
End CosineFacts.

(** C1.  For every pair [(m1, m2)] that occurs in the observations, with
    ratings whose products fit the 32-bit columns (the ratings 1 to 5 of the
    specification do), the aggregation holds exactly one row for that pair:
    its numerator is the sum of [rating1 * rating2] over the observations
    of the pair, its denominator
    [sqrt(sum rating1^2) * sqrt(sum rating2^2)] over the same observations
    and its [numPairs] their number; and [computeCosineSimilarity] emits
    exactly one row for the pair, with the score [numerator / denominator]
    when the denominator is not zero and [0] otherwise, and the same
    [numPairs]. *)
Theorem computeCosineSimilarity_one_row_per_pair
    {D : DoubleOps} (data : list Pairs.row) (m1 m2 : Z) :
  In (m1, m2) (map Pairs.key data) ->
  let l := observations data m1 m2 in
  Forall products_fit l ->
  let numerator := total (fun o => Pairs.rating1 o * Pairs.rating2 o) l in
  let denominator :=
    d_mul
      (d_sqrt (d_of_long
         (total (fun o => Pairs.rating1 o * Pairs.rating1 o) l)))
      (d_sqrt (d_of_long
         (total (fun o => Pairs.rating2 o * Pairs.rating2 o) l))) in
  filter (fun c => key_eqb Z2_eq_dec (Agg.movie1 c, Agg.movie2 c) (m1, m2))
         (calculateSimilarity data)
  = [Agg.mk D m1 m2 numerator denominator (Z.of_nat (length l))]
  /\ filter (fun r => key_eqb Z2_eq_dec (Sims.key r) (m1, m2))
            (computeCosineSimilarity data)
     = [Sims.mk D m1 m2
          (if d_neqb denominator d_lit0
           then d_div (d_of_long numerator) denominator
           else d_lit0)
          (Z.of_nat (length l))].
Proof.
  intros Hin l Hfit numerator denominator.
  destruct (sums_fit l Hfit) as [Hxy [Hxx Hyy]].
  unfold sum_products, sum_squares1, sum_squares2 in Hxy, Hxx, Hyy.
  split.
  - rewrite calculateSimilarity_rows, filter_map_swap.
    rewrite (filter_ext _ (fun k => key_eqb Z2_eq_dec k (m1, m2)))
      by (intros [a b]; reflexivity).
    rewrite filter_key_nodup by assumption.
    unfold emitted_aggregate, emitted_denominator. simpl. fold l.
    now rewrite Hxy, Hxx, Hyy.
  - rewrite computeCosineSimilarity_rows, filter_map_swap.
    rewrite (filter_ext _ (fun k => key_eqb Z2_eq_dec k (m1, m2)))
      by (intros k; now rewrite key_emitted_row).
    rewrite filter_key_nodup by assumption.
    unfold emitted_row, emitted_score, emitted_denominator. simpl. fold l.
    now rewrite Hxy, Hxx, Hyy.
Qed.

(** C4.  Every row [computeCosineSimilarity] emits has [numPairs >= 1],
    and a pair without any observation has no row at all. *)
Theorem numPairs_at_least_one {D : DoubleOps} (data : list Pairs.row) :
  Forall (fun r : Sims.row D => 1 <= Sims.numPairs r)
         (computeCosineSimilarity data)
  /\ (forall m1 m2 : Z,
        observations data m1 m2 = [] ->
        ~ In (m1, m2) (map Sims.key (computeCosineSimilarity (D := D) data))).
Proof.
  split.
  - apply Forall_forall. intros r Hr.
    apply in_computeCosineSimilarity in Hr. destruct Hr as [Hk ->].
    apply in_map_iff in Hk. destruct Hk as [o [Ho Hin]].
    apply observations_nonempty in Hin.
    unfold Pairs.key in Ho. rewrite <- Ho. simpl.
    destruct (observations data (Pairs.movie1 o) (Pairs.movie2 o));
      [contradiction|simpl length; lia].
  - intros m1 m2 Hnil Hin. apply in_map_iff in Hin.
    destruct Hin as [r [Hk Hr]].
    apply in_computeCosineSimilarity in Hr. destruct Hr as [Hkey _].
    rewrite Hk in Hkey. apply in_map_iff in Hkey.
    destruct Hkey as [o [Ho Hin]]. inversion Ho; subst.
    apply observations_nonempty in Hin. rewrite Hnil in Hin. contradiction.
Qed.

(** * Exact arithmetic: the comparisons *)

Lemma Rneqb_true (x y : R) : Rneqb x y = true <-> x <> y.
Proof. unfold Rneqb. destruct (Req_EM_T x y); split; congruence. Qed.

Lemma Rgtb_true (x y : R) : Rgtb x y = true <-> (y < x)%R.
Proof. unfold Rgtb. destruct (Rlt_dec y x); split; congruence. Qed.

Lemma Rgeb_true (x y : R) : Rgeb x y = true <-> (y <= x)%R.
Proof. unfold Rgeb. destruct (Rle_dec y x); split; congruence. Qed.

Lemma Rgeb_false (x y : R) : Rgeb x y = false <-> (x < y)%R.
Proof.
  unfold Rgeb. destruct (Rle_dec y x); split; intros; try lra; congruence.
Qed.

(** * The sums of one pair *)

Lemma sum_squares1_nonneg (l : list Pairs.row) : 0 <= sum_squares1 l.
Proof.
  unfold sum_squares1. induction l as [|o l IH]; simpl; [lia|].
  pose proof (Z.square_nonneg (Pairs.rating1 o)). lia.
Qed.

Lemma sum_squares2_nonneg (l : list Pairs.row) : 0 <= sum_squares2 l.
Proof.
  unfold sum_squares2. induction l as [|o l IH]; simpl; [lia|].
  pose proof (Z.square_nonneg (Pairs.rating2 o)). lia.
Qed.

Lemma sum_products_nonneg (l : list Pairs.row) :
  Forall (fun o => 0 <= Pairs.rating1 o /\ 0 <= Pairs.rating2 o) l ->
  0 <= sum_products l.
Proof.
  unfold sum_products. induction 1 as [|o l [H1 H2] _ IH]; simpl; [lia|].
  pose proof (Z.mul_nonneg_nonneg _ _ H1 H2). lia.
Qed.

(** The step of the induction below: adding one observation [(a, b)] keeps
    the Cauchy-Schwarz inequality. *)
Lemma cauchy_schwarz_step (a b P A B : Z) :
  0 <= A -> 0 <= B -> P * P <= A * B ->
  (a * b + P) * (a * b + P) <= (a * a + A) * (b * b + B).
Proof.
  intros HA HB HP.
  assert (Hcross : 2 * (a * b * P) <= a * a * B + b * b * A).
  { assert (Hr : 0 <= a * a * B + b * b * A).
    { pose proof (Z.square_nonneg a). pose proof (Z.square_nonneg b). nia. }
    assert (Hsq : (2 * (a * b * P)) * (2 * (a * b * P))
                  <= (a * a * B + b * b * A) * (a * a * B + b * b * A)).
    { assert (H1 : 4 * (a * a) * (b * b) * (P * P)
                   <= 4 * (a * a) * (b * b) * (A * B)).
      { apply Z.mul_le_mono_nonneg_l; [|assumption].
        pose proof (Z.square_nonneg a). pose proof (Z.square_nonneg b). nia. }
      pose proof (Z.square_nonneg (a * a * B - b * b * A)). nia. }
    nia. }
  nia.
Qed.

(** Cauchy-Schwarz on the two rating vectors of a pair. *)
Lemma cauchy_schwarz (l : list Pairs.row) :
  sum_products l * sum_products l <= sum_squares1 l * sum_squares2 l.
Proof.
  induction l as [|o l IH]; [simpl; lia|].
  pose proof (sum_squares1_nonneg l). pose proof (sum_squares2_nonneg l).
  unfold sum_products, sum_squares1, sum_squares2 in *. simpl.
  now apply cauchy_schwarz_step.
Qed.

(** When both ratings agree in every observation, the three sums agree. *)
Lemma sums_identical (l : list Pairs.row) :
  Forall (fun o => Pairs.rating1 o = Pairs.rating2 o) l ->
  sum_products l = sum_squares1 l /\ sum_squares2 l = sum_squares1 l.
Proof.
  unfold sum_products, sum_squares1, sum_squares2.
  induction 1 as [|o l Ho _ [IH1 IH2]]; simpl; [auto|].
  rewrite IH1, IH2, Ho. auto.
Qed.

Lemma sum_squares1_pos (l : list Pairs.row) :
  Exists (fun o => Pairs.rating1 o <> 0) l -> 0 < sum_squares1 l.
Proof.
  induction 1 as [o l Ho|o l _ IH].
  - pose proof (sum_squares1_nonneg l).
    unfold sum_squares1 in *. simpl. nia.
  - pose proof (Z.square_nonneg (Pairs.rating1 o)).
    unfold sum_squares1 in *. simpl. lia.
Qed.

(** * The exact score *)

Lemma norms_product_exact (l : list Pairs.row) :
  norms_product (D := Exact) l
  = sqrt (IZR (sum_squares1 l * sum_squares2 l)).
Proof.
  unfold norms_product. simpl. rewrite mult_IZR, sqrt_mult; [reflexivity| |];
    apply IZR_le; [apply sum_squares1_nonneg|apply sum_squares2_nonneg].
Qed.

Lemma cosine_exact_bounds (l : list Pairs.row) :
  Forall (fun o => 0 <= Pairs.rating1 o /\ 0 <= Pairs.rating2 o) l ->
  (0 <= cosine (D := Exact) l <= 1)%R.
Proof.
  intros Hl. unfold cosine. rewrite norms_product_exact.
  cbn [d_neqb d_lit0 d_div d_of_long Exact].
  set (den := sqrt (IZR (sum_squares1 l * sum_squares2 l))).
  destruct (Rneqb den 0) eqn:E; [|lra].
  apply Rneqb_true in E.
  assert (Hden : (0 < den)%R).
  { pose proof (sqrt_pos (IZR (sum_squares1 l * sum_squares2 l))) as Hs.
    fold den in Hs. lra. }
  assert (Hnum : (0 <= IZR (sum_products l))%R)
    by (apply IZR_le, sum_products_nonneg, Hl).
  assert (Hle : (IZR (sum_products l) <= den)%R).
  { rewrite <- (sqrt_square (IZR (sum_products l))) by assumption.
    apply sqrt_le_1_alt. rewrite <- mult_IZR. apply IZR_le, cauchy_schwarz. }
  split.
  - apply Rmult_le_pos; [assumption|]. left. now apply Rinv_0_lt_compat.
  - apply (Rmult_le_reg_r den); [assumption|].
    unfold Rdiv. rewrite Rmult_assoc, Rinv_l by lra. lra.
Qed.

Lemma cosine_exact_identical (l : list Pairs.row) :
  Forall (fun o => Pairs.rating1 o = Pairs.rating2 o) l ->
  Exists (fun o => Pairs.rating1 o <> 0) l ->
  cosine (D := Exact) l = 1%R.
Proof.
  intros Hid Hnz. unfold cosine. rewrite norms_product_exact.
  cbn [d_neqb d_lit0 d_div d_of_long Exact].
  destruct (sums_identical l Hid) as [-> ->].
  pose proof (sum_squares1_pos l Hnz) as Hpos.
  rewrite mult_IZR, sqrt_square by (apply IZR_le; lia).
  assert (HR : (0 < IZR (sum_squares1 l))%R) by (apply IZR_lt; lia).
  destruct (Rneqb (IZR (sum_squares1 l)) 0) eqn:E.
  - apply Rinv_r. lra.
  - assert (Ht : Rneqb (IZR (sum_squares1 l)) 0 = true)
      by (apply Rneqb_true; lra).
    congruence.
Qed.

Lemma sum_squares1_zero (l : list Pairs.row) :
  Forall (fun o => Pairs.rating1 o = 0) l -> sum_squares1 l = 0.
Proof.
  unfold sum_squares1. induction 1 as [|o l Ho _ IH]; simpl; [reflexivity|].
  rewrite IH, Ho. reflexivity.
Qed.

(** With a zero norm the guard sets the score to 0. *)
Lemma cosine_exact_zero (l : list Pairs.row) :
  Forall (fun o => Pairs.rating1 o = 0) l -> cosine (D := Exact) l = 0%R.
Proof.
  intros Hz. unfold cosine. rewrite norms_product_exact.
  cbn [d_neqb d_lit0 d_div d_of_long Exact].
  rewrite (sum_squares1_zero l Hz), Z.mul_0_l, sqrt_0.
  destruct (Rneqb 0 0) eqn:E; [|reflexivity].
  apply Rneqb_true in E. contradiction.
Qed.

#[export] Instance Exact_order : DoubleOrder Exact.
Proof.
  split; cbn [d_geb d_gtb Exact double].
  - intros x y H. apply Rgeb_false in H. apply Rgeb_true. lra.
  - intros x y z H1 H2. apply Rgeb_true in H1, H2. apply Rgeb_true. lra.
  - intros x y. unfold Rgtb, Rgeb.
    destruct (Rlt_dec y x), (Rle_dec x y); simpl; try reflexivity; lra.
Qed.

(** * The query: sorting and truncation *)

Section QueryFacts.
Context {D : DoubleOps} {O : DoubleOrder D}.

Lemma insert_desc_perm (x : Sims.row D) (l : list (Sims.row D)) :
  Permutation (insert_desc x l) (x :: l).
Proof.
  induction l as [|y l IH]; simpl; [reflexivity|].
  destruct (d_geb (Sims.score x) (Sims.score y)); [reflexivity|].
  rewrite IH. apply perm_swap.
Qed.

Lemma sort_desc_perm (l : list (Sims.row D)) : Permutation (sort_desc l) l.
Proof.
  induction l as [|x l IH]; simpl; [reflexivity|].
  rewrite insert_desc_perm. now constructor.
Qed.

Lemma insert_desc_sorted (x : Sims.row D) (l : list (Sims.row D)) :
  StronglySorted score_geq l -> StronglySorted score_geq (insert_desc x l).
Proof.
  induction 1 as [|y l Hs IH Hy]; simpl.
  - repeat constructor.
  - destruct (d_geb (Sims.score x) (Sims.score y)) eqn:E.
    + constructor; [now constructor|]. constructor; [assumption|].
      eapply Forall_impl; [|exact Hy]. intros z Hz.
      unfold score_geq in *. eapply d_geb_trans; eassumption.
    + constructor; [assumption|].
      eapply Permutation_Forall; [symmetry; apply insert_desc_perm|].
      constructor; [|assumption]. now apply d_geb_total.
Qed.

Lemma sort_desc_sorted (l : list (Sims.row D)) :
  StronglySorted score_geq (sort_desc l).
Proof.
  induction l as [|x l IH]; simpl; [constructor|].
  now apply insert_desc_sorted.
Qed.

Lemma in_firstn {A : Type} (n : nat) (l : list A) (x : A) :
  In x (firstn n l) -> In x l.
Proof.
  intros H. rewrite <- (firstn_skipn n l). apply in_or_app. now left.
Qed.

Lemma in_skipn {A : Type} (n : nat) (l : list A) (x : A) :
  In x (skipn n l) -> In x l.
Proof.
  intros H. rewrite <- (firstn_skipn n l). apply in_or_app. now right.
Qed.

Lemma sorted_firstn (n : nat) (l : list (Sims.row D)) :
  StronglySorted score_geq l -> StronglySorted score_geq (firstn n l).
Proof.
  intros Hs. revert n.
  induction Hs as [|y l Hs IH Hy]; intros [|n]; simpl; try constructor.
  - apply IH.
  - apply Forall_forall. intros z Hz. apply in_firstn in Hz.
    revert z Hz. now apply Forall_forall.
Qed.

(** In a sorted table every row kept by [take] stands before every row
    dropped. *)
Lemma sorted_firstn_skipn (n : nat) (l : list (Sims.row D)) :
  StronglySorted score_geq l ->
  forall a b, In a (firstn n l) -> In b (skipn n l) -> score_geq a b.
Proof.
  intros Hs. revert n.
  induction Hs as [|y l Hs IH Hy]; intros [|n] a b Ha Hb; simpl in *;
    try contradiction.
  destruct Ha as [<-|Ha].
  - apply in_skipn in Hb. revert b Hb. now apply Forall_forall.
  - now apply (IH n).
Qed.

Lemma in_filteredResults (sims : list (Sims.row D)) (movieID : Z)
    (st ct : double) (r : Sims.row D) :
  In r (filteredResults sims movieID st ct) <->
  In r sims
  /\ (Sims.movie1 r = movieID \/ Sims.movie2 r = movieID)
  /\ d_gtb (Sims.score r) st = true
  /\ d_gtb (d_of_long (Sims.numPairs r)) ct = true.
Proof.
  unfold filteredResults.
  rewrite filter_In, !andb_true_iff, orb_true_iff, !Z.eqb_eq. tauto.
Qed.
End QueryFacts.

(** C2.  For every target [movieID], thresholds and [topK], the query
    returns at most [topK] rows in descending order of score; each of them
    is a row of the similarity table with the target as [movie1] or
    [movie2], a score above [scoreThreshold] and a [numPairs] above
    [coOccurrenceThreshold]; and the rows of the table that satisfy these
    conditions but are not returned ([excluded]) are exactly the ones left
    after the [topK] best, none of them scoring above a returned row. *)
Theorem results_are_top_k {D : DoubleOps} {O : DoubleOrder D}
    (sims : list (Sims.row D)) (movieID : Z)
    (scoreThr pairsThr : double) (topK : nat) :
  let res := results sims movieID scoreThr pairsThr topK in
  let qualifies (r : Sims.row D) :=
    ((Sims.movie1 r =? movieID) || (Sims.movie2 r =? movieID))
    && d_gtb (Sims.score r) scoreThr
    && d_gtb (d_of_long (Sims.numPairs r)) pairsThr in
  StronglySorted
    (fun a b => d_geb (Sims.score a) (Sims.score b) = true) res
  /\ (length res <= topK)%nat
  /\ Forall (fun r =>
               In r sims
               /\ (Sims.movie1 r = movieID \/ Sims.movie2 r = movieID)
               /\ d_gtb (Sims.score r) scoreThr = true
               /\ d_gtb (d_of_long (Sims.numPairs r)) pairsThr = true) res
  /\ exists excluded : list (Sims.row D),
       Permutation (res ++ excluded) (filter qualifies sims)
       /\ length res = Nat.min topK (length (filter qualifies sims))
       /\ forall a b, In a res -> In b excluded ->
                      d_geb (Sims.score a) (Sims.score b) = true.
Proof.
  intros res qualifies. unfold results in res.
  fold (filteredResults sims movieID scoreThr pairsThr) in *.
  set (fr := filteredResults sims movieID scoreThr pairsThr) in *.
  pose proof (sort_desc_sorted fr) as Hsorted.
  pose proof (sort_desc_perm fr) as Hperm.
  split; [|split; [|split]].
  - now apply sorted_firstn.
  - apply firstn_le_length.
  - apply Forall_forall. intros r Hr. apply in_firstn in Hr.
    apply (Permutation_in _ Hperm) in Hr.
    now apply in_filteredResults in Hr.
  - exists (skipn topK (sort_desc fr)). split; [|split].
    + unfold res. now rewrite firstn_skipn.
    + unfold res. rewrite length_firstn.
      now rewrite (Permutation_length Hperm).
    + intros a b Ha Hb. now apply (sorted_firstn_skipn topK (sort_desc fr)).
Qed.

(** * The quality filter *)

Section FilterFacts.
Context {D : DoubleOps}.

Lemma Z_key_eqb (x y : Z) : key_eqb Z.eq_dec x y = (x =? y).
Proof.
  destruct (Z.eqb_spec x y) as [->|Hne].
  - apply key_eqb_refl.
  - now apply key_eqb_neq.
Qed.

(** [movieAverages] holds, for each distinct movie of the ratings, its
    mean rating. *)
Lemma movieAverages_rows (movies : list Movies.row) :
  movieAverages movies
  = map (fun id => Good.mk D id (arithmetic_mean (item_ratings movies id)))
        (nodup Z.eq_dec (map Movies.movieID movies)).
Proof.
  unfold movieAverages, groupBy. rewrite map_map. apply map_ext.
  intros id. simpl. unfold group_of.
  rewrite (filter_ext _ (fun m => Movies.movieID m =? id))
    by (intros m; apply Z_key_eqb).
  reflexivity.
Qed.

Lemma movieAverages_ids (movies : list Movies.row) :
  map Good.movieID (movieAverages movies)
  = nodup Z.eq_dec (map Movies.movieID movies).
Proof.
  rewrite movieAverages_rows, map_map. simpl. apply map_id.
Qed.

(** Filtering a table keeps its keys distinct. *)
Lemma filter_keeps_distinct_keys {A B : Type} (key : A -> B)
    (keep : A -> bool) (rows : list A) (Hkeys : NoDup (map key rows)) :
  NoDup (map key (filter keep rows)).
Proof.
  induction rows as [|a rows IH]; simpl in *; [constructor|].
  apply NoDup_cons_iff in Hkeys. destruct Hkeys as [Hnotin Hkeys].
  destruct (keep a); simpl; [|now apply IH].
  constructor; [|now apply IH].
  intros Hin. apply Hnotin. apply in_map_iff in Hin.
  destruct Hin as [x [Hx Hin]]. apply filter_In in Hin.
  apply in_map_iff. exists x. tauto.
Qed.

Lemma filterGoodMovies_NoDup (movies : list Movies.row) (t : double) :
  NoDup (map Good.movieID (filterGoodMovies movies t)).
Proof.
  unfold filterGoodMovies. apply filter_keeps_distinct_keys.
  rewrite movieAverages_ids. apply NoDup_nodup.
Qed.

Lemma in_filterGoodMovies (movies : list Movies.row) (t : double)
    (g : Good.row D) :
  In g (filterGoodMovies movies t) <->
  In (Good.movieID g) (map Movies.movieID movies)
  /\ Good.avgRating g
     = arithmetic_mean (item_ratings movies (Good.movieID g))
  /\ d_geb (Good.avgRating g) t = true.
Proof.
  unfold filterGoodMovies. rewrite filter_In, movieAverages_rows, in_map_iff.
  split.
  - intros [[id [<- Hid]] Hge]. simpl in *.
    apply nodup_In in Hid. auto.
  - intros [Hid [Havg Hge]]. split; [|assumption].
    exists (Good.movieID g). split; [|now apply nodup_In].
    destruct g as [id avg]. simpl in *. now subst.
Qed.

Lemma qualified_iff (movies : list Movies.row) (t : double) (id : Z) :
  In id (map Good.movieID (filterGoodMovies movies t)) <->
  In id (map Movies.movieID movies)
  /\ d_geb (arithmetic_mean (item_ratings movies id)) t = true.
Proof.
  rewrite in_map_iff. split.
  - intros [g [<- Hg]]. apply in_filterGoodMovies in Hg.
    destruct Hg as [Hid [Havg Hge]]. rewrite <- Havg. auto.
  - intros [Hid Hge].
    exists (Good.mk D id (arithmetic_mean (item_ratings movies id))).
    split; [reflexivity|]. apply in_filterGoodMovies. simpl. auto.
Qed.
End FilterFacts.

(** In exact arithmetic the mean is the quotient of the integer sum by the
    count. *)
Lemma arithmetic_mean_exact (l : list Z) :
  arithmetic_mean (D := Exact) l
  = (IZR (sum_long l) / IZR (Z.of_nat (length l)))%R.
Proof.
  unfold arithmetic_mean. cbn [d_div d_add d_of_long d_lit0 Exact].
  f_equal.
  assert (H : forall (acc : R), fold_left Rplus (map IZR l) acc
                                = (acc + IZR (sum_long l))%R).
  { induction l as [|z l IH]; intros acc; simpl.
    - lra.
    - rewrite IH, plus_IZR. lra. }
  rewrite H. lra.
Qed.

(** C5.  [filterGoodMovies] returns each movie at most once, and returns
    exactly the movies that have ratings and whose arithmetic mean over all
    their ratings is at least the threshold; it is a total function of its
    two arguments (it reads nothing else and has no failing case). *)
Theorem filterGoodMovies_mean_at_least_threshold
    {D : DoubleOps} (movies : list Movies.row) (threshold : double) :
  NoDup (map Good.movieID (filterGoodMovies movies threshold))
  /\ forall id : Z,
       In id (map Good.movieID (filterGoodMovies movies threshold)) <->
       In id (map Movies.movieID movies)
       /\ d_geb (arithmetic_mean (item_ratings movies id)) threshold = true.
Proof.
  split.
  - apply filterGoodMovies_NoDup.
  - intros id. apply qualified_iff.
Qed.

(** C9.  Raising the threshold never adds a movie: for [t1 <= t2], every
    movie that qualifies at [t2] qualifies at [t1]. *)
Theorem filterGoodMovies_antitone
    {D : DoubleOps} {O : DoubleOrder D}
    (movies : list Movies.row) (t1 t2 : double) :
  d_geb t2 t1 = true ->
  incl (map Good.movieID (filterGoodMovies movies t2))
       (map Good.movieID (filterGoodMovies movies t1)).
Proof.
  intros Hle id Hin. apply qualified_iff in Hin. apply qualified_iff.
  destruct Hin as [Hid Hge]. split; [assumption|].
  eapply d_geb_trans; eassumption.
Qed.

(** * The co-rating pairs *)

Section PairFacts.
Context {D : DoubleOps}.

Lemma NoDup_key_inj {A B : Type} (f : A -> B) (l : list A) (x y : A) :
  NoDup (map f l) -> In x l -> In y l -> f x = f y -> x = y.
Proof.
  induction l as [|a l IH]; simpl; intros Hnd Hx Hy Hf; [contradiction|].
  inversion Hnd as [|? ? Hnotin Hnd']; subst.
  destruct Hx as [->|Hx], Hy as [->|Hy]; auto.
  - exfalso. apply Hnotin. rewrite Hf. now apply in_map.
  - exfalso. apply Hnotin. rewrite <- Hf. now apply in_map.
Qed.




Lemma in_ratings_of (movies : list Movies.row)
    (goodMovies : list (Good.row D)) (r : Ratings.row) :
  In r (ratings_of movies goodMovies) <->
  exists m, In m movies /\ r = to_rating m
            /\ In (Movies.movieID m) (map Good.movieID goodMovies).
Proof.
  unfold ratings_of. rewrite in_map_iff. split.
  - intros [[m g] [<- Hin]]. apply in_join_on in Hin.
    destruct Hin as [Hm [Hg Hc]]. apply Z.eqb_eq in Hc.
    exists m. split; [assumption|]. split; [reflexivity|].
    rewrite Hc. now apply in_map.
  - intros [m [Hm [-> Hg]]]. apply in_map_iff in Hg.
    destruct Hg as [g [Hid Hg]]. exists (m, g). split; [reflexivity|].
    apply in_join_on. split; [assumption|]. split; [assumption|].
    apply Z.eqb_eq. now symmetry.
Qed.

Lemma length_filter_NoDup {A : Type} (f : A -> Z) (k : Z) (l : list A) :
  NoDup (map f l) ->
  (length (filter (fun x => (k =? f x)%Z) l) <= 1)%nat.
Proof.
  induction l as [|a l IH]; simpl; intros Hnd; [lia|].
  inversion Hnd as [|? ? Hnotin Hnd']; subst.
  destruct (Z.eqb_spec k (f a)) as [->|Hne]; simpl; [|now apply IH].
  assert (Hnil : filter (fun x => f a =? f x) l = []).
  { destruct (filter (fun x => f a =? f x) l) as [|x l'] eqn:E;
      [reflexivity|].
    exfalso. assert (Hx : In x (filter (fun x => f a =? f x) l))
      by (rewrite E; now left).
    apply filter_In in Hx. destruct Hx as [Hx Hfx].
    apply Z.eqb_eq in Hfx. apply Hnotin. rewrite Hfx. now apply in_map. }
  rewrite Hnil. simpl. lia.
Qed.

(** The join with [goodMovies] keeps a rating row at most once, so the
    (user, item) interactions stay distinct. *)
Lemma ratings_of_NoDup (movies : list Movies.row)
    (goodMovies : list (Good.row D)) :
  NoDup (map Good.movieID goodMovies) ->
  one_row_per_interaction movies ->
  NoDup (map rating_key (ratings_of movies goodMovies)).
Proof.
  intros Hg Hm. unfold one_row_per_interaction in Hm.
  induction movies as [|m movies IH]; [constructor|].
  inversion Hm as [|? ? Hnotin Hm']; subst.
  unfold ratings_of, join_on in *. simpl. rewrite !map_app.
  apply NoDup_app.
  - rewrite !map_map. simpl.
    pose proof (length_filter_NoDup Good.movieID (Movies.movieID m)
                  goodMovies Hg) as Hlen.
    destruct (filter (fun g => Movies.movieID m =? Good.movieID g)
                     goodMovies) as [|g [|g' l]]; simpl in *;
      try lia; repeat constructor. intros [].
  - now apply IH.
  - intros k Hk Hk'. apply Hnotin.
    rewrite !map_map in Hk. apply in_map_iff in Hk.
    destruct Hk as [g [<- _]]. simpl in *.
    apply in_map_iff in Hk'. destruct Hk' as [r [Hr Hin]].
    apply in_map_iff in Hin. destruct Hin as [[m' g'] [<- Hin]].
    apply in_flat_map in Hin. destruct Hin as [m'' [Hm'' Hin]].
    apply in_map_iff in Hin. destruct Hin as [g'' [Heq _]].
    inversion Heq; subst. simpl in Hr.
    apply in_map_iff. exists m'. split; [|assumption].
    unfold user_item, rating_key in *. simpl in Hr. exact Hr.
Qed.

Lemma in_pairJoin (ratings : list Ratings.row) (r1 r2 : Ratings.row) :
  In (r1, r2) (pairJoin ratings) <->
  In r1 ratings /\ In r2 ratings
  /\ Ratings.userID r2 = Ratings.userID r1
  /\ Ratings.movieID r1 < Ratings.movieID r2.
Proof.
  unfold pairJoin. rewrite in_join_on, andb_true_iff, Z.eqb_eq.
  rewrite Z.gtb_ltb, Z.ltb_lt. tauto.
Qed.

Lemma moviePairs_ordered (ratings : list Ratings.row) :
  Forall (fun p => Pairs.movie1 p < Pairs.movie2 p) (moviePairs ratings).
Proof.
  apply Forall_forall. intros p Hp. unfold moviePairs in Hp.
  apply in_map_iff in Hp. destruct Hp as [[r1 r2] [<- Hin]].
  apply in_pairJoin in Hin. simpl. tauto.
Qed.

Lemma filter_filter_and {A : Type} (p q : A -> bool) (l : list A) :
  filter p (filter q l) = filter (fun x => q x && p x) l.
Proof.
  induction l as [|x l IH]; simpl; [reflexivity|].
  destruct (q x); simpl; [destruct (p x)|]; now rewrite IH.
Qed.

Lemma filter_guard {A : Type} (c : bool) (p : A -> bool) (l : list A) :
  filter (fun x => c && p x) l = if c then filter p l else [].
Proof.
  destruct c; simpl; [reflexivity|]. now apply filter_nil.
Qed.



Lemma count_key_cons (u x : Z) (r : Ratings.row) (l : list Ratings.row) :
  count_key u x (r :: l)
  = if (Ratings.userID r =? u) && (Ratings.movieID r =? x)
    then S (count_key u x l) else count_key u x l.
Proof.
  unfold count_key. simpl.
  now destruct ((Ratings.userID r =? u) && (Ratings.movieID r =? x)).
Qed.



(** A qualified movie keeps all its rating rows in [ratings]. *)
Lemma count_key_ratings_of (movies : list Movies.row)
    (goodMovies : list (Good.row D)) (u x : Z) :
  NoDup (map Good.movieID goodMovies) ->
  In x (map Good.movieID goodMovies) ->
  count_key u x (ratings_of movies goodMovies) = rating_rows movies u x.
Proof.
  intros Hnd Hx. unfold count_key, rating_rows, ratings_of, join_on.
  induction movies as [|m movies IH]; simpl; [reflexivity|].
  rewrite map_app, filter_app, length_app, IH. clear IH.
  rewrite map_map. cbn [fst].
  pose proof (length_filter_NoDup Good.movieID (Movies.movieID m)
                goodMovies Hnd) as Hle.
  destruct (Z.eqb_spec (Movies.userID m) u) as [Eu|Eu],
           (Z.eqb_spec (Movies.movieID m) x) as [Ex|Ex]; simpl.
  - assert (Hone : exists g,
               filter (fun g => Movies.movieID m =? Good.movieID g) goodMovies
               = [g]).
    { apply in_map_iff in Hx. destruct Hx as [g [Hg Hin]].
      assert (Hf : In g (filter (fun g => Movies.movieID m =? Good.movieID g)
                                goodMovies)).
      { apply filter_In. split; [assumption|]. apply Z.eqb_eq. congruence. }
      destruct (filter (fun g => Movies.movieID m =? Good.movieID g)
                       goodMovies) as [|g1 [|g2 l]]; simpl in *;
        [contradiction| now exists g1 | lia]. }
    destruct Hone as [g ->]. simpl.
    rewrite (proj2 (Z.eqb_eq _ _) Eu), (proj2 (Z.eqb_eq _ _) Ex). reflexivity.
  - destruct (filter (fun g => Movies.movieID m =? Good.movieID g) goodMovies)
      as [|g1 [|g2 l]]; simpl in *; try lia.
    rewrite (proj2 (Z.eqb_neq _ _) Ex), andb_false_r. reflexivity.
  - destruct (filter (fun g => Movies.movieID m =? Good.movieID g) goodMovies)
      as [|g1 [|g2 l]]; simpl in *; try lia.
    rewrite (proj2 (Z.eqb_neq _ _) Eu). reflexivity.
  - destruct (filter (fun g => Movies.movieID m =? Good.movieID g) goodMovies)
      as [|g1 [|g2 l]]; simpl in *; try lia.
    rewrite (proj2 (Z.eqb_neq _ _) Eu). reflexivity.
Qed.
End PairFacts.


(** * The name lookup *)

(** C10.  [getMovieName] returns a title only when the catalog has a row
    with the requested [movieID], and then the title of such a row; when no
    row matches, the lookup raises [IndexError] and returns no title. *)
Theorem getMovieName_needs_catalog_row
    (movieNames : list Names.row) (movieId : Z) :
  (forall title : string,
      getMovieName movieNames movieId = Ok title ->
      exists e, In e movieNames /\ Names.movieID e = movieId
                /\ Names.movieTitle e = title)
  /\ ((exists e, In e movieNames /\ Names.movieID e = movieId) ->
      exists title, getMovieName movieNames movieId = Ok title)
  /\ ((forall e, In e movieNames -> Names.movieID e <> movieId) ->
      getMovieName movieNames movieId = Raise IndexError).
Proof.
  unfold getMovieName.
  destruct (filter (fun r => Names.movieID r =? movieId) movieNames)
    as [|e l] eqn:E; simpl.
  - split; [discriminate|]. split; [|reflexivity].
    intros [e [He Hid]]. exfalso.
    assert (Hin : In e (filter (fun r => Names.movieID r =? movieId)
                               movieNames)).
    { apply filter_In. split; [assumption|now apply Z.eqb_eq]. }
    rewrite E in Hin. contradiction.
  - assert (Hin : In e (filter (fun r => Names.movieID r =? movieId)
                               movieNames)) by (rewrite E; now left).
    apply filter_In in Hin. destruct Hin as [He Hid]. apply Z.eqb_eq in Hid.
    split; [|split].
    + intros title Ht. injection Ht as <-. exists e. auto.
    + intros _. now exists (Names.movieTitle e).
    + intros Hnone. exfalso. now apply (Hnone e).
Qed.

(** * The run of the script *)

Section ScriptFacts.
Context {D : DoubleOps}.

(** Both movies of a similarity row are movies of the ratings. *)
Lemma similarity_movies_rated (movies : list Movies.row)
    (r : Sims.row D) :
  In r (moviePairSimilarities movies) ->
  In (Sims.movie1 r) (map Movies.movieID movies)
  /\ In (Sims.movie2 r) (map Movies.movieID movies).
Proof.
  unfold moviePairSimilarities. intros Hr.
  apply in_computeCosineSimilarity in Hr. destruct Hr as [Hk _].
  apply in_map_iff in Hk. destruct Hk as [p [Hp Hin]].
  unfold moviePairs in Hin. apply in_map_iff in Hin.
  destruct Hin as [[r1 r2] [<- Hin]]. apply in_pairJoin in Hin.
  destruct Hin as [H1 [H2 _]].
  apply in_ratings_of in H1, H2.
  destruct H1 as [m1 [Hm1 [-> _]]]. destruct H2 as [m2 [Hm2 [-> _]]].
  unfold Pairs.key, Sims.key in Hp. simpl in Hp. injection Hp as <- <-.
  split; now apply in_map.
Qed.

(** The query on a movie without ratings has no result. *)
Lemma results_unrated (movies : list Movies.row) (movieID : Z)
    (st ct : double) (topK : nat) :
  ~ In movieID (map Movies.movieID movies) ->
  results (moviePairSimilarities movies) movieID st ct topK = [].
Proof.
  intros Hout. unfold results, filteredResults.
  rewrite filter_nil; [now destruct topK|].
  intros r Hr. apply similarity_movies_rated in Hr. destruct Hr as [H1 H2].
  destruct (Z.eqb_spec (Sims.movie1 r) movieID) as [E1|_];
    [now rewrite E1 in H1|].
  destruct (Z.eqb_spec (Sims.movie2 r) movieID) as [E2|_];
    [now rewrite E2 in H2|].
  reflexivity.
Qed.
End ScriptFacts.

(** C7, as amended.  When each rating is between 1 and 5, the exact value of
    every score, [sum(xy) / (sqrt(sum xx) * sqrt(sum yy))] over the reals,
    lies in [[0, 1]]. *)
Theorem exact_score_in_unit_interval (data : list Pairs.row) :
  Forall (fun o => 1 <= Pairs.rating1 o <= 5 /\ 1 <= Pairs.rating2 o <= 5)
         data ->
  Forall (fun r : Sims.row Exact => (0 <= Sims.score r <= 1)%R)
         (computeCosineSimilarity data).
Proof.
  intros Hrange. apply Forall_forall. intros r Hr.
  apply in_computeCosineSimilarity in Hr. destruct Hr as [_ ->].
  rewrite emitted_row_fits.
  - cbn [Sims.score similarity_row]. apply cosine_exact_bounds.
    apply Forall_forall. intros o Ho. apply in_observations in Ho.
    destruct Ho as [Ho _]. rewrite Forall_forall in Hrange.
    specialize (Hrange o Ho). lia.
  - apply observations_fit. revert Hrange. apply Forall_impl.
    intros o [H1 H2]. unfold products_fit. lia.
Qed.

(** When every observation of a pair carries the same rating for both
    movies, and the products fit, the exact value of the pair's score is 1
    if one of these ratings is not zero, and the score is 0 if they are all
    zero. *)
Lemma identical_ratings_exact_score
    (data : list Pairs.row) (r : Sims.row Exact) :
  In r (computeCosineSimilarity data) ->
  Forall products_fit (observations data (Sims.movie1 r) (Sims.movie2 r)) ->
  Forall (fun o => Pairs.rating1 o = Pairs.rating2 o)
         (observations data (Sims.movie1 r) (Sims.movie2 r)) ->
  (Exists (fun o => Pairs.rating1 o <> 0)
          (observations data (Sims.movie1 r) (Sims.movie2 r)) ->
   Sims.score r = 1%R)
  /\ (Forall (fun o => Pairs.rating1 o = 0)
             (observations data (Sims.movie1 r) (Sims.movie2 r)) ->
      Sims.score r = 0%R).
Proof.
  intros Hr Hfit Hid.
  apply in_computeCosineSimilarity in Hr. destruct Hr as [_ Hr].
  rewrite Hr, emitted_row_fits by exact Hfit.
  cbn [Sims.score similarity_row Sims.key fst snd]. split.
  - now apply cosine_exact_identical.
  - now apply cosine_exact_zero.
Qed.

(** * The order of binary64 values *)

Lemma spark_geb_spec (x y : PrimFloat.float) :
  spark_geb x y = sf_geb (FloatOps.Prim2SF x) (FloatOps.Prim2SF y).
Proof.
  unfold spark_geb, sf_geb, float_is_nan.
  now rewrite !FloatAxioms.eqb_spec, FloatAxioms.leb_spec, negb_involutive.
Qed.

(** One comparison of exponents or mantissas, dropping the cases it
    settles. *)
Ltac sf_step :=
  match goal with
  | |- context [Z.compare ?a ?b] => destruct (Z.compare_spec a b)
  | |- context [Pos.compare ?a ?b] => destruct (Pos.compare_spec a b)
  end;
  simpl; try solve [reflexivity | intros; discriminate].

(** Case analysis on the values compared, their signs, exponents and
    mantissas. *)
Ltac sf_cases :=
  unfold sf_geb, SpecFloat.SFeqb, SpecFloat.SFleb, SpecFloat.SFcompare;
  repeat match goal with
         | x : SpecFloat.spec_float |- _ => destruct x
         | s : bool |- _ => destruct s
         end;
  try solve [reflexivity | intros; discriminate];
  change (Pos.compare_cont Eq) with Pos.compare;
  repeat sf_step; intros; lia.

Lemma sf_geb_total (x y : SpecFloat.spec_float) :
  sf_geb x y = false -> sf_geb y x = true.
Proof. sf_cases. Qed.

Lemma sf_geb_trans (x y z : SpecFloat.spec_float) :
  sf_geb x y = true -> sf_geb y z = true -> sf_geb x z = true.
Proof. sf_cases. Qed.

#[export] Instance Binary64_order : DoubleOrder Binary64.
Proof.
  split; cbn [d_geb d_gtb Binary64 double].
  - intros x y. rewrite !spark_geb_spec. apply sf_geb_total.
  - intros x y z. rewrite !spark_geb_spec. apply sf_geb_trans.
  - reflexivity.
Qed.

(** * Rounding to binary64 *)

(** Facts on real numbers used for the bounds below. *)
Section RealBounds.
Local Open Scope R_scope.

Lemma square_le (a b : R) : 0 <= a <= b -> a * a <= b * b.
Proof. intros [Ha Hab]. apply Rmult_le_compat; lra. Qed.

(** The rounded root [A] of [m' * B^2], where [q] is the integer root of
    [m']. *)
Lemma root_bounds (u q m' B A : R) :
  0 < u < 1 -> 0 < q -> 0 < B ->
  q * q <= m' -> m' <= (q + 1) * (q + 1) ->
  q + 1 <= (1 + u) * q ->
  (1 - u) * (q * B) <= A <= (1 + u) * (q * B) ->
  (1 - u) * (1 - u) * (m' * (B * B)) <= (1 + u) * (1 + u) * (A * A)
  /\ A * A <= (1 + u) * (1 + u) * (m' * (B * B)).
Proof.
  intros Hu Hq HB Hlo Hhi Hsucc [HA1 HA2].
  assert (HQ : 0 < q * B) by now apply Rmult_lt_0_compat.
  assert (HBB : 0 < B * B) by now apply Rmult_lt_0_compat.
  assert (H1 : (1 - u) * (q * B) * ((1 - u) * (q * B)) <= A * A).
  { apply square_le. split; [|exact HA1].
    apply Rmult_le_pos; lra. }
  assert (H2 : A * A <= (1 + u) * (q * B) * ((1 + u) * (q * B))).
  { apply square_le. split; [|exact HA2].
    apply Rle_trans with ((1 - u) * (q * B)); [|exact HA1].
    apply Rmult_le_pos; lra. }
  assert (H3 : (q + 1) * (q + 1) <= (1 + u) * q * ((1 + u) * q)).
  { apply square_le. lra. }
  split.
  - apply Rle_trans
      with ((1 + u) * (1 + u) * ((1 - u) * (q * B) * ((1 - u) * (q * B)))).
    + replace ((1 + u) * (1 + u) * ((1 - u) * (q * B) * ((1 - u) * (q * B))))
        with ((1 - u) * (1 - u) * ((1 + u) * q * ((1 + u) * q) * (B * B)))
        by ring.
      apply Rmult_le_compat_l; [apply Rmult_le_pos; lra|].
      apply Rmult_le_compat_r; lra.
    + apply Rmult_le_compat_l; [apply Rmult_le_pos; lra|exact H1].
  - apply Rle_trans with ((1 + u) * (q * B) * ((1 + u) * (q * B)));
      [exact H2|].
    replace ((1 + u) * (q * B) * ((1 + u) * (q * B)))
      with ((1 + u) * (1 + u) * (q * q * (B * B))) by ring.
    apply Rmult_le_compat_l; [apply Rmult_le_pos; lra|].
    apply Rmult_le_compat_r; lra.
Qed.

(** The rounded quotient [S] of [m' * C] by [d * D], where [q] is the
    integer quotient of [m'] by [d] and [C = B * D]. *)
Lemma quotient_bounds (u q m' d B D S : R) :
  0 < u < 1 -> 0 < q -> 0 < d -> 0 < B -> 0 < D ->
  d * q <= m' -> m' <= d * (q + 1) ->
  q + 1 <= (1 + u) * q ->
  (1 - u) * (q * B) <= S <= (1 + u) * (q * B) ->
  (1 - u) * (m' * (B * D)) <= (1 + u) * (S * (d * D))
  /\ S * (d * D) <= (1 + u) * (m' * (B * D)).
Proof.
  intros Hu Hq Hd HB HD Hlo Hhi Hsucc [HS1 HS2].
  assert (HdD : 0 < d * D) by now apply Rmult_lt_0_compat.
  assert (HBD : 0 < B * D) by now apply Rmult_lt_0_compat.
  split.
  - apply Rle_trans with ((1 + u) * ((1 - u) * (q * B) * (d * D))).
    + replace ((1 + u) * ((1 - u) * (q * B) * (d * D)))
        with ((1 - u) * (d * ((1 + u) * q) * (B * D))) by ring.
      apply Rmult_le_compat_l; [lra|].
      apply Rmult_le_compat_r; [lra|].
      apply Rle_trans with (d * (q + 1)); [exact Hhi|].
      apply Rmult_le_compat_l; lra.
    + apply Rmult_le_compat_l; [lra|].
      apply Rmult_le_compat_r; lra.
  - apply Rle_trans with ((1 + u) * (q * B) * (d * D)).
    + apply Rmult_le_compat_r; lra.
    + replace ((1 + u) * (q * B) * (d * D))
        with ((1 + u) * (d * q * (B * D))) by ring.
      apply Rmult_le_compat_l; [lra|].
      apply Rmult_le_compat_r; lra.
Qed.

(** The quotient of [X] by the rounded square of its rounded root. *)
Lemma score_bounds (u X A2 M S : R) :
  0 < u -> u <= / 1000000000000 ->
  0 < X -> 0 < M ->
  (1 - u) * (1 - u) * X <= (1 + u) * (1 + u) * A2 ->
  A2 <= (1 + u) * (1 + u) * X ->
  (1 - u) * A2 <= M <= (1 + u) * A2 ->
  (1 - u) * X <= (1 + u) * (S * M) ->
  S * M <= (1 + u) * X ->
  Rabs (S - 1) <= 8 * u.
Proof.
  intros Hu0 Hu HX HM Ha1 Ha2 [Hm1 Hm2] Hs1 Hs2.
  assert (HA2 : 0 < A2) by nra.
  assert (HMX1 : (1 - 6 * u) * X <= M).
  { assert (H : (1 - 4 * u) * X <= A2) by nra. nra. }
  assert (HMX2 : M <= (1 + 4 * u) * X) by nra.
  assert (HS1 : (1 - 7 * u) * M <= S * M) by nra.
  assert (HS2 : S * M <= (1 + 8 * u) * M) by nra.
  assert (H1 : 1 - 7 * u <= S) by (apply Rmult_le_reg_r with M; lra).
  assert (H2 : S <= 1 + 8 * u) by (apply Rmult_le_reg_r with M; lra).
  apply Rabs_le. lra.
Qed.
End RealBounds.

(** The operations of binary64 as Rocq specifies them ([SpecFloat]), on
    doubles in the normal range: the result of a product, a square root or
    a quotient is within [eps52] of the exact result, relatively. *)
Section Rounding.
Import SpecFloat.

(** ** Rounding on integers *)

Lemma digits2_pos_bounds (p : positive) :
  2 ^ (Zpos (digits2_pos p) - 1) <= Zpos p < 2 ^ Zpos (digits2_pos p).
Proof.
  induction p as [p IH|p IH|]; cbn [digits2_pos].
  - rewrite Pos2Z.inj_succ.
    replace (Z.succ (Zpos (digits2_pos p)) - 1)
      with (Z.succ (Zpos (digits2_pos p) - 1)) by lia.
    rewrite !Z.pow_succ_r by lia. lia.
  - rewrite Pos2Z.inj_succ.
    replace (Z.succ (Zpos (digits2_pos p)) - 1)
      with (Z.succ (Zpos (digits2_pos p) - 1)) by lia.
    rewrite !Z.pow_succ_r by lia. lia.
  - simpl. lia.
Qed.

(** The number of binary digits of a positive integer, from bounds. *)
Lemma digits2_pos_unique (p : positive) (d : Z) :
  2 ^ (d - 1) <= Zpos p < 2 ^ d -> Zpos (digits2_pos p) = d.
Proof.
  intros [Hlo Hhi]. pose proof (digits2_pos_bounds p) as [Hlo' Hhi'].
  assert (Hd : 0 < d).
  { destruct (Z.lt_ge_cases 0 d) as [|Hd]; [assumption|].
    destruct (Z.eq_dec d 0) as [->|Hne].
    - simpl in Hhi. lia.
    - rewrite Z.pow_neg_r in Hhi by lia. lia. }
  destruct (Z.lt_trichotomy (Zpos (digits2_pos p)) d) as [Hlt|[Heq|Hgt]];
    [|assumption|].
  - assert (2 ^ Zpos (digits2_pos p) <= 2 ^ (d - 1))
      by (apply Z.pow_le_mono_r; lia). lia.
  - assert (2 ^ d <= 2 ^ (Zpos (digits2_pos p) - 1))
      by (apply Z.pow_le_mono_r; lia). lia.
Qed.

Lemma shr_1_m (mrs : shr_record) :
  0 <= shr_m mrs -> shr_m (shr_1 mrs) = shr_m mrs / 2.
Proof.
  destruct mrs as [m r s]. cbn [shr_m shr_1]. intros Hm.
  destruct m as [|[p|p|]|p]; cbn [shr_m].
  - reflexivity.
  - rewrite (Pos2Z.inj_xI p). apply Z.div_unique with 1; lia.
  - rewrite (Pos2Z.inj_xO p). apply Z.div_unique with 0; lia.
  - reflexivity.
  - lia.
Qed.

Lemma pow2_xO (p : positive) : 2 ^ Zpos p~0 = 2 ^ Zpos p * 2 ^ Zpos p.
Proof.
  rewrite (Pos2Z.inj_xO p).
  replace (2 * Zpos p) with (Zpos p + Zpos p) by lia.
  now rewrite Z.pow_add_r by lia.
Qed.

Lemma pow2_xI (p : positive) :
  2 ^ Zpos p~1 = 2 * (2 ^ Zpos p * 2 ^ Zpos p).
Proof.
  rewrite (Pos2Z.inj_xI p).
  replace (2 * Zpos p + 1) with (Z.succ (Zpos p + Zpos p)) by lia.
  now rewrite Z.pow_succ_r, Z.pow_add_r by lia.
Qed.

Lemma iter_shr_1_m (p : positive) :
  forall mrs : shr_record,
    0 <= shr_m mrs ->
    shr_m (iter_pos shr_1 p mrs) = shr_m mrs / 2 ^ Zpos p.
Proof.
  induction p as [p IH|p IH|]; intros mrs Hm; cbn [iter_pos].
  - assert (H1 : 0 <= shr_m (shr_1 mrs))
      by (rewrite shr_1_m by assumption; apply Z.div_pos; lia).
    assert (H2 : 0 <= shr_m (iter_pos shr_1 p (shr_1 mrs)))
      by (rewrite IH by assumption; apply Z.div_pos; lia).
    rewrite IH, IH, shr_1_m by assumption.
    rewrite !Z.div_div by lia. now rewrite pow2_xI.
  - assert (H2 : 0 <= shr_m (iter_pos shr_1 p mrs))
      by (rewrite IH by assumption; apply Z.div_pos; lia).
    rewrite IH, IH by assumption.
    rewrite Z.div_div by lia. now rewrite pow2_xO.
  - rewrite shr_1_m by assumption. reflexivity.
Qed.

Lemma shr_record_of_loc_m (m : Z) (l : location) :
  shr_m (shr_record_of_loc m l) = m.
Proof. destruct l as [|[]]; reflexivity. Qed.

(** [shr] divides the mantissa by [2 ^ n]. *)
Lemma shr_m_e (mrs : shr_record) (e n : Z) :
  0 <= shr_m mrs -> 0 <= n ->
  shr_m (fst (shr mrs e n)) = shr_m mrs / 2 ^ n /\ snd (shr mrs e n) = e + n.
Proof.
  intros Hm Hn. unfold shr. destruct n as [|p|p]; cbn [fst snd]; try lia.
  - rewrite Z.div_1_r. lia.
  - split; [|reflexivity]. now apply iter_shr_1_m.
Qed.

Lemma round_nearest_even_cases (m : Z) (l : location) :
  round_nearest_even m l = m \/ round_nearest_even m l = m + 1.
Proof.
  unfold round_nearest_even. destruct l as [|[]]; auto.
  destruct (Z.even m); auto.
Qed.

Lemma fexp_normal (k : Z) : -1021 <= k -> fexp 53 1024 k = k - 53.
Proof. intros Hk. unfold fexp, emin. lia. Qed.

Lemma Zdigits2_pos (m : Z) (d : Z) :
  0 < m -> 2 ^ (d - 1) <= m < 2 ^ d -> Zdigits2 m = d.
Proof.
  intros Hm Hd. destruct m as [|p|p]; try lia.
  cbn [Zdigits2]. now apply digits2_pos_unique.
Qed.

Lemma Zdigits2_bounds (m : Z) :
  0 < m -> 2 ^ (Zdigits2 m - 1) <= m < 2 ^ Zdigits2 m.
Proof.
  intros Hm. destruct m as [|p|p]; try lia.
  cbn [Zdigits2]. apply digits2_pos_bounds.
Qed.

(** Dividing by [2 ^ (d - 53)] keeps the 53 leading digits. *)
Lemma leading_digits (mx d : Z) :
  53 <= d -> 2 ^ (d - 1) <= mx < 2 ^ d ->
  2 ^ 52 <= mx / 2 ^ (d - 53) < 2 ^ 53.
Proof.
  intros Hd [Hlo Hhi].
  assert (Hp : 0 < 2 ^ (d - 53)) by (apply Z.pow_pos_nonneg; lia).
  assert (E1 : 2 ^ (d - 1) = 2 ^ 52 * 2 ^ (d - 53)).
  { rewrite <- Z.pow_add_r by lia. f_equal. lia. }
  assert (E2 : 2 ^ d = 2 ^ 53 * 2 ^ (d - 53)).
  { rewrite <- Z.pow_add_r by lia. f_equal. lia. }
  split.
  - apply Z.div_le_lower_bound; lia.
  - apply Z.div_lt_upper_bound; lia.
Qed.

Lemma binary_round_aux_normal (mx ex : Z) (lx : location) :
  0 < mx ->
  53 <= Zdigits2 mx ->
  -1021 <= Zdigits2 mx + ex <= 1023 ->
  exists (m : positive) (e : Z) (m1 : Z),
    binary_round_aux 53 1024 false mx ex lx = S754_finite false m e
    /\ 2 ^ 52 <= Zpos m < 2 ^ 53
    /\ (m1 = mx / 2 ^ (Zdigits2 mx - 53)
        \/ m1 = mx / 2 ^ (Zdigits2 mx - 53) + 1)
    /\ ((e = Zdigits2 mx + ex - 53 /\ Zpos m = m1)
        \/ (e = Zdigits2 mx + ex - 52 /\ 2 * Zpos m = m1)).
Proof.
  intros Hmx Hd Hrange.
  pose proof (Zdigits2_bounds mx Hmx) as Hb.
  set (d := Zdigits2 mx) in *.
  pose proof (leading_digits mx d Hd Hb) as Ht.
  set (t := mx / 2 ^ (d - 53)) in *.
  unfold binary_round_aux, shr_fexp. fold d.
  rewrite fexp_normal by lia.
  replace (d + ex - 53 - ex) with (d - 53) by lia.
  destruct (shr_m_e (shr_record_of_loc mx lx) ex (d - 53)) as [Hm1 He1].
  { rewrite shr_record_of_loc_m. lia. }
  { lia. }
  rewrite shr_record_of_loc_m in Hm1. fold t in Hm1.
  destruct (shr (shr_record_of_loc mx lx) ex (d - 53)) as [mrs' e'].
  cbn [fst snd] in Hm1, He1. subst e'. rewrite Hm1.
  set (m1 := round_nearest_even t (loc_of_shr_record mrs')).
  assert (Hcases : m1 = t \/ m1 = t + 1)
    by apply round_nearest_even_cases.
  destruct (Z.lt_ge_cases m1 (2 ^ 53)) as [Hlt|Hge].
  - (* no renormalisation *)
    assert (Hdig : Zdigits2 m1 = 53) by (apply Zdigits2_pos; lia).
    rewrite Hdig, fexp_normal by lia.
    replace (53 + (ex + (d - 53)) - 53 - (ex + (d - 53))) with 0 by lia.
    cbn [shr shr_record_of_loc shr_m].
    destruct m1 as [|p|p] eqn:Em1; try lia.
    destruct (Z.leb_spec (ex + (d - 53)) (1024 - 53)) as [_|Hbad]; [|lia].
    exists p, (ex + (d - 53)), (Zpos p).
    split; [reflexivity|]. split; [lia|]. split; [exact Hcases|].
    left. lia.
  - (* the mantissa was rounded up to 2^53 *)
    assert (Em1 : m1 = 2 ^ 53) by lia.
    assert (Hdig : Zdigits2 m1 = 54)
      by (apply Zdigits2_pos; rewrite Em1; simpl; lia).
    rewrite Hdig, fexp_normal by lia.
    replace (54 + (ex + (d - 53)) - 53 - (ex + (d - 53))) with 1 by lia.
    rewrite Em1. cbn.
    destruct (Z.leb_spec (ex + (d - 53) + 1) 971) as [_|Hbad]; [|lia].
    exists 4503599627370496%positive, (ex + (d - 53) + 1), m1.
    split; [reflexivity|]. split; [simpl; lia|]. split; [exact Hcases|].
    right. rewrite Em1. simpl. lia.
Qed.

Lemma bpow_pos (e : Z) : (0 < bpow e)%R.
Proof. apply powerRZ_lt. lra. Qed.

Lemma bpow_add (a b : Z) : bpow (a + b) = (bpow a * bpow b)%R.
Proof. apply powerRZ_add. lra. Qed.

Lemma bpow_IZR (n : Z) : 0 <= n -> bpow n = IZR (2 ^ n).
Proof.
  intros Hn. unfold bpow.
  rewrite <- (Z2Nat.id n Hn) at 2. rewrite <- pow_IZR.
  rewrite <- (Z2Nat.id n Hn) at 1. now rewrite <- pow_powerRZ.
Qed.

Lemma bpow_1 : bpow 1 = 2%R.
Proof. unfold bpow. simpl. lra. Qed.

(** [binary_round_aux] on a mantissa of at least 53 digits, in the normal
    range: the result is within [eps52] of the value rounded, relatively,
    whatever the location says. *)
Lemma binary_round_aux_value (mx ex : Z) (lx : location) :
  0 < mx ->
  53 <= Zdigits2 mx ->
  -1021 <= Zdigits2 mx + ex <= 1023 ->
  exists (m : positive) (e : Z),
    binary_round_aux 53 1024 false mx ex lx = S754_finite false m e
    /\ 2 ^ 52 <= Zpos m < 2 ^ 53
    /\ Zdigits2 mx + ex - 53 <= e <= Zdigits2 mx + ex - 52
    /\ ((1 - eps52) * (IZR mx * bpow ex) <= IZR (Zpos m) * bpow e
        <= (1 + eps52) * (IZR mx * bpow ex))%R.
Proof.
  intros Hmx Hd Hrange.
  destruct (binary_round_aux_normal mx ex lx Hmx Hd Hrange)
    as [m [e [m1 [Hbra [Hm [Hm1 He]]]]]].
  exists m, e. split; [exact Hbra|]. split; [exact Hm|].
  split; [lia|].
  pose proof (Zdigits2_bounds mx Hmx) as Hb.
  set (d := Zdigits2 mx) in *.
  set (P := 2 ^ (d - 53)) in *.
  assert (HP : 0 < P) by (apply Z.pow_pos_nonneg; lia).
  assert (Hlow : 2 ^ 52 * P <= mx).
  { unfold P. rewrite <- Z.pow_add_r by lia.
    replace (52 + (d - 53)) with (d - 1) by lia. lia. }
  pose proof (Z.div_mod mx P ltac:(lia)) as Hdm.
  pose proof (Z.mod_pos_bound mx P HP) as Hmod.
  (* the value of the result is m1 * 2^(d + ex - 53) *)
  assert (Hval : (IZR (Zpos m) * bpow e
                  = IZR m1 * (IZR P * bpow ex))%R).
  { unfold P. rewrite <- bpow_IZR by lia. rewrite <- bpow_add.
    destruct He as [[-> ->]|[-> H2]].
    - f_equal. f_equal. lia.
    - rewrite <- H2, mult_IZR.
      replace (d + ex - 52) with (1 + (d - 53 + ex)) by lia.
      rewrite bpow_add, bpow_1. lra. }
  rewrite Hval.
  assert (Hex : (0 < bpow ex)%R) by apply bpow_pos.
  assert (Hbounds : ((1 - eps52) * IZR mx <= IZR m1 * IZR P
                     <= (1 + eps52) * IZR mx)%R).
  { assert (H52 : (IZR (2 ^ 52 * P) <= IZR mx)%R) by now apply IZR_le.
    rewrite mult_IZR in H52. change (IZR (2 ^ 52)) with 4503599627370496%R
      in H52.
    assert (HPR : (0 < IZR P)%R) by now apply IZR_lt.
    unfold eps52.
    assert (Hq : (IZR (mx / P) * IZR P <= IZR mx
                  /\ IZR mx < (IZR (mx / P) + 1) * IZR P)%R).
    { rewrite <- !mult_IZR, <- plus_IZR, <- mult_IZR.
      split; [apply IZR_le|apply IZR_lt]; nia. }
    destruct Hm1 as [->| ->]; [|rewrite plus_IZR]; lra. }
  destruct Hbounds as [H1 H2]. split.
  - replace ((1 - eps52) * (IZR mx * bpow ex))%R
      with ((1 - eps52) * IZR mx * bpow ex)%R by ring.
    replace (IZR m1 * (IZR P * bpow ex))%R
      with (IZR m1 * IZR P * bpow ex)%R by ring.
    apply Rmult_le_compat_r; lra.
  - replace ((1 + eps52) * (IZR mx * bpow ex))%R
      with ((1 + eps52) * IZR mx * bpow ex)%R by ring.
    replace (IZR m1 * (IZR P * bpow ex))%R
      with (IZR m1 * IZR P * bpow ex)%R by ring.
    apply Rmult_le_compat_r; lra.
Qed.

Lemma Zdigits2_lower (m k : Z) : 0 < m -> 2 ^ k <= m -> k + 1 <= Zdigits2 m.
Proof.
  intros Hm Hk. pose proof (Zdigits2_bounds m Hm) as [_ Hhi].
  destruct (Z.lt_ge_cases (Zdigits2 m) (k + 1)) as [Hlt|]; [|assumption].
  assert (2 ^ Zdigits2 m <= 2 ^ k) by (apply Z.pow_le_mono_r; lia). lia.
Qed.

Lemma Zdigits2_upper (m k : Z) : 0 < m -> m < 2 ^ k -> Zdigits2 m <= k.
Proof.
  intros Hm Hk. pose proof (Zdigits2_bounds m Hm) as [Hlo _].
  destruct (Z.lt_ge_cases k (Zdigits2 m)) as [Hlt|]; [|lia].
  assert (2 ^ k <= 2 ^ (Zdigits2 m - 1)) by (apply Z.pow_le_mono_r; lia).
  lia.
Qed.

Lemma eps52_pos : (0 < eps52 < 1)%R.
Proof. unfold eps52. lra. Qed.

(** One more than an integer of 53 digits or more is within [eps52] of it. *)
Lemma succ_within (q : Z) :
  2 ^ 52 <= q -> (IZR q + 1 <= (1 + eps52) * IZR q)%R.
Proof.
  intros Hq. apply IZR_le in Hq.
  change (IZR (2 ^ 52)) with 4503599627370496%R in Hq.
  unfold eps52. lra.
Qed.

(** ** The product of two doubles *)

Lemma SFmul_value (ma mb : positive) (ea eb : Z) :
  2 ^ 52 <= Zpos ma < 2 ^ 53 ->
  2 ^ 52 <= Zpos mb < 2 ^ 53 ->
  -1000 <= ea + eb <= 900 ->
  exists (m : positive) (e : Z),
    SFmul 53 1024 (S754_finite false ma ea) (S754_finite false mb eb)
    = S754_finite false m e
    /\ 2 ^ 52 <= Zpos m < 2 ^ 53
    /\ ea + eb + 52 <= e <= ea + eb + 54
    /\ ((1 - eps52) * ((IZR (Zpos ma) * bpow ea) * (IZR (Zpos mb) * bpow eb))
        <= IZR (Zpos m) * bpow e
        <= (1 + eps52)
           * ((IZR (Zpos ma) * bpow ea) * (IZR (Zpos mb) * bpow eb)))%R.
Proof.
  intros Ha Hb He. cbn [SFmul xorb].
  assert (Hprod : 2 ^ 104 <= Zpos (ma * mb) < 2 ^ 106).
  { rewrite Pos2Z.inj_mul.
    change (2 ^ 104) with (2 ^ 52 * 2 ^ 52).
    change (2 ^ 106) with (2 ^ 53 * 2 ^ 53). nia. }
  assert (Hd1 : 105 <= Zdigits2 (Zpos (ma * mb)))
    by (apply (Zdigits2_lower _ 104); lia).
  assert (Hd2 : Zdigits2 (Zpos (ma * mb)) <= 106)
    by (apply Zdigits2_upper; lia).
  destruct (binary_round_aux_value (Zpos (ma * mb)) (ea + eb) loc_Exact)
    as [m [e [Hbra [Hm [Hexp Hval]]]]]; try lia.
  exists m, e. split; [exact Hbra|]. split; [exact Hm|]. split; [lia|].
  rewrite Pos2Z.inj_mul, mult_IZR, bpow_add in Hval.
  replace ((IZR (Zpos ma) * bpow ea) * (IZR (Zpos mb) * bpow eb))%R
    with (IZR (Zpos ma) * IZR (Zpos mb) * (bpow ea * bpow eb))%R by ring.
  exact Hval.
Qed.

(** ** The square root of a double *)

Lemma SFsqrt_value (mx : positive) (ex : Z) :
  2 ^ 52 <= Zpos mx < 2 ^ 53 ->
  -1000 <= ex <= 900 ->
  exists (m : positive) (e : Z),
    SFsqrt 53 1024 (S754_finite false mx ex) = S754_finite false m e
    /\ 2 ^ 52 <= Zpos m < 2 ^ 53
    /\ ex / 2 - 26 <= e <= ex / 2 - 25
    /\ ((1 - eps52) * (1 - eps52) * (IZR (Zpos mx) * bpow ex)
        <= (1 + eps52) * (1 + eps52)
           * ((IZR (Zpos m) * bpow e) * (IZR (Zpos m) * bpow e))
        /\ (IZR (Zpos m) * bpow e) * (IZR (Zpos m) * bpow e)
           <= (1 + eps52) * (1 + eps52) * (IZR (Zpos mx) * bpow ex))%R.
Proof.
  intros Hx He. cbn [SFsqrt]. unfold SFsqrt_core_binary.
  assert (Hdx : Zdigits2 (Zpos mx) = 53) by (apply Zdigits2_pos; lia).
  rewrite Hdx, !Z.div2_div.
  replace ((53 + ex + 1) / 2) with (ex / 2 + 27)
    by (replace (53 + ex + 1) with (ex + 27 * 2) by lia;
        now rewrite Z.div_add by lia).
  rewrite fexp_normal by (Z.div_mod_to_equations; lia).
  change IntDef.Z.min with Z.min. rewrite Z.min_l by lia.
  change IntDef.Z.sqrtrem with Z.sqrtrem.
  change IntDef.Z.shiftl with Z.shiftl.
  set (e' := ex / 2 + 27 - 53).
  set (s := ex - 2 * e').
  assert (Hs : s = 52 \/ s = 53).
  { unfold s, e'. pose proof (Z.div_mod ex 2 ltac:(lia)).
    pose proof (Z.mod_pos_bound ex 2 ltac:(lia)). lia. }
  set (m' := Zpos mx * 2 ^ s).
  assert (Hm' : match s with
                | Zpos _ => Z.shiftl (Zpos mx) s
                | Z0 => Zpos mx
                | Zneg _ => 0
                end = m').
  { unfold m'. destruct Hs as [-> | ->];
      now rewrite Z.shiftl_mul_pow2 by lia. }
  rewrite Hm'.
  assert (Hrange : 2 ^ 104 <= m' < 2 ^ 106).
  { unfold m'. destruct Hs as [-> | ->].
    - change (2 ^ 104) with (2 ^ 52 * 2 ^ 52).
      change (2 ^ 106) with (2 ^ 54 * 2 ^ 52). nia.
    - change (2 ^ 104) with (2 ^ 51 * 2 ^ 53).
      change (2 ^ 106) with (2 ^ 53 * 2 ^ 53). nia. }
  pose proof (Z.sqrtrem_spec m' ltac:(lia)) as Hsq.
  destruct (Z.sqrtrem m') as [q r]. destruct Hsq as [Hq Hr].
  assert (Hqr : 2 ^ 52 <= q < 2 ^ 53).
  { change (2 ^ 104) with (2 ^ 52 * 2 ^ 52) in Hrange.
    change (2 ^ 106) with (2 ^ 53 * 2 ^ 53) in Hrange.
    split; nia. }
  assert (Hdq : Zdigits2 q = 53) by (apply Zdigits2_pos; lia).
  destruct (binary_round_aux_value q e'
              (if r =? 0 then loc_Exact
               else loc_Inexact (if r <=? q then Lt else Gt)))
    as [m [e [Hbra [Hm [Hexp Hval]]]]];
    try (unfold e'; Z.div_mod_to_equations; lia).
  exists m, e. split; [exact Hbra|]. split; [exact Hm|].
  split; [unfold e' in Hexp; lia|].
  (* the reals *)
  assert (HX : (IZR (Zpos mx) * bpow ex
                = IZR m' * (bpow e' * bpow e'))%R).
  { unfold m'. rewrite mult_IZR, <- bpow_IZR by lia.
    rewrite <- !bpow_add.
    replace (IZR (Zpos mx) * bpow s * bpow (e' + e'))%R
      with (IZR (Zpos mx) * (bpow s * bpow (e' + e')))%R by ring.
    rewrite <- bpow_add. do 2 f_equal. unfold s. lia. }
  rewrite HX.
  apply (root_bounds eps52 (IZR q) (IZR m') (bpow e')).
  - apply eps52_pos.
  - apply IZR_lt. lia.
  - apply bpow_pos.
  - rewrite <- mult_IZR. apply IZR_le. lia.
  - rewrite <- plus_IZR, <- mult_IZR. apply IZR_le. lia.
  - apply succ_within. lia.
  - exact Hval.
Qed.

(** ** The quotient of two doubles *)

Lemma SFdiv_value (mx my : positive) (ex ey : Z) :
  2 ^ 52 <= Zpos mx < 2 ^ 53 ->
  2 ^ 52 <= Zpos my < 2 ^ 53 ->
  -900 <= ex - ey <= 900 ->
  exists (m : positive) (e : Z),
    SFdiv 53 1024 (S754_finite false mx ex) (S754_finite false my ey)
    = S754_finite false m e
    /\ 2 ^ 52 <= Zpos m < 2 ^ 53
    /\ ((1 - eps52) * (IZR (Zpos mx) * bpow ex)
        <= (1 + eps52)
           * ((IZR (Zpos m) * bpow e) * (IZR (Zpos my) * bpow ey))
        /\ (IZR (Zpos m) * bpow e) * (IZR (Zpos my) * bpow ey)
           <= (1 + eps52) * (IZR (Zpos mx) * bpow ex))%R.
Proof.
  intros Hx Hy He. cbn [SFdiv xorb]. unfold SFdiv_core_binary.
  assert (Hdx : Zdigits2 (Zpos mx) = 53) by (apply Zdigits2_pos; lia).
  assert (Hdy : Zdigits2 (Zpos my) = 53) by (apply Zdigits2_pos; lia).
  rewrite Hdx, Hdy.
  replace (53 + ex - (53 + ey)) with (ex - ey) by lia.
  rewrite fexp_normal by lia.
  change IntDef.Z.min with Z.min. rewrite Z.min_l by lia.
  replace (ex - ey - (ex - ey - 53)) with 53 by lia.
  cbv iota. change IntDef.Z.shiftl with Z.shiftl.
  change IntDef.Z.div_eucl with Z.div_eucl.
  rewrite Z.shiftl_mul_pow2 by lia.
  set (m' := Zpos mx * 2 ^ 53).
  set (e' := ex - ey - 53).
  pose proof (Z_div_mod m' (Zpos my) ltac:(lia)) as Hdiv.
  destruct (Z.div_eucl m' (Zpos my)) as [q r]. destruct Hdiv as [Hq Hr].
  assert (Hm' : 2 ^ 105 <= m' < 2 ^ 106).
  { unfold m'. change (2 ^ 105) with (2 ^ 52 * 2 ^ 53).
    change (2 ^ 106) with (2 ^ 53 * 2 ^ 53). lia. }
  assert (Hqr : 2 ^ 52 <= q < 2 ^ 54).
  { change (2 ^ 105) with (2 ^ 52 * 2 ^ 53) in Hm'.
    change (2 ^ 106) with (2 ^ 54 * 2 ^ 52) in Hm'.
    split; nia. }
  assert (Hd1 : 53 <= Zdigits2 q) by (apply (Zdigits2_lower _ 52); lia).
  assert (Hd2 : Zdigits2 q <= 54) by (apply Zdigits2_upper; lia).
  destruct (binary_round_aux_value q e' (new_location (Zpos my) r))
    as [m [e [Hbra [Hm [Hexp Hval]]]]]; try (unfold e'; lia).
  exists m, e. split; [exact Hbra|]. split; [exact Hm|].
  assert (HX : (IZR (Zpos mx) * bpow ex
                = IZR m' * (bpow e' * bpow ey))%R).
  { unfold m'. rewrite mult_IZR, <- bpow_IZR by lia.
    rewrite <- bpow_add.
    replace (IZR (Zpos mx) * bpow 53 * bpow (e' + ey))%R
      with (IZR (Zpos mx) * (bpow 53 * bpow (e' + ey)))%R by ring.
    rewrite <- bpow_add. do 2 f_equal. unfold e'. lia. }
  rewrite HX.
  apply (quotient_bounds eps52 (IZR q) (IZR m') (IZR (Zpos my)) (bpow e')
           (bpow ey)).
  - apply eps52_pos.
  - apply IZR_lt. lia.
  - apply IZR_lt. lia.
  - apply bpow_pos.
  - apply bpow_pos.
  - rewrite <- mult_IZR. apply IZR_le. lia.
  - rewrite <- plus_IZR, <- mult_IZR. apply IZR_le. nia.
  - apply succ_within. lia.
  - exact Hval.
Qed.

(** ** The conversion of a positive long *)

Lemma iter_xO_value (k p : positive) :
  Zpos (Pos.iter xO p k) = Zpos p * 2 ^ Zpos k.
Proof.
  induction k as [|k IH] using Pos.peano_ind.
  - simpl. lia.
  - rewrite Pos.iter_succ, Pos2Z.inj_succ, Z.pow_succ_r by lia.
    rewrite (Pos2Z.inj_xO (Pos.iter xO p k)), IH. lia.
Qed.

Lemma binary_round_long (p : positive) :
  Zpos p < 2 ^ 63 ->
  exists (m : positive) (e : Z),
    binary_round 53 1024 false p 0 = S754_finite false m e
    /\ 2 ^ 52 <= Zpos m < 2 ^ 53
    /\ -52 <= e <= 11.
Proof.
  intros Hp. unfold binary_round, shl_align.
  pose proof (digits2_pos_bounds p) as Hb.
  set (d := Zpos (digits2_pos p)) in *.
  assert (Hd1 : 1 <= d) by (unfold d; lia).
  assert (Hd2 : d <= 63).
  { destruct (Z.lt_ge_cases 63 d) as [Hlt|]; [|lia].
    assert (2 ^ 63 <= 2 ^ (d - 1)) by (apply Z.pow_le_mono_r; lia). lia. }
  rewrite Z.add_0_r, fexp_normal by lia.
  destruct (d - 53 - 0) as [|k|k] eqn:Ek.
  - destruct (binary_round_aux_value (Zpos p) 0 loc_Exact)
      as [m [e [Hbra [Hm [He _]]]]]; cbn [Zdigits2]; fold d; try lia.
    exists m, e. cbn [Zdigits2] in He. fold d in He.
    split; [exact Hbra|]. split; [exact Hm|]. lia.
  - destruct (binary_round_aux_value (Zpos p) 0 loc_Exact)
      as [m [e [Hbra [Hm [He _]]]]]; cbn [Zdigits2]; fold d; try lia.
    exists m, e. cbn [Zdigits2] in He. fold d in He.
    split; [exact Hbra|]. split; [exact Hm|]. lia.
  - assert (Hk : Zpos k = 53 - d) by lia.
    assert (Hmz : 2 ^ 52 <= Zpos (Pos.iter xO p k) < 2 ^ 53).
    { rewrite iter_xO_value, Hk.
      assert (E1 : 2 ^ 52 = 2 ^ (d - 1) * 2 ^ (53 - d)).
      { rewrite <- Z.pow_add_r by lia. f_equal. lia. }
      assert (E2 : 2 ^ 53 = 2 ^ d * 2 ^ (53 - d)).
      { rewrite <- Z.pow_add_r by lia. f_equal. lia. }
      assert (0 < 2 ^ (53 - d)) by (apply Z.pow_pos_nonneg; lia).
      rewrite E1 at 1. rewrite E2. nia. }
    assert (Hdz : Zdigits2 (Zpos (Pos.iter xO p k)) = 53)
      by (apply Zdigits2_pos; lia).
    destruct (binary_round_aux_value (Zpos (Pos.iter xO p k)) (d - 53)
                loc_Exact)
      as [m [e [Hbra [Hm [He _]]]]]; try lia.
    exists m, e. split; [exact Hbra|]. split; [exact Hm|]. lia.
Qed.

Lemma float_of_long_SF (z : Z) :
  1 <= z < 2 ^ 63 ->
  exists (m : positive) (e : Z),
    FloatOps.Prim2SF (float_of_long z) = S754_finite false m e
    /\ 2 ^ 52 <= Zpos m < 2 ^ 53
    /\ -52 <= e <= 11.
Proof.
  intros Hz. unfold float_of_long.
  destruct (Z.ltb_spec z 0) as [Hneg|_]; [lia|].
  rewrite FloatAxioms.of_uint63_spec, Uint63.of_Z_spec.
  rewrite Z.mod_small by (change Uint63.wB with (2 ^ 63); lia).
  destruct z as [|p|p]; try lia.
  cbn [binary_normalize]. apply binary_round_long. lia.
Qed.

(** ** The score of a pair whose three sums are one number *)

Lemma Prim2SF_zero : FloatOps.Prim2SF PrimFloat.zero = S754_zero false.
Proof. reflexivity. Qed.

Lemma eps52_small : (eps52 <= / 1000000000000)%R.
Proof. unfold eps52. lra. Qed.

(** For a double [x] that is the conversion of a positive long, the
    denominator [sqrt x * sqrt x] is a positive double and the quotient of
    [x] by it is within [8 * eps52] of 1. *)
Lemma quotient_by_squared_root (x : PrimFloat.float) (mx : positive)
    (ex : Z) :
  FloatOps.Prim2SF x = S754_finite false mx ex ->
  2 ^ 52 <= Zpos mx < 2 ^ 53 ->
  -52 <= ex <= 11 ->
  let den := PrimFloat.mul (PrimFloat.sqrt x) (PrimFloat.sqrt x) in
  (exists md ed, FloatOps.Prim2SF den = S754_finite false md ed)
  /\ (Rabs (double_value (PrimFloat.div x den) - 1) <= 8 * eps52)%R.
Proof.
  intros Hx Hmx Hex den.
  destruct (SFsqrt_value mx ex Hmx ltac:(lia))
    as [ma [ea [Hsqrt [Hma [Hea [Ha1 Ha2]]]]]].
  assert (Hea' : -52 <= ea <= -20) by (Z.div_mod_to_equations; lia).
  destruct (SFmul_value ma ma ea ea Hma Hma ltac:(lia))
    as [md [ed [Hmul [Hmd [Hed Hm]]]]].
  destruct (SFdiv_value mx md ex ed Hmx Hmd ltac:(lia))
    as [ms [es [Hdiv [Hms [Hs1 Hs2]]]]].
  assert (Hden : FloatOps.Prim2SF den = S754_finite false md ed).
  { unfold den. rewrite FloatAxioms.mul_spec, FloatAxioms.sqrt_spec, Hx.
    unfold FloatAxioms.SF64mul, FloatAxioms.SF64sqrt.
    change FloatOps.prec with 53. change FloatOps.emax with 1024.
    now rewrite Hsqrt. }
  split; [now exists md, ed|].
  unfold double_value.
  rewrite FloatAxioms.div_spec, Hden, Hx. unfold FloatAxioms.SF64div.
  change FloatOps.prec with 53. change FloatOps.emax with 1024.
  rewrite Hdiv. cbn [SF2R]. rewrite Rmult_1_l.
  apply (score_bounds eps52 (IZR (Zpos mx) * bpow ex)
           ((IZR (Zpos ma) * bpow ea) * (IZR (Zpos ma) * bpow ea))
           (IZR (Zpos md) * bpow ed)).
  - apply eps52_pos.
  - apply eps52_small.
  - apply Rmult_lt_0_compat; [apply IZR_lt; lia|apply bpow_pos].
  - apply Rmult_lt_0_compat; [apply IZR_lt; lia|apply bpow_pos].
  - exact Ha1.
  - exact Ha2.
  - exact Hm.
  - exact Hs1.
  - exact Hs2.
Qed.
End Rounding.

(** * Identical ratings in binary64 *)

Lemma neqb_zero_of_positive (x : PrimFloat.float) (m : positive) (e : Z) :
  FloatOps.Prim2SF x = SpecFloat.S754_finite false m e ->
  @d_neqb Binary64 x d_lit0 = true.
Proof.
  intros Hx. cbn [d_neqb d_lit0 Binary64].
  rewrite (spark_geb_spec PrimFloat.zero x), Hx.
  change (FloatOps.Prim2SF PrimFloat.zero) with (SpecFloat.S754_zero false).
  unfold sf_geb.
  change (SpecFloat.SFleb (SpecFloat.S754_finite false m e)
                          (SpecFloat.S754_zero false)) with false.
  change (SpecFloat.SFeqb (SpecFloat.S754_zero false)
                          (SpecFloat.S754_zero false)) with true.
  cbn [negb orb]. now rewrite andb_false_r, andb_false_r.
Qed.

(** With identical ratings between 1 and 46340, the three sums of a pair
    are one number, at least the number of observations. *)
Lemma identical_sums (l : list Pairs.row) :
  Forall (fun o => Pairs.rating1 o = Pairs.rating2 o
                   /\ 1 <= Pairs.rating1 o <= 46340) l ->
  sum_xy l = sum_xx l
  /\ sum_yy l = sum_xx l
  /\ Z.of_nat (length l) <= sum_xx l <= 2147395600 * Z.of_nat (length l).
Proof.
  unfold sum_xy, sum_xx, sum_yy, sum_long.
  induction 1 as [|o l [Heq Hr] _ [IH1 [IH2 IH3]]].
  - simpl. lia.
  - cbn [map fold_right]. rewrite IH1, IH2, <- Heq.
    rewrite int32_product by lia.
    change (length (o :: l)) with (S (length l)). nia.
Qed.

(** C8.  When every observation of a pair carries the same rating for
    both movies, a rating from 1 on whose square fits the 32-bit column
    (the ratings 1 to 5 of the specification do), and the pair has fewer
    than 2^32 observations (so that the 64-bit sums cannot overflow), the
    double the script emits as the score of the pair is a number within
    [8 * 2^-52] of 1, hence within [10^-9]. *)
Theorem identical_ratings_score_one
    (data : list Pairs.row) (r : Sims.row Binary64) :
  In r (computeCosineSimilarity data) ->
  Forall (fun o => Pairs.rating1 o = Pairs.rating2 o
                   /\ 1 <= Pairs.rating1 o <= 46340)
         (observations data (Sims.movie1 r) (Sims.movie2 r)) ->
  Sims.numPairs r < 2 ^ 32 ->
  (Rabs (double_value (Sims.score r) - 1) <= 8 * eps52)%R
  /\ (Rabs (double_value (Sims.score r) - 1) <= / 1000000000)%R.
Proof.
  intros Hr Hid Hlen.
  assert (Hgoal : (Rabs (double_value (Sims.score r) - 1) <= 8 * eps52)%R).
  { apply in_computeCosineSimilarity in Hr. destruct Hr as [Hk Hr].
    assert (Hne : observations data (Sims.movie1 r) (Sims.movie2 r) <> []).
    { apply in_map_iff in Hk. destruct Hk as [o [Ho Hin]].
      apply observations_nonempty in Hin.
      unfold Pairs.key, Sims.key in Ho. injection Ho as <- <-.
      intros E. rewrite E in Hin. contradiction. }
    rewrite Hr in Hlen |- *.
    cbn [Sims.score Sims.numPairs emitted_row Sims.key fst snd] in *.
    set (l := observations data (Sims.movie1 r) (Sims.movie2 r)) in *.
    destruct (identical_sums l Hid) as [Hxy [Hyy Hsum]].
    assert (Hpos : (0 < length l)%nat)
      by (destruct l; [contradiction|simpl; lia]).
    change (2 ^ 32) with 4294967296 in Hlen.
    assert (Hrange : 1 <= sum_xx l < 2 ^ 63).
    { change (2 ^ 63) with 9223372036854775808. lia. }
    destruct (float_of_long_SF (sum_xx l) Hrange)
      as [mx [ex [Hx [Hmx Hex]]]].
    destruct (quotient_by_squared_root (float_of_long (sum_xx l)) mx ex
                Hx Hmx Hex) as [[md [ed Hden]] Hscore].
    unfold emitted_score, emitted_denominator. rewrite Hxy, Hyy.
    cbn [d_of_long d_mul d_sqrt d_div Binary64].
    rewrite (neqb_zero_of_positive _ md ed Hden). exact Hscore. }
  split; [exact Hgoal|].
  apply Rle_trans with (8 * eps52)%R; [exact Hgoal|].
  unfold eps52. lra.
Qed.

(** * The claims on sample tables *)

Ltac forall_list := repeat first [apply Forall_nil | apply Forall_cons].

Example scenario_pairs_rows :
  scenario_pairs = [obs 1 2 5 5; obs 1 3 5 1; obs 2 3 5 1; obs 1 2 4 4].
Proof. vm_compute. reflexivity. Qed.

(** The scenario of the specification in binary64: the pair (1, 2) has
    numerator 41 and denominator 41, hence score 1.0 and support 2; the
    pairs with movie 3 have support 1. *)
Example scenario_similarities :
  computeCosineSimilarity (D := Binary64) scenario_pairs
  = [Sims.mk Binary64 1 3 (d_of_long 1) 1;
     Sims.mk Binary64 2 3 (d_of_long 1) 1;
     Sims.mk Binary64 1 2 (d_of_long 1) 2].
Proof. vm_compute. reflexivity. Qed.

Lemma computeCosineSimilarity_one_row_per_pair_witness :
  In (1, 2) (map Pairs.key scenario_pairs)
  /\ filter (fun r => key_eqb Z2_eq_dec (Sims.key r) (1, 2))
            (computeCosineSimilarity (D := Binary64) scenario_pairs)
     = [Sims.mk Binary64 1 2 (d_of_long 1) 2].
Proof.
  assert (Hin : In (1, 2) (map Pairs.key scenario_pairs))
    by (vm_compute; auto).
  split; [exact Hin|].
  assert (Hfit : Forall products_fit (observations scenario_pairs 1 2)).
  { apply observations_fit. rewrite scenario_pairs_rows.
    forall_list; unfold products_fit; simpl; lia. }
  destruct (computeCosineSimilarity_one_row_per_pair (D := Binary64)
              scenario_pairs 1 2 Hin Hfit) as [_ Hrow].
  rewrite Hrow. vm_compute. reflexivity.
Defined.

Lemma numPairs_at_least_one_witness :
  Forall (fun r : Sims.row Binary64 => 1 <= Sims.numPairs r)
         (computeCosineSimilarity scenario_pairs)
  /\ ~ In (2, 1)
          (map Sims.key (computeCosineSimilarity (D := Binary64)
                                                 scenario_pairs)).
Proof.
  destruct (numPairs_at_least_one (D := Binary64) scenario_pairs)
    as [Hall Hnone].
  split; [exact Hall|]. apply Hnone. vm_compute. reflexivity.
Defined.

(** The query of movie 3 in [sample_sims] with the thresholds of the script,
    keeping two rows: the rows with 50 co-occurrences or with score 0.97 do
    not pass the strict thresholds, and the third best row is cut. *)
Example sample_results :
  results sample_sims 3 scoreThreshold coOccurrenceThreshold 2
  = [Sims.mk Binary64 3 4 (d_of_long 1) 51;
     Sims.mk Binary64 1 3 (d_literal 99 100) 60].
Proof. vm_compute. reflexivity. Qed.

Lemma results_are_top_k_witness :
  let res := results sample_sims 3 scoreThreshold coOccurrenceThreshold 2 in
  StronglySorted
    (fun a b => d_geb (Sims.score a) (Sims.score b) = true) res
  /\ (length res <= 2)%nat.
Proof.
  intros res.
  pose proof (results_are_top_k sample_sims 3 scoreThreshold
                coOccurrenceThreshold 2) as H.
  cbv zeta in H. destruct H as [Hsorted [Hlen _]]. split; assumption.
Defined.


(** Outside the data model of the specification, when a user has two
    rating rows for one movie: both movies qualify, user 1 rated both, and
    the self-join holds two rows of user 1 for the pair, one per rating row
    of movie 10. *)
Example rerated_movie_pairs_twice :
  let goodMovies :=
    filterGoodMovies (D := Binary64) rerated_movies threshold_default in
  In 10 (map Good.movieID goodMovies)
  /\ In 20 (map Good.movieID goodMovies)
  /\ In (1, 10) (map user_item rerated_movies)
  /\ In (1, 20) (map user_item rerated_movies)
  /\ moviePairs (ratings_of rerated_movies goodMovies)
     = [obs 10 20 5 3; obs 10 20 4 3]
  /\ length (filter (observes 1 10 20)
               (pairJoin (ratings_of rerated_movies goodMovies)))
     = 2%nat.
Proof.
  vm_compute. repeat split; auto.
Qed.

Example scenario_good_movies :
  map Good.movieID (filterGoodMovies (D := Binary64) scenario_movies
                                     threshold_default)
  = [1; 2].
Proof. vm_compute. reflexivity. Qed.

Lemma filterGoodMovies_mean_at_least_threshold_witness :
  In 1 (map Good.movieID (filterGoodMovies (D := Binary64) scenario_movies
                                           threshold_default))
  /\ ~ In 3 (map Good.movieID (filterGoodMovies (D := Binary64)
                                 scenario_movies threshold_default)).
Proof.
  destruct (filterGoodMovies_mean_at_least_threshold (D := Binary64)
              scenario_movies threshold_default) as [_ Hiff].
  split.
  - apply Hiff. split; [simpl; auto|vm_compute; reflexivity].
  - intros Hin. apply Hiff in Hin. destruct Hin as [_ Hge].
    vm_compute in Hge. discriminate.
Defined.

Lemma filterGoodMovies_antitone_witness :
  @d_geb Binary64 (d_of_long 4) threshold_default = true
  /\ incl (map Good.movieID (filterGoodMovies (D := Binary64) scenario_movies
                                              (d_of_long 4)))
          (map Good.movieID (filterGoodMovies (D := Binary64) scenario_movies
                                              threshold_default)).
Proof.
  assert (Hle : @d_geb Binary64 (d_of_long 4) threshold_default = true)
    by (vm_compute; reflexivity).
  split; [exact Hle|]. now apply filterGoodMovies_antitone.
Defined.

Lemma getMovieName_needs_catalog_row_witness :
  (exists title, getMovieName scenario_names 2 = Ok title)
  /\ getMovieName scenario_names 7 = Raise IndexError.
Proof.
  destruct (getMovieName_needs_catalog_row scenario_names 2)
    as [_ [Hfound _]].
  destruct (getMovieName_needs_catalog_row scenario_names 7)
    as [_ [_ Hnone]].
  split.
  - apply Hfound. exists (Names.mk 2 "GoldenEye"). simpl. auto.
  - apply Hnone. simpl. intros e He.
    repeat (destruct He as [<-|He]; [discriminate|]). contradiction.
Defined.

Example py_int_samples :
  map py_int
      (map text [" 12 "; "+7"; "-0_1"; "1__2"; "1_"; "12a"; "1 2"; ""]%string)
  = [Ok 12; Ok 7; Ok (-1); Raise ValueError; Raise ValueError;
     Raise ValueError; Raise ValueError; Raise ValueError].
Proof. vm_compute. reflexivity. Qed.

(** [int] reads the decimal digits and the white space of every script:
    ARABIC-INDIC DIGIT THREE, a no-break space before FULLWIDTH DIGIT ONE
    and TWO; the superscript two is no decimal digit. *)
Example py_int_unicode_samples :
  map py_int [[1635]; [160; 65297; 65298]; [178]]
  = [Ok 3; Ok 12; Raise ValueError].
Proof. vm_compute. reflexivity. Qed.

(** A number of 4300 digits is converted, one of 4301 digits is not. *)
Example py_int_digit_limit :
  (exists n, py_int (repeat 49 4300) = Ok n)
  /\ py_int (repeat 49 4301) = Raise ValueError.
Proof.
  split; [|vm_compute; reflexivity].
  destruct (py_int (repeat 49 4300)) as [n|e] eqn:E.
  - now exists n.
  - exfalso. revert E. vm_compute. destruct e; discriminate.
Qed.

(** The ID of a movie with ratings but no similar movie good enough: the
    same outcome as for an ID outside the data. *)
Example scenario_run_no_results :
  main (D := Binary64) scenario_movies scenario_names (text "1")
  = ([Job; Out NoSimilarMovies], Ok tt).
Proof. vm_compute. reflexivity. Qed.

Example scenario_run_invalid :
  main (D := Binary64) scenario_movies scenario_names (text "one")
  = ([Out InvalidInput], Raise NameError).
Proof. vm_compute. reflexivity. Qed.

(** A number that is no Java [long]: the run ends while the filter is
    built. *)
Example scenario_run_too_large :
  main (D := Binary64) scenario_movies scenario_names
       (text "9223372036854775808")
  = ([], Raise Py4JError).
Proof. vm_compute. reflexivity. Qed.

(** C6 fails for an ID that is a number but of no movie: 9999 is neither
    rated nor in the catalog, yet the run executes the query and reports
    "no results", the outcome of a valid ID, not an input failure. *)
Lemma out_of_domain_id_not_rejected :
  py_int (text "9999") = Ok 9999
  /\ ~ In 9999 (map Movies.movieID scenario_movies)
  /\ ~ In 9999 (map Names.movieID scenario_names)
  /\ main (D := Binary64) scenario_movies scenario_names (text "9999")
     = ([Job; Out NoSimilarMovies], Ok tt).
Proof.
  split; [vm_compute; reflexivity|].
  split; [vm_compute; intuition discriminate|].
  split; [simpl; intuition discriminate|].
  vm_compute. reflexivity.
Qed.

(** The whole pipeline on [threes_movies]: both movies have mean 3.0 and
    pass the filter; the score of the pair is the double after 1.0. *)
Example threes_similarities :
  moviePairSimilarities (D := Binary64) threes_movies
  = [Sims.mk Binary64 10 20 (PrimFloat.next_up (float_of_long 1)) 2].
Proof. vm_compute. reflexivity. Qed.

(** C7 fails in binary64: with two observations [(3, 3)] the numerator is
    18 and the product of the rounded square roots is below 18, so the
    score is above 1. *)
Lemma binary64_score_above_one :
  Forall (fun o => 1 <= Pairs.rating1 o <= 5 /\ 1 <= Pairs.rating2 o <= 5)
         threes_pairs
  /\ exists r : Sims.row Binary64,
       In r (computeCosineSimilarity threes_pairs)
       /\ d_gtb (Sims.score r) (d_of_long 1) = true.
Proof.
  split.
  - unfold threes_pairs. forall_list; simpl; lia.
  - exists (Sims.mk Binary64 10 20 (PrimFloat.next_up (float_of_long 1)) 2).
    split; vm_compute; auto.
Qed.

Lemma exact_score_in_unit_interval_witness :
  Forall (fun r : Sims.row Exact => (0 <= Sims.score r <= 1)%R)
         (computeCosineSimilarity threes_pairs).
Proof.
  apply exact_score_in_unit_interval.
  unfold threes_pairs. forall_list; simpl; lia.
Defined.

(** A pair whose ratings are all 0, a rating outside the 1 to 5 of the
    specification: the denominator is zero and the guard sets the score to
    0. *)
Example zero_ratings_score_zero :
  Forall (fun o => Pairs.rating1 o = Pairs.rating2 o)
         (observations zeros_pairs 1 2)
  /\ computeCosineSimilarity (D := Binary64) zeros_pairs
     = [Sims.mk Binary64 1 2 d_lit0 1]
  /\ @d_neqb Binary64 d_lit0 (d_of_long 1) = true.
Proof.
  split; [|split].
  - simpl. forall_list. reflexivity.
  - vm_compute. reflexivity.
  - vm_compute. reflexivity.
Qed.

(** Ratings whose squares leave 32 bits, far outside the 1 to 5 of the
    specification: the square of 50000 wraps around to a negative number,
    whose root is not a number, and so is the score; the square of 65536
    wraps around to 0, and the guard sets the score to 0. *)
Example wrapped_products_scores :
  computeCosineSimilarity (D := Binary64) [obs 1 2 50000 50000]
  = [Sims.mk Binary64 1 2 PrimFloat.nan 1]
  /\ computeCosineSimilarity (D := Binary64) [obs 1 2 65536 65536]
     = [Sims.mk Binary64 1 2 PrimFloat.zero 1].
Proof. split; vm_compute; reflexivity. Qed.

(** Two observations [(3, 3)]: the score is the double after 1.0, at
    [2^-52] from 1. *)
Lemma identical_ratings_score_one_witness :
  (Rabs (double_value (PrimFloat.next_up (float_of_long 1)) - 1)
   <= / 1000000000)%R.
Proof.
  destruct (identical_ratings_score_one threes_pairs
              (Sims.mk Binary64 10 20 (PrimFloat.next_up (float_of_long 1))
                       2)) as [_ Hnear].
  - vm_compute. auto.
  - simpl. forall_list; simpl; lia.
  - simpl. lia.
  - exact Hnear.
Defined.

(** * Further properties of [computeCosineSimilarity] *)

Section AggregationFacts.
Context {D : DoubleOps}.

Lemma filter_perm {A : Type} (p : A -> bool) (l l' : list A) :
  Permutation l l' -> Permutation (filter p l) (filter p l').
Proof.
  induction 1 as [|x l l' _ IH|x y l|l l' l'' _ IH1 _ IH2]; simpl.
  - constructor.
  - destruct (p x); [now constructor|assumption].
  - destruct (p x), (p y); try reflexivity. apply perm_swap.
  - now transitivity (filter p l').
Qed.

Lemma sum_long_perm (l l' : list Z) :
  Permutation l l' -> sum_long l = sum_long l'.
Proof.
  unfold sum_long.
  induction 1 as [|x l l' _ IH|x y l|l l' l'' _ IH1 _ IH2]; simpl; lia.
Qed.

(** The row of a pair depends only on the bag of observations. *)
Lemma emitted_row_perm (data data' : list Pairs.row) (k : Z * Z) :
  Permutation data data' ->
  emitted_row (D := D) data k = emitted_row data' k.
Proof.
  intros Hp. unfold emitted_row.
  assert (Ho : Permutation (observations data (fst k) (snd k))
                           (observations data' (fst k) (snd k)))
    by (now apply filter_perm).
  set (l := observations data (fst k) (snd k)) in *.
  set (l' := observations data' (fst k) (snd k)) in *.
  assert (H1 : sum_xy l = sum_xy l')
    by (apply sum_long_perm; now apply Permutation_map).
  assert (H2 : sum_xx l = sum_xx l')
    by (apply sum_long_perm; now apply Permutation_map).
  assert (H3 : sum_yy l = sum_yy l')
    by (apply sum_long_perm; now apply Permutation_map).
  unfold emitted_score, emitted_denominator. rewrite H1, H2, H3.
  now rewrite (Permutation_length Ho).
Qed.

Lemma nodup_perm (l l' : list (Z * Z)) :
  Permutation l l' ->
  Permutation (nodup Z2_eq_dec l) (nodup Z2_eq_dec l').
Proof.
  intros Hp. apply NoDup_Permutation; try apply NoDup_nodup.
  intros k. rewrite !nodup_In. split; apply Permutation_in;
    [assumption|now symmetry].
Qed.

(** In a list of distinct keys that holds [x], exactly one key is [x]. *)
Lemma sum_indicator (x : Z * Z) (ks : list (Z * Z)) :
  NoDup ks -> In x ks ->
  sum_long (map (fun k => if Z2_eq_dec x k then 1 else 0) ks) = 1.
Proof.
  unfold sum_long.
  induction 1 as [|k ks Hk Hnd IH]; simpl; intros Hin; [contradiction|].
  destruct (Z2_eq_dec x k) as [->|Hne].
  - assert (Hz : fold_right Z.add 0
             (map (fun k0 => if Z2_eq_dec k k0 then 1 else 0) ks) = 0).
    { clear IH Hnd Hin. induction ks as [|k' ks IH]; simpl; [reflexivity|].
      destruct (Z2_eq_dec k k') as [->|_].
      - exfalso. apply Hk. now left.
      - rewrite IH; [reflexivity|]. intros Hin. apply Hk. now right. }
    rewrite Hz. reflexivity.
  - destruct Hin as [->|Hin]; [contradiction|]. rewrite IH by assumption.
    reflexivity.
Qed.

(** Counting the observations pair by pair counts each of them once. *)
Lemma sum_counts (ks : list (Z * Z)) (data : list Pairs.row) :
  NoDup ks ->
  (forall o, In o data -> In (Pairs.key o) ks) ->
  sum_long (map (fun k => Z.of_nat
                            (length (observations data (fst k) (snd k)))) ks)
  = Z.of_nat (length data).
Proof.
  intros Hnd. induction data as [|o data IH]; intros Hin.
  - clear Hnd Hin. unfold sum_long.
    induction ks as [|k ks IHk]; simpl in *; [reflexivity|exact IHk].
  - assert (Hstep : forall k,
              Z.of_nat (length (observations (o :: data) (fst k) (snd k)))
              = (if Z2_eq_dec (Pairs.key o) k then 1 else 0)
                + Z.of_nat (length (observations data (fst k) (snd k)))).
    { intros [a b]. unfold observations. cbn [filter fst snd].
      destruct (Z2_eq_dec (Pairs.key o) (a, b)) as [E|E].
      - unfold Pairs.key in E. injection E as <- <-.
        rewrite !Z.eqb_refl. cbn [andb length]. lia.
      - destruct (Z.eqb_spec (Pairs.movie1 o) a) as [Ea|Ea],
                 (Z.eqb_spec (Pairs.movie2 o) b) as [Eb|Eb];
          cbn [andb length]; try lia.
        exfalso. apply E. unfold Pairs.key. now rewrite Ea, Eb. }
    rewrite (map_ext _ _ Hstep).
    assert (Hsplit : forall (f g : Z * Z -> Z) l,
              sum_long (map (fun k => f k + g k) l)
              = sum_long (map f l) + sum_long (map g l)).
    { intros f g l. unfold sum_long.
      induction l as [|k l IHl]; simpl; lia. }
    rewrite Hsplit, IH by (intros o' Ho'; apply Hin; now right).
    rewrite sum_indicator by (try assumption; apply Hin; now left).
    simpl length. lia.
Qed.

Lemma sum_long_lower (l : list Z) :
  Forall (fun z => 1 <= z) l -> Z.of_nat (length l) <= sum_long l.
Proof.
  unfold sum_long. induction 1 as [|z l Hz _ IH]; simpl length; simpl; lia.
Qed.
End AggregationFacts.

(** X1.  The similarity table does not depend on the order of the
    observations: permuting the input permutes the output rows, every score
    and count being the same, whatever the arithmetic of the doubles (the
    three sums are integer sums). *)
Theorem computeCosineSimilarity_order_independent
    {D : DoubleOps} (data data' : list Pairs.row) :
  Permutation data data' ->
  Permutation (computeCosineSimilarity (D := D) data)
              (computeCosineSimilarity data').
Proof.
  intros Hp. rewrite !computeCosineSimilarity_rows.
  rewrite (map_ext _ _ (fun k => emitted_row_perm data data' k Hp)).
  apply Permutation_map, nodup_perm. now apply Permutation_map.
Qed.

(** X2.  Every observation is counted in exactly one row: the [numPairs] of
    the output add up to the number of observations, so the output never
    has more rows than the input. *)
Theorem numPairs_add_up {D : DoubleOps} (data : list Pairs.row) :
  sum_long (map Sims.numPairs (computeCosineSimilarity (D := D) data))
  = Z.of_nat (length data)
  /\ (length (computeCosineSimilarity (D := D) data) <= length data)%nat.
Proof.
  assert (Hsum : sum_long (map Sims.numPairs
                             (computeCosineSimilarity (D := D) data))
                 = Z.of_nat (length data)).
  { rewrite computeCosineSimilarity_rows, map_map. cbn [Sims.numPairs
      emitted_row]. apply sum_counts; [apply NoDup_nodup|].
    intros o Ho. apply nodup_In. now apply in_map. }
  split; [exact Hsum|].
  assert (Hlow : Forall (fun z => 1 <= z)
                   (map Sims.numPairs (computeCosineSimilarity (D := D) data))).
  { apply Forall_forall. intros z Hz. apply in_map_iff in Hz.
    destruct Hz as [r [<- Hr]].
    apply in_computeCosineSimilarity in Hr. destruct Hr as [Hk ->].
    apply in_map_iff in Hk. destruct Hk as [o [Ho Hin]].
    apply observations_nonempty in Hin.
    unfold Pairs.key in Ho. rewrite <- Ho. cbn [Sims.numPairs emitted_row
      fst snd].
    destruct (observations data (Pairs.movie1 o) (Pairs.movie2 o));
      [contradiction|simpl length; lia]. }
  apply sum_long_lower in Hlow. rewrite length_map in Hlow. lia.
Qed.

(** * Proportional ratings *)

Lemma sums_proportional (l : list Pairs.row) (p q : Z) :
  Forall (fun o => q * Pairs.rating1 o = p * Pairs.rating2 o) l ->
  p * sum_products l = q * sum_squares1 l
  /\ p * sum_squares2 l = q * sum_products l.
Proof.
  unfold sum_products, sum_squares1, sum_squares2.
  induction 1 as [|o l Ho _ [IH1 IH2]]; simpl; [lia|].
  assert (E1 : Pairs.rating1 o * (q * Pairs.rating1 o)
               = Pairs.rating1 o * (p * Pairs.rating2 o)) by now rewrite Ho.
  assert (E2 : Pairs.rating2 o * (q * Pairs.rating1 o)
               = Pairs.rating2 o * (p * Pairs.rating2 o)) by now rewrite Ho.
  split; lia.
Qed.

Lemma cosine_exact_proportional (l : list Pairs.row) (p q : Z) :
  0 < p -> 0 < q ->
  Forall (fun o => q * Pairs.rating1 o = p * Pairs.rating2 o) l ->
  Exists (fun o => Pairs.rating1 o <> 0) l ->
  cosine (D := Exact) l = 1%R.
Proof.
  intros Hp Hq Hprop Hnz.
  destruct (sums_proportional l p q Hprop) as [H1 H2].
  pose proof (sum_squares1_pos l Hnz) as Hxx.
  assert (Hxy : 0 < sum_products l).
  { apply (Z.mul_pos_cancel_l p); [assumption|]. rewrite H1.
    now apply Z.mul_pos_pos. }
  assert (Hsq : sum_squares1 l * sum_squares2 l
                = sum_products l * sum_products l).
  { apply (Z.mul_reg_l _ _ (p * p)); [nia|].
    transitivity ((p * sum_squares1 l) * (p * sum_squares2 l)); [ring|].
    rewrite H2.
    transitivity ((q * sum_squares1 l) * (p * sum_products l)); [ring|].
    rewrite <- H1. ring. }
  unfold cosine. rewrite norms_product_exact, Hsq.
  cbn [d_neqb d_lit0 d_div d_of_long Exact].
  assert (HR : (0 < IZR (sum_products l))%R) by (apply IZR_lt; lia).
  rewrite mult_IZR, sqrt_square by lra.
  destruct (Rneqb (IZR (sum_products l)) 0) eqn:E.
  - apply Rinv_r. lra.
  - assert (Ht : Rneqb (IZR (sum_products l)) 0 = true)
      by (apply Rneqb_true; lra).
    congruence.
Qed.

(** X3.  The score ignores the scale of the ratings: when the two ratings
    of every observation of a pair are in one fixed positive proportion
    [p : q] (and not all zero), and their products fit the 32-bit columns,
    the exact value of the pair's score is 1. *)
Theorem proportional_ratings_exact_score_one
    (data : list Pairs.row) (r : Sims.row Exact) (p q : Z) :
  In r (computeCosineSimilarity data) ->
  0 < p -> 0 < q ->
  Forall products_fit (observations data (Sims.movie1 r) (Sims.movie2 r)) ->
  Forall (fun o => q * Pairs.rating1 o = p * Pairs.rating2 o)
         (observations data (Sims.movie1 r) (Sims.movie2 r)) ->
  Exists (fun o => Pairs.rating1 o <> 0)
         (observations data (Sims.movie1 r) (Sims.movie2 r)) ->
  Sims.score r = 1%R.
Proof.
  intros Hr Hp Hq Hfit Hprop Hnz.
  apply in_computeCosineSimilarity in Hr. destruct Hr as [_ Hr].
  rewrite Hr, emitted_row_fits by exact Hfit.
  cbn [Sims.score similarity_row Sims.key fst snd].
  now apply (cosine_exact_proportional _ p q).
Qed.

(** X4.  A pair with a single observation, of positive ratings of at most
    46340 (so that the products fit the 32-bit columns), has the exact
    score 1 whatever the two ratings are: one co-rater says nothing, which
    is what the threshold on [numPairs] of the query guards against. *)
Theorem single_observation_exact_score_one
    (data : list Pairs.row) (r : Sims.row Exact) :
  In r (computeCosineSimilarity data) ->
  Sims.numPairs r = 1 ->
  Forall (fun o => 0 < Pairs.rating1 o <= 46340
                   /\ 0 < Pairs.rating2 o <= 46340)
         (observations data (Sims.movie1 r) (Sims.movie2 r)) ->
  Sims.score r = 1%R.
Proof.
  intros Hr Hone Hpos.
  apply in_computeCosineSimilarity in Hr. destruct Hr as [_ Hr].
  rewrite Hr in Hone |- *. rewrite emitted_row_fits.
  2: { revert Hpos. apply Forall_impl. intros o [H1 H2].
       unfold products_fit. lia. }
  cbn [Sims.score Sims.numPairs emitted_row similarity_row Sims.key fst snd]
    in *.
  destruct (observations data (Sims.movie1 r) (Sims.movie2 r))
    as [|o [|o' l]]; simpl length in Hone; try lia.
  inversion Hpos as [|? ? [H1 H2] _]; subst.
  apply (cosine_exact_proportional [o] (Pairs.rating1 o) (Pairs.rating2 o));
    try lia.
  - constructor; [lia|constructor].
  - apply Exists_cons_hd. lia.
Qed.

(** * Further properties of the pipeline and of the run *)

Section RunFacts.
Context {D : DoubleOps}.

(** Where a row of the similarity table comes from. *)
Lemma similarity_row_origin (movies : list Movies.row) (r : Sims.row D) :
  In r (moviePairSimilarities movies) ->
  Sims.movie1 r < Sims.movie2 r
  /\ In (Sims.movie1 r)
        (map Good.movieID (filterGoodMovies movies threshold_default))
  /\ In (Sims.movie2 r)
        (map Good.movieID (filterGoodMovies movies threshold_default)).
Proof.
  unfold moviePairSimilarities. intros Hr.
  apply in_computeCosineSimilarity in Hr. destruct Hr as [Hk _].
  apply in_map_iff in Hk. destruct Hk as [p [Hp Hin]].
  unfold moviePairs in Hin. apply in_map_iff in Hin.
  destruct Hin as [[r1 r2] [<- Hin]]. apply in_pairJoin in Hin.
  destruct Hin as [H1 [H2 [_ Hlt]]].
  apply in_ratings_of in H1, H2.
  destruct H1 as [m1 [_ [-> Hg1]]]. destruct H2 as [m2 [_ [-> Hg2]]].
  unfold Pairs.key, Sims.key in Hp. simpl in Hp. injection Hp as <- <-.
  simpl in Hlt. auto.
Qed.

Lemma in_results (sims : list (Sims.row D)) (movieID : Z) (st ct : double)
    (topK : nat) (r : Sims.row D) :
  In r (results sims movieID st ct topK) ->
  In r sims /\ (Sims.movie1 r = movieID \/ Sims.movie2 r = movieID).
Proof.
  unfold results. intros Hr. apply in_firstn in Hr.
  apply (Permutation_in _ (sort_desc_perm _)) in Hr.
  apply in_filteredResults in Hr. tauto.
Qed.

(** The query on a movie that did not pass the quality filter has no
    result. *)
Lemma results_unqualified (movies : list Movies.row) (movieID : Z)
    (st ct : double) (topK : nat) :
  ~ In movieID (map Good.movieID (filterGoodMovies movies threshold_default)) ->
  results (moviePairSimilarities movies) movieID st ct topK = [].
Proof.
  intros Hout. unfold results, filteredResults.
  rewrite filter_nil; [now destruct topK|].
  intros r Hr. apply similarity_row_origin in Hr.
  destruct Hr as [_ [H1 H2]].
  destruct (Z.eqb_spec (Sims.movie1 r) movieID) as [E1|_];
    [now rewrite E1 in H1|].
  destruct (Z.eqb_spec (Sims.movie2 r) movieID) as [E2|_];
    [now rewrite E2 in H2|].
  reflexivity.
Qed.

Lemma java_long_spec (n : Z) :
  java_long n = true <-> - 2 ^ 63 <= n < 2 ^ 63.
Proof.
  unfold java_long. rewrite andb_true_iff, Z.leb_le, Z.ltb_lt.
  change (2 ^ 63) with 9223372036854775808. tauto.
Qed.

(** The ID of a movie of the ratings is the cell of an [IntegerType]
    column, hence a Java [long]. *)
Lemma rated_java_long (movies : list Movies.row) (movieID : Z) :
  In movieID (map Movies.movieID movies) -> java_long movieID = true.
Proof.
  intros Hin. apply in_map_iff in Hin. destruct Hin as [m [<- _]].
  apply java_long_spec. change (2 ^ 63) with 9223372036854775808.
  unfold Movies.movieID. pose proof (int32_range (Movies.movieID_cell m)).
  lia.
Qed.

(** A query with results is a query for a movie of the ratings. *)
Lemma results_java_long (movies : list Movies.row) (movieID : Z)
    (st ct : double) (topK : nat) :
  results (moviePairSimilarities movies) movieID st ct topK <> [] ->
  java_long movieID = true.
Proof.
  intros Hrs.
  destruct (results (moviePairSimilarities movies) movieID st ct topK)
    as [|r rs] eqn:E; [contradiction|].
  assert (Hr : In r (results (moviePairSimilarities movies) movieID st ct
                             topK)) by (rewrite E; now left).
  apply in_results in Hr. destruct Hr as [Hin Ht].
  apply similarity_movies_rated in Hin. destruct Hin as [H1 H2].
  apply (rated_java_long movies). destruct Ht as [<-|<-]; assumption.
Qed.

(** The script, with the loop body named. *)
Lemma main_unfold (movies : list Movies.row) (movieNames : list Names.row)
    (stdin : str) :
  main movies movieNames stdin
  = bind (match py_int stdin with
          | Ok n => ret n
          | Raise ValueError => bind (print InvalidInput) (fun _ => sys_exit 1)
          | Raise e => raise e
          end)
         (fun movieID =>
            bind (if java_long movieID then ret tt else raise Py4JError)
              (fun _ =>
            bind (action (results (moviePairSimilarities movies) movieID
                                  scoreThreshold coOccurrenceThreshold 10))
                 (fun rs =>
                    match rs with
                    | _ :: _ =>
                        bind (getMovieNameM movieNames movieID)
                             (fun name =>
                                bind (print (Top10Header name))
                                     (fun _ =>
                                        for_each rs
                                          (print_similar movieNames movieID)))
                    | [] => print NoSimilarMovies
                    end))).
Proof. reflexivity. Qed.

(** The script once the line is parsed to a Java [long]. *)
Lemma main_parsed (movies : list Movies.row) (movieNames : list Names.row)
    (stdin : str) (movieID : Z) :
  py_int stdin = Ok movieID ->
  java_long movieID = true ->
  main movies movieNames stdin
  = bind (action (results (moviePairSimilarities movies) movieID
                          scoreThreshold coOccurrenceThreshold 10))
         (fun rs =>
            match rs with
            | _ :: _ =>
                bind (getMovieNameM movieNames movieID)
                     (fun name =>
                        bind (print (Top10Header name))
                             (fun _ =>
                                for_each rs
                                  (print_similar movieNames movieID)))
            | [] => print NoSimilarMovies
            end).
Proof.
  intros Hparse Hlong. rewrite main_unfold, Hparse.
  cbn [bind ret]. rewrite Hlong. cbn [bind ret app].
  destruct (bind _ _) as [tr res]. reflexivity.
Qed.

Lemma getMovieName_found (movieNames : list Names.row) (movieId : Z) :
  (exists e, In e movieNames /\ Names.movieID e = movieId) ->
  exists title, getMovieName movieNames movieId = Ok title.
Proof.
  intros [e [He Hid]]. unfold getMovieName.
  destruct (filter (fun r => Names.movieID r =? movieId) movieNames)
    as [|e' l] eqn:E; simpl; [|eauto].
  assert (Hin : In e (filter (fun r => Names.movieID r =? movieId)
                             movieNames)).
  { apply filter_In. split; [assumption|now apply Z.eqb_eq]. }
  rewrite E in Hin. contradiction.
Qed.

Lemma getMovieName_missing (movieNames : list Names.row) (movieId : Z) :
  (forall e, In e movieNames -> Names.movieID e <> movieId) ->
  getMovieName movieNames movieId = Raise IndexError.
Proof.
  intros Hnone. unfold getMovieName.
  rewrite filter_nil; [reflexivity|].
  intros e He. apply Z.eqb_neq. now apply Hnone.
Qed.

(** The loop over the results when every lookup succeeds. *)
Lemma for_each_lookups (movieNames : list Names.row) (movieID : Z)
    (rs : list (Sims.row D)) (titles : list string) :
  Forall2 (fun r t =>
             getMovieName movieNames (similarMovieID movieID r) = Ok t)
          rs titles ->
  for_each rs (print_similar movieNames movieID)
  = (result_events rs titles, Ok tt).
Proof.
  induction 1 as [|r t rs titles Hr _ IH]; [reflexivity|].
  cbn [for_each]. rewrite IH.
  unfold print_similar, getMovieNameM. rewrite Hr. reflexivity.
Qed.

Lemma lookups_exist (movieNames : list Names.row) (movieID : Z)
    (rs : list (Sims.row D)) :
  Forall (fun r => exists t,
            getMovieName movieNames (similarMovieID movieID r) = Ok t) rs ->
  exists titles,
    Forall2 (fun r t =>
               getMovieName movieNames (similarMovieID movieID r) = Ok t)
            rs titles.
Proof.
  induction 1 as [|r rs [t Ht] _ [titles IH]].
  - exists []. constructor.
  - exists (t :: titles). now constructor.
Qed.
End RunFacts.

(** X5.  Every row of the similarity table the script builds has
    [movie1 < movie2], and both its movies passed the quality filter (mean
    rating at least 3.0). *)
Theorem similarity_table_ordered_and_qualified
    {D : DoubleOps} (movies : list Movies.row) :
  Forall (fun r : Sims.row D =>
            Sims.movie1 r < Sims.movie2 r
            /\ In (Sims.movie1 r)
                  (map Good.movieID
                       (filterGoodMovies movies threshold_default))
            /\ In (Sims.movie2 r)
                  (map Good.movieID
                       (filterGoodMovies movies threshold_default)))
         (moviePairSimilarities movies).
Proof.
  apply Forall_forall. intros r Hr. now apply similarity_row_origin.
Qed.

(** X6.  Asking for a movie, by a number that fits in 64 bits, that did
    not pass the quality filter, rated or not, in the catalog or not, ends
    the run with the no-results message after the one query job. *)
Theorem unqualified_movie_has_no_results
    {D : DoubleOps} (movies : list Movies.row) (movieNames : list Names.row)
    (stdin : str) (movieID : Z) :
  py_int stdin = Ok movieID ->
  - 2 ^ 63 <= movieID < 2 ^ 63 ->
  ~ In movieID (map Good.movieID (filterGoodMovies movies threshold_default)) ->
  main movies movieNames stdin = ([Job; Out NoSimilarMovies], Ok tt).
Proof.
  intros Hparse Hlong Hout. apply java_long_spec in Hlong.
  rewrite (main_parsed movies movieNames stdin movieID Hparse Hlong).
  cbn [bind ret action].
  rewrite results_unqualified by assumption. reflexivity.
Qed.

(** X7.  In every result of a query on the script's similarity table, the
    movie the script reports as similar is the other movie of the row,
    never the queried movie itself. *)
Theorem similar_movie_is_the_other_one
    {D : DoubleOps} (movies : list Movies.row) (movieID : Z)
    (scoreThr pairsThr : double) (topK : nat) :
  Forall (fun r : Sims.row D =>
            similarMovieID movieID r <> movieID
            /\ ((Sims.movie1 r = movieID
                 /\ similarMovieID movieID r = Sims.movie2 r)
                \/ (Sims.movie2 r = movieID
                    /\ similarMovieID movieID r = Sims.movie1 r)))
         (results (moviePairSimilarities movies) movieID scoreThr pairsThr
                  topK).
Proof.
  apply Forall_forall. intros r Hr. apply in_results in Hr.
  destruct Hr as [Hin Htarget]. apply similarity_row_origin in Hin.
  destruct Hin as [Hlt _]. unfold similarMovieID.
  destruct (Z.eqb_spec (Sims.movie1 r) movieID) as [E|E]; simpl.
  - split; [lia|]. left. auto.
  - split; [assumption|]. right. destruct Htarget; [contradiction|auto].
Qed.

(** X8.  When the catalog has a row for every rated movie and the query
    has results, the run ends normally: after the query job it looks the
    queried movie up and prints the header, then for each result, in the
    order of the results, looks the other movie up and prints its line; at
    most ten result lines are printed. *)
Theorem complete_catalog_run
    {D : DoubleOps} (movies : list Movies.row) (movieNames : list Names.row)
    (stdin : str) (movieID : Z) :
  py_int stdin = Ok movieID ->
  (forall m, In m (map Movies.movieID movies) ->
             exists e, In e movieNames /\ Names.movieID e = m) ->
  let rs := results (moviePairSimilarities movies) movieID scoreThreshold
                    coOccurrenceThreshold 10 in
  rs <> [] ->
  exists (title : string) (titles : list string),
    getMovieName movieNames movieID = Ok title
    /\ Forall2 (fun r t =>
                  getMovieName movieNames (similarMovieID movieID r) = Ok t)
               rs titles
    /\ (length titles <= 10)%nat
    /\ main movies movieNames stdin
       = ([Job; Job; Out (Top10Header title)] ++ result_events rs titles,
          Ok tt).
Proof.
  intros Hparse Hcat rs Hrs.
  assert (Hrated : forall r, In r rs ->
            In (Sims.movie1 r) (map Movies.movieID movies)
            /\ In (Sims.movie2 r) (map Movies.movieID movies)
            /\ (Sims.movie1 r = movieID \/ Sims.movie2 r = movieID)).
  { intros r Hr. apply in_results in Hr. destruct Hr as [Hin Ht].
    apply similarity_movies_rated in Hin. tauto. }
  assert (Htitle : exists title, getMovieName movieNames movieID = Ok title).
  { destruct rs as [|r0 rs'] eqn:E; [contradiction|].
    destruct (Hrated r0 (or_introl eq_refl)) as [H1 [H2 Ht]].
    apply getMovieName_found, Hcat. destruct Ht as [<-|<-]; assumption. }
  destruct Htitle as [title Htitle].
  assert (Hall : Forall (fun r => exists t,
                   getMovieName movieNames (similarMovieID movieID r) = Ok t)
                   rs).
  { apply Forall_forall. intros r Hr.
    destruct (Hrated r Hr) as [H1 [H2 _]].
    apply getMovieName_found, Hcat. unfold similarMovieID.
    destruct (negb (Sims.movie1 r =? movieID)); assumption. }
  destruct (lookups_exist movieNames movieID rs Hall) as [titles Htitles].
  exists title, titles. split; [exact Htitle|]. split; [exact Htitles|].
  split.
  - rewrite <- (Forall2_length Htitles). unfold rs, results.
    apply firstn_le_length.
  - rewrite (main_parsed movies movieNames stdin movieID Hparse
               (results_java_long movies movieID _ _ _ Hrs)).
    cbn [bind ret action]. fold rs.
    rewrite (for_each_lookups movieNames movieID rs titles Htitles).
    unfold getMovieNameM. rewrite Htitle.
    destruct rs as [|r0 rs'] eqn:E; [contradiction|]. reflexivity.
Qed.

(** X9.  When the query has results but the catalog has no row for the
    queried movie, the run fails with [IndexError] in the first name
    lookup: two jobs have run and nothing has been printed. *)
Theorem missing_title_raises
    {D : DoubleOps} (movies : list Movies.row) (movieNames : list Names.row)
    (stdin : str) (movieID : Z) :
  py_int stdin = Ok movieID ->
  results (moviePairSimilarities movies) movieID scoreThreshold
          coOccurrenceThreshold 10 <> [] ->
  (forall e, In e movieNames -> Names.movieID e <> movieID) ->
  main movies movieNames stdin = ([Job; Job], Raise IndexError).
Proof.
  intros Hparse Hrs Hnone.
  rewrite (main_parsed movies movieNames stdin movieID Hparse
             (results_java_long movies movieID _ _ _ Hrs)).
  cbn [bind ret action]. unfold getMovieNameM.
  rewrite (getMovieName_missing movieNames movieID Hnone).
  destruct (results (moviePairSimilarities movies) movieID scoreThreshold
                    coOccurrenceThreshold 10); [contradiction|reflexivity].
Qed.

(** * Further properties of the query, the lookup and the filter *)

(** X10.  Raising the score threshold or the co-occurrence threshold never
    adds a candidate: the rows that pass the higher thresholds pass the
    lower ones. *)
Theorem filteredResults_antitone
    {D : DoubleOps} {O : DoubleOrder D} (sims : list (Sims.row D))
    (movieID : Z) (st1 st2 ct1 ct2 : double) :
  d_geb st2 st1 = true ->
  d_geb ct2 ct1 = true ->
  incl (filteredResults sims movieID st2 ct2)
       (filteredResults sims movieID st1 ct1).
Proof.
  intros Hs Hc r Hr. apply in_filteredResults in Hr.
  apply in_filteredResults.
  destruct Hr as [Hin [Ht [Hsc Hco]]]. repeat split; try assumption.
  - rewrite d_gtb_geb in *. apply negb_true_iff in Hsc. apply negb_true_iff.
    destruct (d_geb st1 (Sims.score r)) eqn:E; [|reflexivity].
    rewrite (d_geb_trans _ _ _ Hs E) in Hsc. discriminate.
  - rewrite d_gtb_geb in *. apply negb_true_iff in Hco. apply negb_true_iff.
    destruct (d_geb ct1 (d_of_long (Sims.numPairs r))) eqn:E; [|reflexivity].
    rewrite (d_geb_trans _ _ _ Hc E) in Hco. discriminate.
Qed.

(** X11.  In a catalog without repeated IDs, [getMovieName] returns a title
    exactly when the catalog holds the row of that ID and title. *)
Theorem getMovieName_unique_catalog
    (movieNames : list Names.row) (movieId : Z) (title : string) :
  NoDup (map Names.movieID movieNames) ->
  getMovieName movieNames movieId = Ok title
  <-> In (Names.mk movieId title) movieNames.
Proof.
  intros Hnd. unfold getMovieName. split.
  - destruct (filter (fun r => Names.movieID r =? movieId) movieNames)
      as [|e l] eqn:E; simpl; [discriminate|].
    intros Ht. injection Ht as <-.
    assert (Hin : In e (filter (fun r => Names.movieID r =? movieId)
                               movieNames)) by (rewrite E; now left).
    apply filter_In in Hin. destruct Hin as [He Hid].
    apply Z.eqb_eq in Hid. destruct e as [i t]. simpl in *. now subst.
  - intros Hin.
    assert (Hf : In (Names.mk movieId title)
                    (filter (fun r => Names.movieID r =? movieId)
                            movieNames)).
    { apply filter_In. split; [assumption|]. simpl. apply Z.eqb_refl. }
    destruct (filter (fun r => Names.movieID r =? movieId) movieNames)
      as [|e l] eqn:E; [contradiction|]. simpl.
    assert (He : In e (filter (fun r => Names.movieID r =? movieId)
                              movieNames)) by (rewrite E; now left).
    apply filter_In in He. destruct He as [He Hid]. apply Z.eqb_eq in Hid.
    f_equal. change title with (Names.movieTitle (Names.mk movieId title)).
    f_equal. apply (NoDup_key_inj Names.movieID movieNames); auto.
Qed.

Lemma sum_long_bounds (l : list Z) (lo hi : Z) :
  Forall (fun z => lo <= z <= hi) l ->
  lo * Z.of_nat (length l) <= sum_long l <= hi * Z.of_nat (length l).
Proof.
  unfold sum_long. induction 1 as [|z l Hz _ IH]; simpl length; simpl; lia.
Qed.

(** The exact mean of ratings between [lo] and [hi] lies between them. *)
Lemma arithmetic_mean_exact_bounds (l : list Z) (lo hi : Z) :
  l <> [] ->
  Forall (fun z => lo <= z <= hi) l ->
  (IZR lo <= arithmetic_mean (D := Exact) l <= IZR hi)%R.
Proof.
  intros Hne Hall. rewrite arithmetic_mean_exact.
  pose proof (sum_long_bounds l lo hi Hall) as [Hlo Hhi].
  assert (Hn : (0 < IZR (Z.of_nat (length l)))%R).
  { apply IZR_lt. destruct l; [contradiction|simpl length; lia]. }
  apply IZR_le in Hlo, Hhi. rewrite mult_IZR in Hlo, Hhi.
  split.
  - apply (Rmult_le_reg_r (IZR (Z.of_nat (length l)))); [assumption|].
    unfold Rdiv. rewrite Rmult_assoc, Rinv_l by lra. lra.
  - apply (Rmult_le_reg_r (IZR (Z.of_nat (length l)))); [assumption|].
    unfold Rdiv. rewrite Rmult_assoc, Rinv_l by lra. lra.
Qed.

Lemma item_ratings_nonempty (movies : list Movies.row) (id : Z) :
  In id (map Movies.movieID movies) -> item_ratings movies id <> [].
Proof.
  intros Hin Hnil. apply in_map_iff in Hin. destruct Hin as [m [Hid Hm]].
  assert (Hr : In (Movies.rating m) (item_ratings movies id)).
  { unfold item_ratings. apply in_map. apply filter_In.
    split; [assumption|now apply Z.eqb_eq]. }
  rewrite Hnil in Hr. contradiction.
Qed.

Lemma item_ratings_range (movies : list Movies.row) (id lo hi : Z) :
  Forall (fun m => lo <= Movies.rating m <= hi) movies ->
  Forall (fun z => lo <= z <= hi) (item_ratings movies id).
Proof.
  intros Hall. apply Forall_forall. intros z Hz. unfold item_ratings in Hz.
  apply in_map_iff in Hz. destruct Hz as [m [<- Hm]].
  apply filter_In in Hm. destruct Hm as [Hm _].
  rewrite Forall_forall in Hall. now apply Hall.
Qed.

(** X12.  With all ratings between [lo] and [hi], in exact arithmetic: every
    mean [filterGoodMovies] keeps lies between [lo] and [hi]; a threshold of
    at most [lo] keeps every rated movie, and a threshold above [hi] keeps
    none. *)
Theorem filterGoodMovies_rating_range
    (movies : list Movies.row) (lo hi : Z) (threshold : R) :
  Forall (fun m => lo <= Movies.rating m <= hi) movies ->
  Forall (fun g : Good.row Exact =>
            (IZR lo <= Good.avgRating g <= IZR hi)%R)
         (filterGoodMovies movies threshold)
  /\ ((threshold <= IZR lo)%R ->
      forall id, In id (map Movies.movieID movies) ->
                 In id (map Good.movieID
                            (filterGoodMovies (D := Exact) movies threshold)))
  /\ ((IZR hi < threshold)%R ->
      filterGoodMovies (D := Exact) movies threshold = []).
Proof.
  intros Hall.
  assert (Hmean : forall id, In id (map Movies.movieID movies) ->
            (IZR lo <= arithmetic_mean (D := Exact) (item_ratings movies id)
             <= IZR hi)%R).
  { intros id Hid. apply arithmetic_mean_exact_bounds.
    - now apply item_ratings_nonempty.
    - now apply item_ratings_range. }
  split; [|split].
  - apply Forall_forall. intros g Hg. apply in_filterGoodMovies in Hg.
    destruct Hg as [Hid [-> _]]. now apply Hmean.
  - intros Hle id Hid. apply qualified_iff. split; [assumption|].
    cbn [d_geb Exact]. apply Rgeb_true. pose proof (Hmean id Hid). lra.
  - intros Hlt.
    destruct (filterGoodMovies (D := Exact) movies threshold) as [|g l] eqn:E;
      [reflexivity|].
    assert (Hg : In g (filterGoodMovies (D := Exact) movies threshold))
      by (rewrite E; now left).
    apply in_filterGoodMovies in Hg. destruct Hg as [Hid [Havg Hge]].
    cbn [d_geb Exact] in Hge. apply Rgeb_true in Hge.
    pose proof (Hmean _ Hid) as Hm. rewrite <- Havg in Hm. lra.
Qed.

(** X13.  The join with [goodMovies] keeps every rating row of a movie that
    passed the filter, once each, and drops every row of the other
    movies. *)
Theorem ratings_keep_qualified_rows
    {D : DoubleOps} (movies : list Movies.row) (threshold : double)
    (u x : Z) :
  let goodMovies := filterGoodMovies movies threshold in
  (In x (map Good.movieID goodMovies) ->
   count_key u x (ratings_of movies goodMovies) = rating_rows movies u x)
  /\ (~ In x (map Good.movieID goodMovies) ->
      count_key u x (ratings_of movies goodMovies) = 0%nat).
Proof.
  intros goodMovies. split.
  - intros Hx. apply count_key_ratings_of; [|assumption].
    apply filterGoodMovies_NoDup.
  - intros Hx. unfold count_key. rewrite filter_nil; [reflexivity|].
    intros r Hr. apply in_ratings_of in Hr.
    destruct Hr as [m [_ [-> Hg]]]. unfold to_rating. simpl.
    destruct (Z.eqb_spec (Movies.movieID m) x) as [E|_];
      [now rewrite E in Hg|]. apply andb_false_r.
Qed.

(** * The support counts the co-rating users *)

Section SupportFacts.
Context {D : DoubleOps}.

Lemma count_key_absent (u x : Z) (R : list Ratings.row) :
  ~ In (u, x) (map rating_key R) -> count_key u x R = 0%nat.
Proof.
  intros Hn. unfold count_key. rewrite filter_nil; [reflexivity|].
  intros r Hr.
  destruct (Z.eqb_spec (Ratings.userID r) u) as [Eu|_]; [|reflexivity].
  destruct (Z.eqb_spec (Ratings.movieID r) x) as [Ex|_]; [|reflexivity].
  exfalso. apply Hn. apply in_map_iff. exists r. split; [|assumption].
  unfold rating_key. now rewrite Eu, Ex.
Qed.

(** With distinct interactions a user has one row for an item or none. *)
Lemma count_key_existsb (u x : Z) (R : list Ratings.row) :
  NoDup (map rating_key R) ->
  count_key u x R
  = if existsb (fun r2 => (Ratings.userID r2 =? u) && (Ratings.movieID r2 =? x))
               R
    then 1%nat else 0%nat.
Proof.
  induction R as [|r R IH]; intros Hnd; [reflexivity|].
  simpl in Hnd. apply NoDup_cons_iff in Hnd. destruct Hnd as [Hnotin Hnd].
  rewrite count_key_cons. cbn [existsb].
  destruct ((Ratings.userID r =? u) && (Ratings.movieID r =? x)) eqn:E.
  - apply andb_true_iff in E. destruct E as [Eu Ex].
    apply Z.eqb_eq in Eu, Ex. cbn [orb].
    rewrite count_key_absent; [reflexivity|].
    unfold rating_key in Hnotin. now rewrite Eu, Ex in Hnotin.
  - cbn [orb]. now apply IH.
Qed.

(** For [a < b], a joined pair of rows is an observation of the pair
    [(a, b)] exactly when its first row is for [a] and its second row is
    the same user's row for [b]. *)
Lemma pair_joined (r1 r2 : Ratings.row) (a b : Z) :
  a < b ->
  ((Ratings.userID r2 =? Ratings.userID r1)
   && (Ratings.movieID r2 >? Ratings.movieID r1))
  && ((Ratings.movieID r1 =? a) && (Ratings.movieID r2 =? b))
  = (Ratings.movieID r1 =? a)
    && ((Ratings.userID r2 =? Ratings.userID r1)
        && (Ratings.movieID r2 =? b)).
Proof.
  intros Hlt. rewrite Z.gtb_ltb.
  destruct (Z.eqb_spec (Ratings.userID r2) (Ratings.userID r1)),
           (Z.ltb_spec (Ratings.movieID r1) (Ratings.movieID r2)),
           (Z.eqb_spec (Ratings.movieID r1) a),
           (Z.eqb_spec (Ratings.movieID r2) b);
    cbn; try reflexivity; exfalso; lia.
Qed.

Lemma join_pair_count (L R : list Ratings.row) (a b : Z) :
  NoDup (map rating_key R) ->
  a < b ->
  length (filter (fun p : Ratings.row * Ratings.row =>
                    (Ratings.movieID (fst p) =? a)
                    && (Ratings.movieID (snd p) =? b))
            (join_on (fun r1 r2 =>
                        (Ratings.userID r2 =? Ratings.userID r1)
                        && (Ratings.movieID r2 >? Ratings.movieID r1)) L R))
  = length (filter (fun r1 =>
                      (Ratings.movieID r1 =? a)
                      && existsb (fun r2 =>
                                    (Ratings.userID r2 =? Ratings.userID r1)
                                    && (Ratings.movieID r2 =? b)) R)
                   L).
Proof.
  intros Hnd Hlt. unfold join_on.
  induction L as [|r1 L IH]; [reflexivity|].
  cbn [flat_map filter]. rewrite filter_app, length_app, IH. clear IH.
  rewrite filter_map_swap, length_map, filter_filter_and. cbn [fst snd].
  rewrite (filter_ext _ (fun r2 =>
             (Ratings.movieID r1 =? a)
             && ((Ratings.userID r2 =? Ratings.userID r1)
                 && (Ratings.movieID r2 =? b))))
    by (intros r2; now apply pair_joined).
  rewrite filter_guard.
  pose proof (count_key_existsb (Ratings.userID r1) b R Hnd) as Hc.
  unfold count_key in Hc.
  destruct (Ratings.movieID r1 =? a); cbn [andb length]; [|reflexivity].
  rewrite Hc.
  destruct (existsb (fun r2 => (Ratings.userID r2 =? Ratings.userID r1)
                               && (Ratings.movieID r2 =? b)) R);
    reflexivity.
Qed.

(** The users of distinct interactions with one item are distinct. *)
Lemma users_of_item_NoDup (R : list Ratings.row) (a : Z)
    (q : Ratings.row -> bool) :
  NoDup (map rating_key R) ->
  NoDup (map Ratings.userID
             (filter (fun r => (Ratings.movieID r =? a) && q r) R)).
Proof.
  induction R as [|r R IH]; intros Hnd; [constructor|].
  simpl in Hnd. apply NoDup_cons_iff in Hnd. destruct Hnd as [Hnotin Hnd].
  cbn [filter].
  destruct ((Ratings.movieID r =? a) && q r) eqn:E; [|now apply IH].
  cbn [map]. constructor; [|now apply IH].
  intros Hin. apply Hnotin. apply in_map_iff in Hin.
  destruct Hin as [r' [Hu Hr']]. apply filter_In in Hr'.
  destruct Hr' as [Hr' Hq]. apply andb_true_iff in E, Hq.
  destruct E as [Ea _]. destruct Hq as [Ea' _].
  apply Z.eqb_eq in Ea, Ea'.
  apply in_map_iff. exists r'. split; [|assumption].
  unfold rating_key. now rewrite Hu, Ea, Ea'.
Qed.
End SupportFacts.

(** X14.  When the ratings hold at most one row per (user, item), the
    [numPairs] of every row of the similarity table is the number of users
    who rated both movies of the row (among the ratings of the movies that
    passed the filter), each user counted once. *)
Theorem numPairs_counts_co_raters
    {D : DoubleOps} (movies : list Movies.row) (threshold : double) :
  one_row_per_interaction movies ->
  let ratings := ratings_of movies (filterGoodMovies movies threshold) in
  Forall (fun r : Sims.row D =>
            Sims.numPairs r
            = Z.of_nat (length (co_raters ratings (Sims.movie1 r)
                                          (Sims.movie2 r)))
            /\ NoDup (co_raters ratings (Sims.movie1 r) (Sims.movie2 r)))
         (computeCosineSimilarity (moviePairs ratings)).
Proof.
  intros Hone ratings.
  assert (Hnd : NoDup (map rating_key ratings)).
  { apply ratings_of_NoDup; [apply filterGoodMovies_NoDup|assumption]. }
  apply Forall_forall. intros r Hr.
  apply in_computeCosineSimilarity in Hr. destruct Hr as [Hk Hr].
  assert (Hlt : Sims.movie1 r < Sims.movie2 r).
  { apply in_map_iff in Hk. destruct Hk as [p [Hp Hin]].
    pose proof (moviePairs_ordered ratings) as Hord.
    rewrite Forall_forall in Hord. specialize (Hord p Hin).
    unfold Pairs.key, Sims.key in Hp. injection Hp as <- <-. exact Hord. }
  split.
  - rewrite Hr at 1. cbn [Sims.numPairs emitted_row Sims.key fst snd].
    f_equal. unfold co_raters, observations, moviePairs.
    rewrite filter_map_swap, !length_map. cbn [Pairs.movie1 Pairs.movie2].
    now apply join_pair_count.
  - unfold co_raters. now apply users_of_item_NoDup.
Qed.

(** * Further properties of the reading of the movie ID *)

Lemma digit_of_spec (c d : Z) :
  digit_of c = Some d ->
  exists z, In z decimal_zeros /\ z <= c <= z + 9 /\ d = c - z.
Proof.
  unfold digit_of.
  destruct (find (fun z => (z <=? c) && (c <=? z + 9)) decimal_zeros)
    as [z|] eqn:E; [|discriminate].
  intros H. injection H as <-. apply find_some in E.
  destruct E as [Hin Hb]. apply andb_true_iff in Hb.
  rewrite !Z.leb_le in Hb. exists z. tauto.
Qed.

(** The ASCII digits are the only decimal digits below code point 1632. *)
Lemma decimal_zeros_split :
  Forall (fun z => z = 48 \/ 1632 <= z) decimal_zeros.
Proof. unfold decimal_zeros. forall_list; lia. Qed.

Lemma digit_code (c d : Z) :
  digit_of c = Some d -> 0 <= d <= 9 /\ (48 <= c <= 57 \/ 1632 <= c).
Proof.
  intros Hd. apply digit_of_spec in Hd. destruct Hd as [z [Hz [Hc ->]]].
  pose proof decimal_zeros_split as Hs. rewrite Forall_forall in Hs.
  specialize (Hs z Hz). lia.
Qed.

Lemma digit_int_char (c d : Z) : digit_of c = Some d -> int_char c = true.
Proof.
  intros Hd. unfold int_char, is_digit. rewrite Hd.
  now rewrite orb_true_r.
Qed.

Lemma space_int_char (c : Z) : is_space c = true -> int_char c = true.
Proof. intros Hs. unfold int_char. now rewrite Hs. Qed.

Lemma lstrip_chars (s : str) :
  forallb int_char (lstrip s) = true -> forallb int_char s = true.
Proof.
  induction s as [|c r IH]; [auto|]. cbn [lstrip].
  destruct (is_space c) eqn:E; [|auto].
  intros H. cbn [forallb]. rewrite (space_int_char c E). now apply IH.
Qed.

Lemma lstrip_empty_chars (s : str) :
  lstrip s = [] -> forallb int_char s = true.
Proof.
  intros H. apply lstrip_chars. now rewrite H.
Qed.

(** What [digits_tail] reads is made of digits and underscores. *)
Lemma digits_tail_chars (k : nat) :
  forall (s : str) (acc count n count' : Z) (rest : str),
    (length s <= k)%nat ->
    digits_tail acc count s = Ok (n, count', rest) ->
    forallb int_char rest = true ->
    forallb int_char s = true.
Proof.
  induction k as [|k IH]; intros s acc count n count' rest Hlen Hd Hrest.
  - destruct s; [|simpl in Hlen; lia]. simpl in Hd. now inversion Hd; subst.
  - destruct s as [|c r]; [simpl in Hd; now inversion Hd; subst|].
    cbn [digits_tail] in Hd. cbn [forallb]. simpl in Hlen.
    destruct (digit_of c) as [d|] eqn:Ec.
    + rewrite (digit_int_char c d Ec).
      apply (IH r (10 * acc + d) (count + 1) n count' rest); auto. lia.
    + destruct (c =? 95) eqn:Eu.
      * destruct r as [|c' r']; [discriminate|].
        destruct (digit_of c') as [d|] eqn:Ec'; [|discriminate].
        assert (Hc : int_char c = true).
        { unfold int_char. rewrite Eu. now rewrite !orb_true_r. }
        rewrite Hc. cbn [forallb andb].
        rewrite (digit_int_char c' d Ec'). simpl in Hlen.
        apply (IH r' (10 * acc + d) (count + 1) n count' rest); auto. lia.
      * inversion Hd; subst. exact Hrest.
Qed.

(** [digits_tail] raises nothing but [ValueError]. *)
Lemma digits_tail_raises (k : nat) :
  forall (s : str) (acc count : Z) (e : exn),
    (length s <= k)%nat ->
    digits_tail acc count s = Raise e -> e = ValueError.
Proof.
  induction k as [|k IH]; intros s acc count e Hlen Hd.
  - destruct s; [discriminate|simpl in Hlen; lia].
  - destruct s as [|c r]; [discriminate|]. cbn [digits_tail] in Hd.
    simpl in Hlen.
    destruct (digit_of c) as [d|];
      [apply (IH r (10 * acc + d) (count + 1) e); [lia|exact Hd]|].
    destruct (c =? 95); [|discriminate].
    destruct r as [|c' r']; [now inversion Hd|].
    destruct (digit_of c') as [d|]; [|now inversion Hd].
    simpl in Hlen. apply (IH r' (10 * acc + d) (count + 1) e); [lia|exact Hd].
Qed.

(** The number after the sign, as [py_int] reads it; [f] applies the
    sign. *)
Lemma unsigned_chars (t : str) (f : Z -> Z) (m : Z) :
  match t with
  | c :: r =>
      match digit_of c with
      | Some d =>
          match digits_tail d 1 r with
          | Ok (n, count, rest) =>
              match lstrip rest with
              | [] =>
                  if max_str_digits <? count then Raise ValueError
                  else Ok (f n)
              | _ :: _ => Raise ValueError
              end
          | Raise e => Raise e
          end
      | None => Raise ValueError
      end
  | [] => Raise ValueError
  end = Ok m ->
  forallb int_char t = true.
Proof.
  destruct t as [|c r]; [discriminate|]. cbn [forallb].
  destruct (digit_of c) as [d|] eqn:Ec; [|discriminate].
  rewrite (digit_int_char c d Ec).
  destruct (digits_tail d 1 r) as [[[n count] rest]|e] eqn:Ed;
    [|discriminate].
  destruct (lstrip rest) eqn:El; [|discriminate]. intros _.
  apply (digits_tail_chars (length r) r d 1 n count rest);
    [lia|assumption|]. now apply lstrip_empty_chars.
Qed.

(** A line [int] accepts holds nothing but white space, a sign, digits and
    underscores. *)
Lemma py_int_chars (s : str) (n : Z) :
  py_int s = Ok n -> forallb int_char s = true.
Proof.
  unfold py_int. intros H. apply lstrip_chars.
  destruct (lstrip s) as [|c r] eqn:El; [discriminate|].
  destruct (c =? 43) eqn:Ep; [|destruct (c =? 45) eqn:Em];
    cbn [fst snd] in H.
  - apply (unsigned_chars r (fun z => z) n) in H. cbn [forallb].
    unfold int_char at 1. rewrite Ep, H. now rewrite !orb_true_r.
  - apply (unsigned_chars r Z.opp n) in H. cbn [forallb].
    unfold int_char at 1. rewrite Em, H. now rewrite !orb_true_r.
  - now apply (unsigned_chars (c :: r) (fun z => z) n) in H.
Qed.

(** [int] raises nothing but [ValueError]. *)
Lemma py_int_raises (s : str) (e : exn) :
  py_int s = Raise e -> e = ValueError.
Proof.
  unfold py_int. intros H.
  destruct (snd _) as [|c r]; [now inversion H|].
  destruct (digit_of c) as [d|]; [|now inversion H].
  destruct (digits_tail d 1 r) as [[[n0 count] rest]|e0] eqn:Ed.
  - destruct (lstrip rest); [|now inversion H].
    destruct (max_str_digits <? count); [now inversion H|discriminate].
  - inversion H; subst. now apply (digits_tail_raises (length r) r d 1).
Qed.

(** The three ways the reading of the line can go. *)
Section ReadingFacts.
Context {D : DoubleOps}.

Lemma main_invalid (movies : list Movies.row) (movieNames : list Names.row)
    (stdin : str) (e : exn) :
  py_int stdin = Raise e ->
  main movies movieNames stdin = ([Out InvalidInput], Raise NameError).
Proof.
  intros Hparse. pose proof (py_int_raises stdin e Hparse). subst e.
  rewrite main_unfold, Hparse. reflexivity.
Qed.

Lemma main_too_large (movies : list Movies.row)
    (movieNames : list Names.row) (stdin : str) (movieID : Z) :
  py_int stdin = Ok movieID ->
  java_long movieID = false ->
  main movies movieNames stdin = ([], Raise Py4JError).
Proof.
  intros Hparse Hlong. rewrite main_unfold, Hparse. cbn [bind ret].
  rewrite Hlong. reflexivity.
Qed.

Lemma main_runs_query (movies : list Movies.row)
    (movieNames : list Names.row) (stdin : str) (movieID : Z) :
  py_int stdin = Ok movieID ->
  java_long movieID = true ->
  exists tr res, main movies movieNames stdin = (Job :: tr, res).
Proof.
  intros Hparse Hlong.
  rewrite (main_parsed movies movieNames stdin movieID Hparse Hlong).
  cbn [bind action].
  destruct (match results (moviePairSimilarities movies) movieID
                    scoreThreshold coOccurrenceThreshold 10 with
            | [] => _ | _ :: _ => _ end) as [tr res].
  now exists tr, res.
Qed.
End ReadingFacts.

(** X15.  A line that holds any character other than white space, a sign,
    a decimal digit or an underscore is reported as invalid input, and the
    handler then fails on [sys.exit]: the script never imports [sys], so
    the run ends with [NameError] after the message, no query having
    run. *)
Theorem foreign_character_is_invalid_input
    {D : DoubleOps} (movies : list Movies.row) (movieNames : list Names.row)
    (stdin : str) :
  forallb int_char stdin = false ->
  main movies movieNames stdin = ([Out InvalidInput], Raise NameError).
Proof.
  intros Hbad. destruct (py_int stdin) as [n|e] eqn:E.
  - apply py_int_chars in E. congruence.
  - now apply (main_invalid movies movieNames stdin e).
Qed.

Lemma unicode_spaces_no_digit :
  forallb (fun c => negb (is_digit c)) unicode_spaces = true.
Proof. vm_compute. reflexivity. Qed.

Lemma digit_not_space (c : Z) : is_digit c = true -> is_space c = false.
Proof.
  unfold is_digit. destruct (digit_of c) as [d|] eqn:Ed; [|discriminate].
  intros _. destruct (digit_code c d Ed) as [_ Hc]. unfold is_space.
  destruct (Z.ltb_spec c 127) as [Hlt|Hge].
  - apply orb_false_iff. split.
    + apply andb_false_iff. right. apply Z.leb_gt. lia.
    + apply Z.eqb_neq. lia.
  - destruct (existsb (Z.eqb c) unicode_spaces) eqn:Es; [|reflexivity].
    apply existsb_exists in Es. destruct Es as [x [Hx Hcx]].
    apply Z.eqb_eq in Hcx. subst x.
    pose proof unicode_spaces_no_digit as Hn.
    rewrite forallb_forall in Hn. specialize (Hn c Hx).
    unfold is_digit in Hn. rewrite Ed in Hn. discriminate.
Qed.

Lemma digit_not_sign (c : Z) :
  is_digit c = true -> (c =? 43) = false /\ (c =? 45) = false.
Proof.
  unfold is_digit. destruct (digit_of c) as [d|] eqn:Ed; [|discriminate].
  intros _. destruct (digit_code c d Ed) as [_ Hc].
  split; apply Z.eqb_neq; lia.
Qed.

Lemma digits_tail_digits (s : str) (acc count : Z) :
  forallb is_digit s = true ->
  digits_tail acc count s
  = Ok (decimal_value acc s, count + Z.of_nat (length s), []).
Proof.
  revert acc count.
  induction s as [|c r IH]; intros acc count Hs.
  - simpl. now rewrite Z.add_0_r.
  - cbn [forallb] in Hs. apply andb_true_iff in Hs.
    destruct Hs as [Hc Hr]. unfold is_digit in Hc.
    cbn [digits_tail decimal_value].
    destruct (digit_of c) as [d|]; [|discriminate].
    rewrite (IH _ _ Hr).
    replace (count + 1 + Z.of_nat (length r))
      with (count + Z.of_nat (length (c :: r))) by (simpl length; lia).
    reflexivity.
Qed.

Lemma decimal_value_lower (s : str) (acc : Z) :
  0 <= acc -> 0 <= decimal_value acc s.
Proof.
  revert acc. induction s as [|c r IH]; intros acc Hacc; [assumption|].
  cbn [decimal_value].
  destruct (digit_of c) as [d|] eqn:Ed; [|assumption].
  destruct (digit_code c d Ed) as [Hd _]. apply IH. lia.
Qed.

(** [int] on a nonempty line of decimal digits. *)
Lemma py_int_digits (s : str) :
  s <> [] ->
  forallb is_digit s = true ->
  py_int s = if max_str_digits <? Z.of_nat (length s)
             then Raise ValueError
             else Ok (decimal_value 0 s).
Proof.
  intros Hne Hs. destruct s as [|c r]; [contradiction|].
  cbn [forallb] in Hs. apply andb_true_iff in Hs.
  destruct Hs as [Hc Hr].
  pose proof (digit_not_space c Hc) as Hsp.
  destruct (digit_not_sign c Hc) as [Hp Hm].
  unfold py_int. cbn [lstrip]. rewrite Hsp, Hp, Hm. cbn [fst snd].
  cbn [decimal_value]. unfold is_digit in Hc.
  destruct (digit_of c) as [d|]; [|discriminate].
  rewrite (digits_tail_digits r d 1 Hr). cbn [lstrip].
  replace (1 + Z.of_nat (length r)) with (Z.of_nat (length (c :: r)))
    by (simpl length; lia).
  reflexivity.
Qed.

(** X16.  A nonempty line of decimal digits is a movie ID only up to 4300
    digits.  With at most 4300 digits [int] returns the number the digits
    denote, which is not negative, and the line is never reported as
    invalid: the query job runs when the number is below 2^63, and the run
    ends with [Py4JError] before any job otherwise.  With more than 4300
    digits the line is reported as invalid input, as a line without a
    number is. *)
Theorem digit_line_outcomes
    {D : DoubleOps} (movies : list Movies.row) (movieNames : list Names.row)
    (stdin : str) :
  stdin <> [] ->
  forallb is_digit stdin = true ->
  let n := decimal_value 0 stdin in
  (Z.of_nat (length stdin) <= 4300 ->
   py_int stdin = Ok n
   /\ 0 <= n
   /\ (n < 2 ^ 63 ->
       exists tr res, main movies movieNames stdin = (Job :: tr, res))
   /\ (2 ^ 63 <= n ->
       main movies movieNames stdin = ([], Raise Py4JError)))
  /\ (4300 < Z.of_nat (length stdin) ->
      main movies movieNames stdin = ([Out InvalidInput], Raise NameError)).
Proof.
  intros Hne Hs n. pose proof (py_int_digits stdin Hne Hs) as Hint.
  fold n in Hint. unfold max_str_digits in Hint.
  assert (Hpos : 0 <= n) by (apply decimal_value_lower; lia).
  split.
  - intros Hlen.
    destruct (Z.ltb_spec 4300 (Z.of_nat (length stdin))) as [Hgt|_]; [lia|].
    split; [exact Hint|]. split; [exact Hpos|]. split.
    + intros Hsmall.
      apply (main_runs_query movies movieNames stdin n Hint).
      apply java_long_spec. lia.
    + intros Hbig.
      apply (main_too_large movies movieNames stdin n Hint).
      destruct (java_long n) eqn:E; [|reflexivity].
      apply java_long_spec in E. lia.
  - intros Hlen.
    destruct (Z.ltb_spec 4300 (Z.of_nat (length stdin))) as [_|Hle]; [|lia].
    now apply (main_invalid movies movieNames stdin ValueError).
Qed.

(** * Every run of the script *)

Section OutcomeFacts.
Context {D : DoubleOps}.

Lemma getMovieName_raises (movieNames : list Names.row) (movieId : Z)
    (e : exn) :
  getMovieName movieNames movieId = Raise e -> e = IndexError.
Proof.
  unfold getMovieName. destruct (map _ _); intros H; now inversion H.
Qed.

(** The loop stops at the first result whose name lookup fails. *)
Lemma for_each_stops (movieNames : list Names.row) (movieID : Z)
    (pre post : list (Sims.row D)) (r : Sims.row D) (titles : list string) :
  Forall2 (fun r t =>
             getMovieName movieNames (similarMovieID movieID r) = Ok t)
          pre titles ->
  getMovieName movieNames (similarMovieID movieID r) = Raise IndexError ->
  for_each (pre ++ r :: post) (print_similar movieNames movieID)
  = (result_events pre titles ++ [Job], Raise IndexError).
Proof.
  intros Hpre Hr.
  induction Hpre as [|r0 t pre titles Hr0 _ IH]; cbn [app for_each].
  - unfold print_similar, getMovieNameM. rewrite Hr. reflexivity.
  - rewrite IH. unfold print_similar, getMovieNameM. rewrite Hr0.
    reflexivity.
Qed.

(** What the loop over the results can do. *)
Lemma for_each_outcome (movieNames : list Names.row) (movieID : Z)
    (rs : list (Sims.row D)) :
  let run := for_each rs (print_similar movieNames movieID) in
  (snd run = Ok tt \/ snd run = Raise IndexError)
  /\ (jobs (fst run) <= length rs)%nat
  /\ (length (printed (fst run)) <= length rs)%nat
  /\ Forall loop_event (fst run).
Proof.
  induction rs as [|r rs IH]; cbn [for_each].
  - simpl. auto.
  - cbv zeta in IH. destruct IH as [Hres [Hj [Hp Hev]]].
    destruct (for_each rs (print_similar movieNames movieID)) as [tr res].
    unfold print_similar, getMovieNameM.
    destruct (getMovieName movieNames (similarMovieID movieID r))
      as [t|e] eqn:E.
    + unfold jobs, printed in *. simpl in *.
      repeat split; try assumption; try lia.
      repeat constructor. assumption.
    + apply getMovieName_raises in E. subst e. unfold jobs, printed.
      simpl. repeat split; auto; try lia. repeat constructor.
Qed.

(** What the run can do once the line is parsed to a Java [long]. *)
Lemma parsed_run_outcome (movies : list Movies.row)
    (movieNames : list Names.row) (stdin : str) (movieID : Z) :
  py_int stdin = Ok movieID ->
  java_long movieID = true ->
  let run := main movies movieNames stdin in
  (snd run = Ok tt \/ snd run = Raise IndexError)
  /\ (exists tr, fst run = Job :: tr)
  /\ (jobs (fst run) <= 12)%nat
  /\ (length (printed (fst run)) <= 11)%nat
  /\ ~ In (Out InvalidInput) (fst run)
  /\ (In (Out NoSimilarMovies) (fst run) ->
      run = ([Job; Out NoSimilarMovies], Ok tt)).
Proof.
  intros Hparse Hlong. cbv zeta.
  rewrite (main_parsed movies movieNames stdin movieID Hparse Hlong).
  cbn [bind ret action].
  pose proof (firstn_le_length 10
                (sort_desc (filteredResults (moviePairSimilarities movies)
                              movieID scoreThreshold
                              coOccurrenceThreshold))) as Hlen.
  fold (results (moviePairSimilarities movies) movieID scoreThreshold
                coOccurrenceThreshold 10) in Hlen.
  destruct (results (moviePairSimilarities movies) movieID scoreThreshold
                    coOccurrenceThreshold 10) as [|r0 rs] eqn:Ers.
  - unfold jobs, printed. simpl.
    repeat split; try lia; auto.
    + now exists [Out NoSimilarMovies].
    + intros [H|[H|[]]]; discriminate.
  - unfold getMovieNameM.
    destruct (getMovieName movieNames movieID) as [title|e] eqn:Etitle.
    + cbn [bind print].
      pose proof (for_each_outcome movieNames movieID (r0 :: rs)) as Hloop.
      cbv zeta in Hloop.
      destruct (for_each (r0 :: rs) (print_similar movieNames movieID))
        as [tr res].
      destruct Hloop as [Hres [Hj [Hp Hev]]].
      unfold jobs, printed in *. simpl in *.
      rewrite Forall_forall in Hev.
      repeat split; try lia; auto.
      * eexists. reflexivity.
      * intros [H|[H|[H|H]]]; try discriminate.
        apply Hev in H. contradiction.
      * intros [H|[H|[H|H]]]; try discriminate.
        apply Hev in H. contradiction.
    + apply getMovieName_raises in Etitle. subst e.
      unfold jobs, printed. simpl.
      repeat split; try lia; auto.
      * eexists. reflexivity.
      * intros [H|[H|[]]]; discriminate.
      * intros [H|[H|[]]]; discriminate.
Qed.
End OutcomeFacts.

(** C6, as amended.  A line that [int] cannot parse is reported as invalid
    input: the run prints that message and nothing else, executes no Spark
    action, and does not end normally.  A line that [int] parses is never
    reported as invalid input, whatever the number.  When the number does
    not fit in 64 bits, the run fails while it builds the filter, before
    any job and without a message.  Otherwise the query job runs, and when
    the number is the ID of no rated movie the run ends with the
    no-results message, as it does for a rated movie without similar
    movies. *)
Theorem only_unparsable_input_is_rejected
    {D : DoubleOps} (movies : list Movies.row) (movieNames : list Names.row)
    (stdin : str) :
  (py_int stdin = Raise ValueError ->
   fst (main movies movieNames stdin) = [Out InvalidInput]
   /\ snd (main movies movieNames stdin) <> Ok tt)
  /\ (forall movieID : Z,
        py_int stdin = Ok movieID ->
        ~ In (Out InvalidInput) (fst (main movies movieNames stdin))
        /\ (movieID < - 2 ^ 63 \/ 2 ^ 63 <= movieID ->
            main movies movieNames stdin = ([], Raise Py4JError))
        /\ (- 2 ^ 63 <= movieID < 2 ^ 63 ->
            exists tr res,
              main movies movieNames stdin = (Job :: tr, res))
        /\ (- 2 ^ 63 <= movieID < 2 ^ 63 ->
            ~ In movieID (map Movies.movieID movies) ->
            main movies movieNames stdin
            = ([Job; Out NoSimilarMovies], Ok tt))).
Proof.
  split.
  - intros Hparse.
    rewrite (main_invalid movies movieNames stdin ValueError Hparse).
    split; [reflexivity|discriminate].
  - intros movieID Hparse.
    assert (Hbig : movieID < - 2 ^ 63 \/ 2 ^ 63 <= movieID ->
                   main movies movieNames stdin = ([], Raise Py4JError)).
    { intros Hout.
      apply (main_too_large movies movieNames stdin movieID Hparse).
      destruct (java_long movieID) eqn:E; [|reflexivity].
      apply java_long_spec in E. lia. }
    split; [|split; [exact Hbig|split]].
    + destruct (java_long movieID) eqn:E.
      * pose proof (parsed_run_outcome movies movieNames stdin movieID
                      Hparse E) as H.
        cbv zeta in H. tauto.
      * rewrite Hbig; [intros []|].
        destruct (Z.lt_ge_cases movieID (- 2 ^ 63)) as [Hlo|Hlo];
          [now left|].
        destruct (Z.lt_ge_cases movieID (2 ^ 63)) as [Hhi|Hhi];
          [|now right].
        assert (Ht : java_long movieID = true)
          by (apply java_long_spec; lia).
        congruence.
    + intros Hlong. apply java_long_spec in Hlong.
      now apply (main_runs_query movies movieNames stdin movieID).
    + intros Hlong Hout. apply java_long_spec in Hlong.
      rewrite (main_parsed movies movieNames stdin movieID Hparse Hlong).
      cbn [bind ret action].
      rewrite results_unrated by assumption. reflexivity.
Qed.

(** X17.  When the queried movie has a title but the catalog has no row
    for the similar movie of one of the results, the run prints the header
    and the lines of the results before that one, then fails with
    [IndexError] in the lookup: the later results are never printed. *)
Theorem missing_similar_title_stops_the_listing
    {D : DoubleOps} (movies : list Movies.row) (movieNames : list Names.row)
    (stdin : str) (movieID : Z) (title : string)
    (pre post : list (Sims.row D)) (r : Sims.row D) (titles : list string) :
  py_int stdin = Ok movieID ->
  results (moviePairSimilarities movies) movieID scoreThreshold
          coOccurrenceThreshold 10 = pre ++ r :: post ->
  getMovieName movieNames movieID = Ok title ->
  Forall2 (fun r t =>
             getMovieName movieNames (similarMovieID movieID r) = Ok t)
          pre titles ->
  (forall e, In e movieNames ->
             Names.movieID e <> similarMovieID movieID r) ->
  main movies movieNames stdin
  = ([Job; Job; Out (Top10Header title)]
     ++ result_events pre titles ++ [Job],
     Raise IndexError).
Proof.
  intros Hparse Hrs Htitle Hpre Hnone.
  assert (Hlong : java_long movieID = true).
  { apply (results_java_long movies movieID scoreThreshold
             coOccurrenceThreshold 10).
    rewrite Hrs. now destruct pre. }
  rewrite (main_parsed movies movieNames stdin movieID Hparse Hlong).
  cbn [bind ret action]. rewrite Hrs.
  rewrite (for_each_stops movieNames movieID pre post r titles Hpre
             (getMovieName_missing movieNames _ Hnone)).
  unfold getMovieNameM. rewrite Htitle.
  destruct pre; reflexivity.
Qed.

(** X18.  Whatever the tables and the line read: a [ValueError] never
    escapes; the run executes at most twelve Spark jobs and prints at most
    eleven lines; it ends with [NameError] exactly when all it did was
    print the invalid-input message, and with [Py4JError] exactly when it
    did nothing at all; no job has run exactly in these two cases; and the
    no-results message is only ever printed alone, after the one query
    job, in a run that ends normally. *)
Theorem run_outcomes
    {D : DoubleOps} (movies : list Movies.row) (movieNames : list Names.row)
    (stdin : str) :
  let run := main movies movieNames stdin in
  snd run <> Raise ValueError
  /\ (jobs (fst run) <= 12)%nat
  /\ (length (printed (fst run)) <= 11)%nat
  /\ (snd run = Raise NameError <-> fst run = [Out InvalidInput])
  /\ (snd run = Raise Py4JError <-> fst run = [])
  /\ (jobs (fst run) = 0%nat
      <-> snd run = Raise NameError \/ snd run = Raise Py4JError)
  /\ (In (Out NoSimilarMovies) (fst run) ->
      run = ([Job; Out NoSimilarMovies], Ok tt)).
Proof.
  cbv zeta. destruct (py_int stdin) as [movieID|e] eqn:Eparse.
  - destruct (java_long movieID) eqn:Elong.
    + pose proof (parsed_run_outcome movies movieNames stdin movieID
                    Eparse Elong) as H.
      cbv zeta in H.
      destruct H as [Hres [[tr Htr] [Hj [Hp [_ Hno]]]]].
      rewrite Htr in *. unfold jobs in *. simpl in *.
      repeat split; try assumption; try discriminate;
        try (destruct Hres as [-> | ->]; discriminate).
      intros [H|H]; destruct Hres as [E|E]; rewrite E in H; discriminate.
    + rewrite (main_too_large movies movieNames stdin movieID Eparse Elong).
      unfold jobs, printed. simpl.
      repeat split; try discriminate; try lia; auto; try contradiction.
  - rewrite (main_invalid movies movieNames stdin e Eparse).
    unfold jobs, printed. simpl.
    repeat split; try discriminate; try lia; auto.
    intros [H|[]]. discriminate.
Qed.

(** * The whole pipeline and the order of the rating rows *)

Section OrderFacts.
Context {D : DoubleOps}.

Lemma nodup_permutation {A : Type} (dec : forall x y : A, {x = y} + {x <> y})
    (xs ys : list A) (Hxy : Permutation xs ys) :
  Permutation (nodup dec xs) (nodup dec ys).
Proof.
  apply NoDup_Permutation; try apply NoDup_nodup.
  intros k. rewrite !nodup_In.
  split; apply Permutation_in; [exact Hxy|symmetry; exact Hxy].
Qed.

Lemma join_on_perm {A B : Type} (cond : A -> B -> bool)
    (l l' : list A) (r r' : list B) :
  Permutation l l' -> Permutation r r' ->
  Permutation (join_on cond l r) (join_on cond l' r').
Proof.
  intros Hl Hr. unfold join_on.
  transitivity (flat_map (fun a => map (pair a) (filter (cond a) r)) l').
  - now apply Permutation_flat_map.
  - clear Hl. induction l' as [|a l' IH]; simpl; [constructor|].
    apply Permutation_app; [|exact IH].
    apply Permutation_map. now apply filter_perm.
Qed.

Lemma filterGoodMovies_perm (movies movies' : list Movies.row)
    (threshold : double) :
  (forall l l' : list Z, Permutation l l' -> avg_double l = avg_double l') ->
  Permutation movies movies' ->
  Permutation (filterGoodMovies movies threshold)
              (filterGoodMovies movies' threshold).
Proof.
  intros Havg Hp. unfold filterGoodMovies. apply filter_perm.
  rewrite !movieAverages_rows.
  rewrite (map_ext _ (fun id => Good.mk D id
                        (arithmetic_mean (item_ratings movies' id)))).
  - apply Permutation_map, nodup_permutation. now apply Permutation_map.
  - intros id. f_equal. apply (Havg (item_ratings movies id)).
    unfold item_ratings. apply Permutation_map. now apply filter_perm.
Qed.
End OrderFacts.

(** X19.  In an arithmetic in which the mean of a column does not depend
    on the order of its cells (the exact one, for instance), the whole
    similarity table does not depend on the order of the rating rows:
    permuting the rows of the ratings permutes the rows of the table. *)
Theorem moviePairSimilarities_order_independent
    {D : DoubleOps} (movies movies' : list Movies.row) :
  (forall l l' : list Z, Permutation l l' -> avg_double l = avg_double l') ->
  Permutation movies movies' ->
  Permutation (moviePairSimilarities (D := D) movies)
              (moviePairSimilarities movies').
Proof.
  intros Havg Hp. unfold moviePairSimilarities.
  assert (Hr : Permutation
                 (ratings_of movies (filterGoodMovies movies threshold_default))
                 (ratings_of movies'
                    (filterGoodMovies movies' threshold_default))).
  { unfold ratings_of. apply Permutation_map, join_on_perm;
      [assumption|now apply filterGoodMovies_perm]. }
  assert (Hpairs : Permutation
                     (moviePairs (ratings_of movies
                        (filterGoodMovies movies threshold_default)))
                     (moviePairs (ratings_of movies'
                        (filterGoodMovies movies' threshold_default)))).
  { unfold moviePairs, pairJoin.
    apply Permutation_map, join_on_perm; assumption. }
  rewrite !computeCosineSimilarity_rows.
  rewrite (map_ext _ _ (fun k => emitted_row_perm _ _ k Hpairs)).
  apply Permutation_map, nodup_perm. now apply Permutation_map.
Qed.

(** * The size of the self-join *)

Section SizeFacts.

Lemma length_join_on {A B : Type} (cond : A -> B -> bool) (l : list A)
    (r : list B) :
  length (join_on cond l r)
  = list_sum (map (fun a => length (filter (cond a) r)) l).
Proof.
  unfold join_on. induction l as [|a l IH]; simpl; [reflexivity|].
  now rewrite length_app, length_map, IH.
Qed.

(** Counting the pairs of a relation by rows or by columns. *)
Lemma double_count {A B : Type} (P : A -> B -> bool) (l : list A)
    (m : list B) :
  list_sum (map (fun a => length (filter (P a) m)) l)
  = list_sum (map (fun b => length (filter (fun a => P a b) l)) m).
Proof.
  induction l as [|a l IH]; simpl.
  - induction m as [|b m IHm]; simpl; [reflexivity|exact IHm].
  - rewrite IH. clear IH. induction m as [|b m IHm]; simpl; [reflexivity|].
    rewrite <- IHm. destruct (P a b); simpl; lia.
Qed.

Lemma list_sum_map_add {A : Type} (f g : A -> nat) (l : list A) :
  list_sum (map (fun a => (f a + g a)%nat) l)
  = (list_sum (map f l) + list_sum (map g l))%nat.
Proof. induction l as [|a l IH]; simpl; lia. Qed.

(** The rows of the user of [a] are those for a later movie, those for an
    earlier movie and those for the movie of [a]. *)
Lemma user_rows_split (R : list Ratings.row) (a : Ratings.row) :
  user_rows R (Ratings.userID a)
  = (length (filter (fun b => ((Ratings.userID b =? Ratings.userID a)
                               && (Ratings.movieID b >? Ratings.movieID a))%Z)
                    R)
     + length (filter (fun b => ((Ratings.userID a =? Ratings.userID b)
                                 && (Ratings.movieID a >? Ratings.movieID b))%Z)
                      R)
     + count_key (Ratings.userID a) (Ratings.movieID a) R)%nat.
Proof.
  unfold user_rows, count_key. induction R as [|b R IH]; simpl; [reflexivity|].
  rewrite (Z.eqb_sym (Ratings.userID a) (Ratings.userID b)).
  destruct (Z.eqb_spec (Ratings.userID b) (Ratings.userID a)) as [_|_];
    simpl; [|exact IH].
  rewrite !Z.gtb_ltb.
  destruct (Z.ltb_spec (Ratings.movieID a) (Ratings.movieID b)),
           (Z.ltb_spec (Ratings.movieID b) (Ratings.movieID a)),
           (Z.eqb_spec (Ratings.movieID b) (Ratings.movieID a));
    simpl; lia.
Qed.

Lemma count_key_member (R : list Ratings.row) (a : Ratings.row) :
  NoDup (map rating_key R) -> In a R ->
  count_key (Ratings.userID a) (Ratings.movieID a) R = 1%nat.
Proof.
  unfold count_key. induction R as [|b R IH]; simpl; [contradiction|].
  intros Hnd Hin. inversion Hnd as [|? ? Hnotin Hnd']; subst.
  destruct Hin as [->|Hin].
  - rewrite !Z.eqb_refl. simpl. f_equal. apply count_key_absent.
    exact Hnotin.
  - destruct (Z.eqb_spec (Ratings.userID b) (Ratings.userID a)) as [Eu|_];
      simpl; [|now apply IH].
    destruct (Z.eqb_spec (Ratings.movieID b) (Ratings.movieID a)) as [Em|_];
      simpl; [|now apply IH].
    exfalso. apply Hnotin. apply in_map_iff. exists a.
    unfold rating_key. rewrite Eu, Em. auto.
Qed.

Lemma pairJoin_size (R : list Ratings.row) :
  NoDup (map rating_key R) ->
  (2 * length (pairJoin R) + length R
   = list_sum (map (fun r => user_rows R (Ratings.userID r)) R))%nat.
Proof.
  intros Hnd.
  rewrite (map_ext _ _ (user_rows_split R)), !list_sum_map_add.
  rewrite <- (double_count
                (fun b a => (Ratings.userID a =? Ratings.userID b)
                            && (Ratings.movieID a >? Ratings.movieID b)) R R).
  unfold pairJoin at 1. rewrite length_join_on.
  assert (Hone : list_sum (map (fun a => count_key (Ratings.userID a)
                                           (Ratings.movieID a) R) R)
                 = length R).
  { rewrite (map_ext_in _ (fun _ => 1%nat))
      by (intros a Ha; now apply count_key_member).
    clear Hnd. induction R as [|b R' IH]; simpl; [reflexivity|].
    now rewrite IH. }
  rewrite Hone. lia.
Qed.
End SizeFacts.

(** X20.  When the ratings hold at most one row per (user, item), every
    rating row is paired with each other row of its user, and every such
    couple gives one pair row: twice the number of pair rows plus the
    number of rating rows is the sum, over the rating rows, of the number
    of rows of their user (in total, the sum over the users of
    [n * (n - 1) / 2], [n] being the user's number of rows). *)
Theorem moviePairs_size
    {D : DoubleOps} (movies : list Movies.row) (threshold : double) :
  one_row_per_interaction movies ->
  let ratings := ratings_of movies (filterGoodMovies movies threshold) in
  (2 * length (moviePairs ratings) + length ratings
   = list_sum (map (fun r => user_rows ratings (Ratings.userID r)) ratings))%nat.
Proof.
  intros Hone ratings. unfold moviePairs. rewrite length_map.
  apply pairJoin_size. apply ratings_of_NoDup; [|exact Hone].
  apply filterGoodMovies_NoDup.
Qed.

(** * More on the exact score and on the candidates *)

Lemma cosine_exact_zero_iff (l : list Pairs.row) :
  cosine (D := Exact) l = 0%R <-> sum_products l = 0.
Proof.
  pose proof (cauchy_schwarz l) as Hcs.
  pose proof (sum_squares1_nonneg l) as H1.
  pose proof (sum_squares2_nonneg l) as H2.
  unfold cosine. rewrite norms_product_exact.
  cbn [d_neqb d_lit0 d_div d_of_long Exact].
  destruct (Rneqb (sqrt (IZR (sum_squares1 l * sum_squares2 l))) 0) eqn:E.
  - apply Rneqb_true in E. split.
    + intros Hq. apply eq_IZR_R0.
      apply (Rmult_eq_compat_r
               (sqrt (IZR (sum_squares1 l * sum_squares2 l)))) in Hq.
      unfold Rdiv in Hq. rewrite Rmult_assoc, Rinv_l, Rmult_1_r, Rmult_0_l
        in Hq by exact E.
      exact Hq.
    + intros ->. unfold Rdiv. apply Rmult_0_l.
  - split; [intros _|reflexivity].
    assert (Hz : sqrt (IZR (sum_squares1 l * sum_squares2 l)) = 0%R).
    { destruct (Req_EM_T (sqrt (IZR (sum_squares1 l * sum_squares2 l))) 0)
        as [Hz|Hz]; [exact Hz|].
      apply Rneqb_true in Hz. congruence. }
    apply sqrt_eq_0 in Hz; [|apply IZR_le; nia].
    apply eq_IZR_R0 in Hz. nia.
Qed.

(** X21.  With ratings whose products fit the 32-bit columns, in exact
    arithmetic the score of a row is 0 exactly when the products of the two
    ratings add up to 0 over the observations of the pair, the zero guard
    included: with ratings that are not negative, when no user gave both
    movies a rating other than 0. *)
Theorem exact_score_zero_iff_no_product (data : list Pairs.row) :
  Forall products_fit data ->
  Forall (fun r : Sims.row Exact =>
            Sims.score r = 0%R
            <-> sum_products
                  (observations data (Sims.movie1 r) (Sims.movie2 r)) = 0)
         (computeCosineSimilarity (D := Exact) data).
Proof.
  intros Hfit. apply Forall_forall. intros r Hr.
  apply in_computeCosineSimilarity in Hr. destruct Hr as [_ Hr].
  rewrite Hr at 1. rewrite emitted_row_fits by now apply observations_fit.
  unfold similarity_row. simpl. apply cosine_exact_zero_iff.
Qed.

(** X22.  The candidates of a query are mutual: a row that passes the
    filter for a movie also passes it, with the same thresholds, for the
    movie the script reports as similar. *)
Theorem candidates_are_mutual
    {D : DoubleOps} (sims : list (Sims.row D)) (movieID : Z)
    (scoreThr pairsThr : double) :
  Forall (fun r =>
            In r (filteredResults sims (similarMovieID movieID r)
                                  scoreThr pairsThr))
         (filteredResults sims movieID scoreThr pairsThr).
Proof.
  apply Forall_forall. intros r Hr. apply in_filteredResults in Hr.
  destruct Hr as [Hin [_ [Hs Hc]]]. apply in_filteredResults.
  repeat split; try assumption. unfold similarMovieID.
  destruct (negb (Sims.movie1 r =? movieID)); auto.
Qed.

(** * What a query can list *)

Section ListingFacts.
Context {D : DoubleOps}.

Lemma similarity_keys_distinct (data : list Pairs.row) :
  NoDup (map Sims.key (computeCosineSimilarity (D := D) data)).
Proof.
  rewrite computeCosineSimilarity_rows, map_map.
  rewrite (map_ext _ (fun k => k)) by apply key_emitted_row.
  rewrite map_id. apply NoDup_nodup.
Qed.

Lemma results_keys_distinct (sims : list (Sims.row D)) (movieID : Z)
    (st ct : double) (topK : nat) :
  NoDup (map Sims.key sims) ->
  NoDup (map Sims.key (results sims movieID st ct topK)).
Proof.
  intros Hnd. unfold results. rewrite <- firstn_map.
  assert (Hs : NoDup (map Sims.key
                        (sort_desc (filteredResults sims movieID st ct)))).
  { apply (Permutation_NoDup
             (l := map Sims.key (filteredResults sims movieID st ct))).
    - apply Permutation_map. symmetry. apply sort_desc_perm.
    - unfold filteredResults. now apply filter_keeps_distinct_keys. }
  rewrite <- (firstn_skipn topK) in Hs.
  now apply NoDup_app_remove_r in Hs.
Qed.

(** When one column determines another on the rows of a table, distinct
    values of the second give distinct values of the first. *)
Lemma NoDup_determined {A B C : Type} (f : A -> B) (g : A -> C)
    (l : list A) :
  (forall x y, In x l -> In y l -> g x = g y -> f x = f y) ->
  NoDup (map f l) -> NoDup (map g l).
Proof.
  induction l as [|a l IH]; simpl; intros Hdet Hnd; [constructor|].
  inversion Hnd as [|? ? Hnotin Hnd']; subst. constructor.
  - intros Hin. apply in_map_iff in Hin. destruct Hin as [y [Hy Hin]].
    apply Hnotin. rewrite <- (Hdet y a) by auto. now apply in_map.
  - apply IH; auto.
Qed.
End ListingFacts.

(** X23.  A query never lists a movie twice: the movies reported as
    similar in the results of one query are pairwise distinct. *)
Theorem similar_movies_are_distinct
    {D : DoubleOps} (movies : list Movies.row) (movieID : Z)
    (scoreThr pairsThr : double) (topK : nat) :
  NoDup (map (similarMovieID movieID)
             (results (moviePairSimilarities (D := D) movies) movieID
                      scoreThr pairsThr topK)).
Proof.
  apply (NoDup_determined Sims.key).
  - intros x y Hx Hy. apply in_results in Hx, Hy.
    destruct Hx as [Hx Htx], Hy as [Hy Hty].
    apply similarity_row_origin in Hx, Hy.
    destruct Hx as [Hltx _], Hy as [Hlty _].
    unfold similarMovieID, Sims.key.
    destruct (Z.eqb_spec (Sims.movie1 x) movieID) as [Ex|Ex],
             (Z.eqb_spec (Sims.movie1 y) movieID) as [Ey|Ey];
      simpl; intros Heq.
    + now rewrite Ex, Ey, Heq.
    + destruct Hty as [Hty|Hty]; [contradiction|]. lia.
    + destruct Htx as [Htx|Htx]; [contradiction|]. lia.
    + destruct Htx as [Htx|Htx]; [contradiction|].
      destruct Hty as [Hty|Hty]; [contradiction|].
      now rewrite Htx, Hty, Heq.
  - apply results_keys_distinct. unfold moviePairSimilarities.
    apply similarity_keys_distinct.
Qed.

(** X24.  Every movie a query reports as similar is a rated movie whose
    mean rating is at least the default threshold 3.0 of the quality
    filter. *)
Theorem recommended_movies_are_good
    {D : DoubleOps} (movies : list Movies.row) (movieID : Z)
    (scoreThr pairsThr : double) (topK : nat) :
  Forall (fun r : Sims.row D =>
            In (similarMovieID movieID r) (map Movies.movieID movies)
            /\ d_geb (arithmetic_mean
                        (item_ratings movies (similarMovieID movieID r)))
                     threshold_default = true)
         (results (moviePairSimilarities movies) movieID scoreThr pairsThr
                  topK).
Proof.
  apply Forall_forall. intros r Hr. apply in_results in Hr.
  destruct Hr as [Hin _]. apply similarity_row_origin in Hin.
  destruct Hin as [_ [H1 H2]]. apply qualified_iff in H1, H2.
  unfold similarMovieID.
  destruct (negb (Sims.movie1 r =? movieID)); assumption.
Qed.

(** * The further properties on sample tables *)

Lemma computeCosineSimilarity_order_independent_witness :
  Permutation (computeCosineSimilarity (D := Binary64) scenario_pairs)
              (computeCosineSimilarity (rev scenario_pairs)).
Proof.
  apply computeCosineSimilarity_order_independent. apply Permutation_rev.
Defined.

Lemma proportional_ratings_exact_score_one_witness :
  Sims.score (emitted_row (D := Exact) doubled_pairs (1, 2)) = 1%R.
Proof.
  apply (proportional_ratings_exact_score_one doubled_pairs _ 1 2).
  - apply in_computeCosineSimilarity. split; [simpl; auto|reflexivity].
  - lia.
  - lia.
  - simpl. forall_list; unfold products_fit; simpl; lia.
  - simpl. forall_list; reflexivity.
  - simpl. apply Exists_cons_hd. simpl. discriminate.
Defined.

Lemma single_observation_exact_score_one_witness :
  Sims.score (emitted_row (D := Exact) lone_pairs (1, 2)) = 1%R.
Proof.
  apply (single_observation_exact_score_one lone_pairs).
  - apply in_computeCosineSimilarity. split; [simpl; auto|reflexivity].
  - reflexivity.
  - simpl. forall_list. simpl. lia.
Defined.

(** Movie 3 of the scenario is rated and in the catalog, but its mean
    rating 1.0 is below 3.0. *)
Lemma unqualified_movie_has_no_results_witness :
  main (D := Binary64) scenario_movies scenario_names (text "3")
  = ([Job; Out NoSimilarMovies], Ok tt).
Proof.
  apply (unqualified_movie_has_no_results scenario_movies scenario_names
           (text "3") 3).
  - vm_compute. reflexivity.
  - lia.
  - vm_compute. intuition discriminate.
Defined.

Lemma crowd_catalog_complete :
  forall m, In m (map Movies.movieID crowd_movies) ->
            exists e, In e crowd_names /\ Names.movieID e = m.
Proof.
  intros m Hm. unfold crowd_movies in Hm. apply in_map_iff in Hm.
  destruct Hm as [row [<- Hrow]]. apply in_flat_map in Hrow.
  destruct Hrow as [u [_ Hrow]]. simpl in Hrow.
  destruct Hrow as [<-|[<-|[]]]; simpl.
  - exists (Names.mk 1 "Toy Story"). auto.
  - exists (Names.mk 2 "GoldenEye"). auto.
Defined.

(** The run on [crowd_movies] for movie 1: one result, movie 2, with 51
    co-occurrences; 816 / (sqrt 816 * sqrt 816) is the double just below
    1.0. *)
Example crowd_run :
  main (D := Binary64) crowd_movies crowd_names (text "1")
  = ([Job; Job; Out (Top10Header "Toy Story"); Job;
      Out (SimilarMovie (D := Binary64) "GoldenEye"
             (PrimFloat.next_down (float_of_long 1)) 51)], Ok tt).
Proof. vm_compute. reflexivity. Qed.

Lemma complete_catalog_run_witness :
  exists (title : string) (titles : list string),
    main (D := Binary64) crowd_movies crowd_names (text "1")
    = ([Job; Job; Out (Top10Header title)]
       ++ result_events
            (results (moviePairSimilarities crowd_movies) 1 scoreThreshold
                     coOccurrenceThreshold 10)
            titles,
       Ok tt).
Proof.
  destruct (complete_catalog_run (D := Binary64) crowd_movies crowd_names
              (text "1") 1) as [title [titles [_ [_ [_ Hrun]]]]].
  - vm_compute. reflexivity.
  - exact crowd_catalog_complete.
  - vm_compute. discriminate.
  - exists title, titles. exact Hrun.
Defined.

Lemma missing_title_raises_witness :
  main (D := Binary64) crowd_movies [] (text "1")
  = ([Job; Job], Raise IndexError).
Proof.
  apply (missing_title_raises crowd_movies [] (text "1") 1).
  - vm_compute. reflexivity.
  - vm_compute. discriminate.
  - intros e [].
Defined.

(** The row of the movies 1 and 3 passes the higher thresholds 0.98 and
    55. *)
Lemma filteredResults_antitone_witness :
  filteredResults sample_sims 3 (d_literal 98 100) (d_of_long 55) <> []
  /\ incl (filteredResults sample_sims 3 (d_literal 98 100) (d_of_long 55))
          (filteredResults sample_sims 3 scoreThreshold
                           coOccurrenceThreshold).
Proof.
  split; [vm_compute; discriminate|].
  apply filteredResults_antitone; vm_compute; reflexivity.
Defined.

Lemma getMovieName_unique_catalog_witness :
  getMovieName scenario_names 2 = Ok "GoldenEye"%string.
Proof.
  apply (getMovieName_unique_catalog scenario_names 2 "GoldenEye").
  - simpl. repeat (constructor; [simpl; intuition discriminate|]).
    constructor.
  - simpl. auto.
Defined.

Lemma filterGoodMovies_rating_range_witness :
  filterGoodMovies (D := Exact) scenario_movies 6%R = [].
Proof.
  destruct (filterGoodMovies_rating_range scenario_movies 1 5 6%R)
    as [_ [_ Hnone]].
  - unfold scenario_movies. forall_list; vm_compute; intuition discriminate.
  - apply Hnone. lra.
Defined.

Lemma numPairs_counts_co_raters_witness :
  let ratings :=
    ratings_of scenario_movies
      (filterGoodMovies (D := Binary64) scenario_movies d_lit0) in
  Forall (fun r : Sims.row Binary64 =>
            Sims.numPairs r
            = Z.of_nat (length (co_raters ratings (Sims.movie1 r)
                                          (Sims.movie2 r)))
            /\ NoDup (co_raters ratings (Sims.movie1 r) (Sims.movie2 r)))
         (computeCosineSimilarity (moviePairs ratings)).
Proof.
  apply (numPairs_counts_co_raters (D := Binary64) scenario_movies d_lit0).
  unfold one_row_per_interaction. simpl.
  repeat (constructor; [simpl; intuition discriminate|]). constructor.
Defined.

Lemma foreign_character_is_invalid_input_witness :
  main (D := Binary64) scenario_movies scenario_names (text "12a")
  = ([Out InvalidInput], Raise NameError).
Proof.
  apply foreign_character_is_invalid_input. vm_compute. reflexivity.
Defined.

(** The line of the two ARABIC-INDIC digits for 42. *)
Lemma digit_line_outcomes_witness :
  py_int [1636; 1634] = Ok 42
  /\ exists tr res,
       main (D := Binary64) scenario_movies scenario_names [1636; 1634]
       = (Job :: tr, res).
Proof.
  destruct (digit_line_outcomes (D := Binary64) scenario_movies
              scenario_names [1636; 1634]) as [Hshort _].
  - discriminate.
  - vm_compute. reflexivity.
  - destruct Hshort as [Hint [_ [Hruns _]]]; [simpl; lia|].
    split; [exact Hint|]. apply Hruns. vm_compute. reflexivity.
Defined.

Lemma only_unparsable_input_is_rejected_witness :
  fst (main (D := Binary64) scenario_movies scenario_names (text "one"))
  = [Out InvalidInput]
  /\ main (D := Binary64) scenario_movies scenario_names (text "9999")
     = ([Job; Out NoSimilarMovies], Ok tt).
Proof.
  destruct (only_unparsable_input_is_rejected (D := Binary64) scenario_movies
              scenario_names (text "one")) as [Hbad _].
  destruct (only_unparsable_input_is_rejected (D := Binary64) scenario_movies
              scenario_names (text "9999")) as [_ Hgood].
  split.
  - apply Hbad. vm_compute. reflexivity.
  - destruct (Hgood 9999) as [_ [_ [_ Hnone]]].
    + vm_compute. reflexivity.
    + apply Hnone; [lia|]. vm_compute. intuition discriminate.
Defined.

Lemma exact_score_zero_iff_no_product_witness :
  Forall (fun r : Sims.row Exact =>
            Sims.score r = 0%R
            <-> sum_products
                  (observations zeros_pairs (Sims.movie1 r) (Sims.movie2 r))
                = 0)
         (computeCosineSimilarity (D := Exact) zeros_pairs).
Proof.
  apply exact_score_zero_iff_no_product.
  unfold zeros_pairs. forall_list. unfold products_fit. simpl. lia.
Defined.

(** With a catalog that lacks the similar movie, the run on [crowd_movies]
    stops in the loop. *)
Lemma missing_similar_title_stops_the_listing_witness :
  main (D := Binary64) crowd_movies short_names (text "1")
  = ([Job; Job; Out (Top10Header "Toy Story"); Job], Raise IndexError).
Proof.
  apply (missing_similar_title_stops_the_listing
           (D := Binary64) crowd_movies short_names (text "1") 1
           "Toy Story" [] []
           (Sims.mk Binary64 1 2 (PrimFloat.next_down (float_of_long 1)) 51)
           []).
  - vm_compute. reflexivity.
  - vm_compute. reflexivity.
  - vm_compute. reflexivity.
  - constructor.
  - intros e [<-|[]]. simpl. discriminate.
Defined.

Lemma avg_double_exact_perm (l l' : list Z) :
  Permutation l l' -> avg_double (D := Exact) l = avg_double l'.
Proof.
  intros Hp. change (arithmetic_mean (D := Exact) l = arithmetic_mean l').
  rewrite !arithmetic_mean_exact.
  now rewrite (sum_long_perm l l' Hp), (Permutation_length Hp).
Defined.

Lemma moviePairSimilarities_order_independent_witness :
  Permutation (moviePairSimilarities (D := Exact) scenario_movies)
              (moviePairSimilarities (rev scenario_movies)).
Proof.
  apply moviePairSimilarities_order_independent.
  - exact avg_double_exact_perm.
  - apply Permutation_rev.
Defined.

Lemma moviePairs_size_witness :
  let ratings :=
    ratings_of scenario_movies
      (filterGoodMovies (D := Binary64) scenario_movies d_lit0) in
  (2 * length (moviePairs ratings) + length ratings
   = list_sum (map (fun r => user_rows ratings (Ratings.userID r)) ratings))%nat.
Proof.
  apply (moviePairs_size (D := Binary64) scenario_movies d_lit0).
  unfold one_row_per_interaction. simpl.
  repeat (constructor; [simpl; intuition discriminate|]). constructor.
Defined.
